(** * Mobile UI JSON editor: a model of [mobile_ui_editor.py]

    The editor keeps one JSON document as nested Python [dict]s and [list]s
    and lets several views (canvas, tree, property form, raw text) hold
    references into it.  The model below keeps that sharing explicit: Python
    objects live in a heap, and values refer to them by location. *)

From Stdlib Require Import ZArith Floats Ascii List.
From stdpp Require Import base option strings numbers list.

Set Warnings "-register-all".

Open Scope Z_scope.

(** ** Python values and objects *)

Definition loc := nat.

(** A Python [str] is a sequence of Unicode code points. *)
Definition pystr := list N.

(** The [str] written as an ASCII literal. *)
Definition str (s : string) : pystr :=
  map N_of_ascii (String.list_ascii_of_string s).

Fixpoint str_eqb (s1 s2 : pystr) : bool :=
  match s1, s2 with
  | [], [] => true
  | c1 :: s1', c2 :: s2' => N.eqb c1 c2 && str_eqb s1' s2'
  | _, _ => false
  end.

(** Immediate values and references to heap objects.  [VFloat] carries an
    IEEE binary64 number, as a Python [float] does. *)
Inductive value :=
  | VNone
  | VBool (b : bool)
  | VInt (z : Z)
  | VFloat (f : float)
  | VStr (s : pystr)
  | VRef (l : loc).

(** A [dict] keeps its keys in insertion order; a [list] is a sequence. *)
Inductive pyobj :=
  | ODict (kvs : list (pystr * value))
  | OList (xs : list value).

(** The heap is append-only: a location is an index, and a new object gets
    the next index. *)
Abbreviation heap := (list pyobj).

Definition alloc (o : pyobj) (h : heap) : loc * heap := (length h, h ++ [o]).

(** ** Exceptions *)

Inductive exn :=
  | KeyError
  | TypeError
  | AttributeError
  | ValueError
  | OverflowError
  | JSONDecodeError
  | RecursionError
  | OSError.

Inductive result (A : Type) :=
  | Ok (a : A)
  | Raise (e : exn).
Arguments Ok {A} a.
Arguments Raise {A} e.

#[global] Instance result_ret : MRet result := fun A a => Ok a.
#[global] Instance result_bind : MBind result := fun A B f c =>
  match c with
  | Ok a => f a
  | Raise e => Raise e
  end.

(** The spec calls any failure of path resolution [PathError]; the code
    raises [KeyError] (missing key) or [TypeError] (subscripting something
    that is not a [dict]). *)
Definition PathError (e : exn) : Prop := e = KeyError \/ e = TypeError.

(** ** Dictionaries *)

Fixpoint dict_get {V} (kvs : list (pystr * V)) (k : pystr) : option V :=
  match kvs with
  | [] => None
  | (k', v) :: rest => if str_eqb k' k then Some v else dict_get rest k
  end.

(** [d[k] = v]: replace in place when the key is present, append otherwise. *)
Fixpoint dict_set {V} (kvs : list (pystr * V)) (k : pystr) (v : V)
  : list (pystr * V) :=
  match kvs with
  | [] => [(k, v)]
  | (k', v') :: rest =>
      if str_eqb k' k then (k', v) :: rest else (k', v') :: dict_set rest k v
  end.

(** [hay.startswith(needle)] *)
Fixpoint is_prefix (needle hay : pystr) : bool :=
  match needle, hay with
  | [], _ => true
  | c :: needle', d :: hay' => N.eqb c d && is_prefix needle' hay'
  | _ :: _, [] => false
  end.

(** [needle in hay] on strings. *)
Fixpoint is_substring (needle hay : pystr) : bool :=
  is_prefix needle hay ||
  match hay with
  | [] => false
  | _ :: hay' => is_substring needle hay'
  end.

(** ** Operations of the Python object protocol used by the editor *)

(** [bool(v)] *)
Definition truthy (h : heap) (v : value) : bool :=
  match v with
  | VNone => false
  | VBool b => b
  | VInt z => negb (z =? 0)
  | VFloat f => negb (f =? 0)%float
  | VStr s => negb (str_eqb s [])
  | VRef l =>
      match h !! l with
      | Some (ODict kvs) => negb (bool_decide (kvs = []))
      | Some (OList xs) => negb (bool_decide (xs = []))
      | None => true
      end
  end.

(** [isinstance(v, dict)] together with the dictionary's contents. *)
Definition as_dict (h : heap) (v : value) : option (list (pystr * value)) :=
  match v with
  | VRef l => match h !! l with Some (ODict kvs) => Some kvs | _ => None end
  | _ => None
  end.

(** [v[k]] for a string key [k]. *)
Definition py_getitem (h : heap) (v : value) (k : pystr) : result value :=
  match as_dict h v with
  | Some kvs =>
      match dict_get kvs k with
      | Some x => Ok x
      | None => Raise KeyError
      end
  | None => Raise TypeError
  end.

(** [v[k] = x] for a string key [k]. *)
Definition py_setitem (h : heap) (v : value) (k : pystr) (x : value)
  : result heap :=
  match v with
  | VRef l =>
      match h !! l with
      | Some (ODict kvs) => Ok (<[l := ODict (dict_set kvs k x)]> h)
      | _ => Raise TypeError
      end
  | _ => Raise TypeError
  end.

(** [v.get(k)]: only a [dict] has the method. *)
Definition py_get (h : heap) (v : value) (k : pystr) : result (option value) :=
  match as_dict h v with
  | Some kvs => Ok (dict_get kvs k)
  | None => Raise AttributeError
  end.

(** [k in v] for a string [k]. *)
Definition py_contains (h : heap) (v : value) (k : pystr) : result bool :=
  match v with
  | VStr s => Ok (is_substring k s)
  | VRef l =>
      match h !! l with
      | Some (ODict kvs) => Ok (bool_decide (is_Some (dict_get kvs k)))
      | Some (OList xs) =>
          Ok (existsb (fun x => match x with VStr s => str_eqb s k | _ => false end) xs)
      | None => Raise TypeError
      end
  | _ => Raise TypeError
  end.

(** [s.split('.')]: never empty.  46 is the code point of the dot. *)
Fixpoint split_dot (s : pystr) : list pystr :=
  match s with
  | [] => [[]]
  | c :: s' =>
      if N.eqb c 46 then [] :: split_dot s'
      else match split_dot s' with
           | w :: ws => (c :: w) :: ws
           | [] => [[c]]
           end
  end.

(** ** [PropertyEditor.update_field] (lines 215-229) *)

(** [for key in keys: data = data[key]] *)
Fixpoint navigate (h : heap) (data : value) (keys : list pystr) : result value :=
  match keys with
  | [] => Ok data
  | key :: keys' => d ← py_getitem h data key; navigate h d keys'
  end.

(** The result is the heap after the call and whether [property_changed]
    was emitted. *)
Definition update_field (h : heap) (current_data : value)
    (field_path : pystr) (v : value) : result (heap * bool) :=
  if negb (truthy h current_data) then Ok (h, false)
  else
    let keys := split_dot field_path in
    data ← navigate h current_data (removelast keys);
    h' ← py_setitem h data (List.last keys []) v;
    Ok (h', true).

(** Reading [root.k1.k2...kn]. *)
Definition read_path (h : heap) (root : value) (field_path : pystr) : result value :=
  navigate h root (split_dot field_path).

(** ** [DraggableWidget.itemChange] (lines 54-65), position change *)

(** Lines 59-62: create [props] and [props.position] when there is no
    position yet. *)
Definition ensure_position (h : heap) (widget_data : value) : result heap :=
  props ← py_get h widget_data (str "props");
  has_position ←
    match props with
    | Some p => py_contains h p (str "position")
    | None => Ok false
    end;
  if negb has_position then
    has_props ← py_contains h widget_data (str "props");
    h_a ←
      (if negb has_props then
         let '(l, h') := alloc (ODict []) h in
         py_setitem h' widget_data (str "props") (VRef l)
       else Ok h);
    p ← py_getitem h_a widget_data (str "props");
    let '(l, h_b) := alloc (ODict []) h_a in
    py_setitem h_b p (str "position") (VRef l)
  else Ok h.

(** Lines 63 and 64: [self.widget_data['props']['position'][axis] = v]. *)
Definition set_position_axis (h : heap) (widget_data : value)
    (axis : pystr) (v : value) : result heap :=
  p ← py_getitem h widget_data (str "props");
  pos ← py_getitem h p (str "position");
  py_setitem h pos axis v.

(** [new_x] and [new_y] are the coordinates of the [QPointF] passed by Qt;
    the handler returns the proposed position unchanged. *)
Definition itemChange (h : heap) (widget_data : value) (new_x new_y : float)
  : result heap :=
  h1 ← ensure_position h widget_data;
  h2 ← set_position_axis h1 widget_data (str "x") (VFloat new_x);
  set_position_axis h2 widget_data (str "y") (VFloat new_y).

(** ** What the spec means by a path whose intermediate segments exist

    [resolve_objects h v keys] follows [keys] from [v] through nested
    objects: [v] must be a [dict], each key must be present, and each value
    reached must again be a [dict].  It returns the locations of the objects
    visited, the starting object first. *)
Fixpoint resolve_objects (h : heap) (v : value) (keys : list pystr)
  : option (list loc) :=
  match v with
  | VRef l =>
      match h !! l with
      | Some (ODict kvs) =>
          match keys with
          | [] => Some [l]
          | key :: keys' =>
              match dict_get kvs key with
              | Some v' => (fun ls => l :: ls) <$> resolve_objects h v' keys'
              | None => None
              end
          end
      | _ => None
      end
  | _ => None
  end.

(** The element at [l] has a position object at [q] with contents [qk]. *)
Definition positioned (h : heap) (l q : loc) (qk : list (pystr * value)) : Prop :=
  exists kvs p pk,
    h !! l = Some (ODict kvs) /\ dict_get kvs (str "props") = Some (VRef p) /\
    h !! p = Some (ODict pk) /\ dict_get pk (str "position") = Some (VRef q) /\
    h !! q = Some (ODict qk) /\ q <> l /\ q <> p.


(** ** Numbers handed to Qt *)

(** A C++ [double] argument, kept as the Python number it was converted
    from: an [int] (converted exactly or rounded by the binding) or a
    [float]. *)
Inductive qreal :=
  | QInt (z : Z)
  | QFloat (f : float).

(** [float(z)], correctly rounded. *)
Definition float_of_Z (z : Z) : float :=
  SF2Prim (binary_normalize prec emax z 0 false).

(** The [double] itself. *)
Definition qreal_float (q : qreal) : float :=
  match q with
  | QInt z => float_of_Z z
  | QFloat f => f
  end.

(** Integers of this magnitude or more round to an infinite [double]. *)
Definition DBL_INT_LIMIT : Z := 2 ^ 1024 - 2 ^ 970.

(** Conversion of a Python argument to [double]: numbers only, and an [int]
    must round to a finite [double]. *)
Definition to_qreal (v : value) : result qreal :=
  match v with
  | VInt z =>
      if Z.abs z <? DBL_INT_LIMIT then Ok (QInt z) else Raise OverflowError
  | VFloat f => Ok (QFloat f)
  | VBool b => Ok (QInt (Z.b2z b))
  | _ => Raise TypeError
  end.

(** Qt's [qFuzzyIsNull]: [|d| <= 1e-12].  A nonzero integer is never that
    small. *)
Definition qFuzzyIsNull (q : qreal) : bool :=
  match q with
  | QInt z => z =? 0
  | QFloat f => (abs f <=? 0x1.19799812dea11p-40)%float
  end.

(** ** [DraggableWidget] (lines 24-65) *)

(** The rectangle is [(0, 0, width, height)] in item coordinates; the
    position is that of the item in the scene.  The label's text is
    presentation only and is left out. *)
Record DraggableWidget := {
  widget_data : value;
  rect_width : qreal;
  rect_height : qreal;
  pos_x : qreal;
  pos_y : qreal;
}.

(** [update_label] (lines 43-52) reads [id], [type] and [Component] with
    [dict.get]. *)
Definition update_label (h : heap) (wd : value) : result unit :=
  _ ← py_get h wd (str "id");
  _ ← py_get h wd (str "type");
  _ ← py_get h wd (str "Component");
  Ok ().

(** [__init__] (lines 27-41).  The item is created at [(0, 0)] with the flag
    [ItemSendsGeometryChanges] set (line 32), so [setPos(x, y)] (line 41)
    makes Qt call [itemChange] with the new position, unless the new
    position equals the current one ([QPointF] equality is fuzzy), in which
    case Qt does nothing. *)
Definition DraggableWidget_init (h : heap) (wd x y width height : value)
  : result (DraggableWidget * heap) :=
  w ← to_qreal width;
  ht ← to_qreal height;
  _ ← update_label h wd;
  qx ← to_qreal x;
  qy ← to_qreal y;
  if qFuzzyIsNull qx && qFuzzyIsNull qy then
    Ok ({| widget_data := wd; rect_width := w; rect_height := ht;
           pos_x := QInt 0; pos_y := QInt 0 |}, h)
  else
    h' ← itemChange h wd (qreal_float qx) (qreal_float qy);
    Ok ({| widget_data := wd; rect_width := w; rect_height := ht;
           pos_x := qx; pos_y := qy |}, h').

(** ** [CanvasView] (lines 68-115) *)

(** [d.get(k, {})] followed by [.get] calls on the result: the contents of
    the dictionary found under [k], or of the empty default. *)
Definition get_dict_or_empty (h : heap) (kvs : list (pystr * value)) (k : pystr)
  : result (list (pystr * value)) :=
  match dict_get kvs k with
  | None => Ok []
  | Some v =>
      match as_dict h v with
      | Some kvs' => Ok kvs'
      | None => Raise AttributeError
      end
  end.

(** [add_widget] (lines 88-100); [items] is [self.widgets_items]. *)
Definition add_widget (h : heap) (items : list DraggableWidget) (wd : value)
  : result (heap * list DraggableWidget) :=
  match as_dict h wd with
  | None => Raise AttributeError
  | Some kvs =>
      props ← get_dict_or_empty h kvs (str "props");
      position ← get_dict_or_empty h props (str "position");
      let n := Z.of_nat (length items) in
      let x := default (VInt (50 + n * 20)) (dict_get position (str "x")) in
      let y := default (VInt (50 + n * 20)) (dict_get position (str "y")) in
      let width := default (VInt 150) (dict_get position (str "width")) in
      let height := default (VInt 100) (dict_get position (str "height")) in
      '(item, h') ← DraggableWidget_init h wd x y width height;
      Ok (h', items ++ [item])
  end.

(** [for elem in elems: self.canvas.add_widget(elem)].  The loop stops at
    the first exception; the result is the heap and the shapes as the loop
    left them, and the exception if there was one. *)
Fixpoint add_widgets (h : heap) (items : list DraggableWidget) (elems : list value)
  : heap * list DraggableWidget * option exn :=
  match elems with
  | [] => (h, items, None)
  | elem :: elems' =>
      match add_widget h items elem with
      | Ok (h', items') => add_widgets h' items' elems'
      | Raise e => (h, items, Some e)
      end
  end.

(** Iteration [for x in v]: the elements of a list, the keys of a
    dictionary, the characters of a string. *)
Definition py_iter (h : heap) (v : value) : result (list value) :=
  match v with
  | VStr s => Ok (map (fun c => VStr [c]) s)
  | VRef l =>
      match h !! l with
      | Some (OList xs) => Ok xs
      | Some (ODict kvs) => Ok (map (fun kv => VStr (fst kv)) kvs)
      | None => Raise TypeError
      end
  | _ => Raise TypeError
  end.

(** [d.get(k, [])] followed by iteration. *)
Definition get_elements (h : heap) (d : value) (k : pystr) : result (list value) :=
  o ← py_get h d k;
  match o with
  | Some v => py_iter h v
  | None => Ok []
  end.

(** [MobileUIEditor.load_canvas] (lines 480-495), starting from
    [clear_widgets]. *)
Definition load_canvas (h : heap) (json_data : value)
  : heap * list DraggableWidget * option exn :=
  if negb (truthy h json_data) then (h, [], None)
  else
    match get_elements h json_data (str "moduleElements") with
    | Raise e => (h, [], Some e)
    | Ok module_elements =>
        match add_widgets h [] module_elements with
        | (h1, items1, Some e) => (h1, items1, Some e)
        | (h1, items1, None) =>
            match get_elements h1 json_data (str "enhancedData") with
            | Raise e => (h1, items1, Some e)
            | Ok enhanced_data => add_widgets h1 items1 enhanced_data
            end
        end
    end.

(** ** What the spec means by an element without a position *)

(** The element is an object with no [props], or with a [props] object that
    has no [position]. *)
Definition lacks_position (h : heap) (v : value) : Prop :=
  exists l kvs,
    v = VRef l /\ h !! l = Some (ODict kvs) /\
    (dict_get kvs (str "props") = None \/
     exists p pkvs, dict_get kvs (str "props") = Some (VRef p) /\
                    h !! p = Some (ODict pkvs) /\
                    dict_get pkvs (str "position") = None).

(** The objects a position write on the element may touch: the element and
    its [props]. *)
Definition footprint (h : heap) (v : value) : list loc :=
  match v with
  | VRef l =>
      l :: match h !! l with
           | Some (ODict kvs) =>
               match dict_get kvs (str "props") with
               | Some (VRef p) => [p]
               | _ => []
               end
           | _ => []
           end
  | _ => []
  end.

(** The shape the canvas gives the [n]-th element when the document says
    nothing about its position. *)
Definition default_item (n : nat) (wd : value) : DraggableWidget :=
  {| widget_data := wd;
     rect_width := QInt 150; rect_height := QInt 100;
     pos_x := QInt (50 + 20 * Z.of_nat n); pos_y := QInt (50 + 20 * Z.of_nat n) |}.

(** * The [json] module

    The editor reads and writes the document with [json.load], [json.loads],
    [json.dump] and [json.dumps] of the Python standard library.  What
    follows is a model of that library: the decoder as the accelerated
    scanner implements it, the encoder as it runs with [indent=2]. *)

(** ** JSON trees

    The value [json.loads] builds, and the shape of value [json.dumps]
    accepts: no sharing, no cycles. *)
Inductive json :=
  | JNull
  | JBool (b : bool)
  | JInt (z : Z)
  | JFloat (f : float)
  | JStr (s : pystr)
  | JArr (xs : list json)
  | JObj (kvs : list (pystr * json)).

(** ** Numbers as text *)

Definition is_digit (c : N) : bool := (48 <=? c)%N && (c <=? 57)%N.

Definition digit_value (c : N) : Z := Z.of_N c - 48.

(** The decimal numeral [ds] read as a natural number, continuing [acc]. *)
Fixpoint digits_value (acc : Z) (ds : pystr) : Z :=
  match ds with
  | [] => acc
  | c :: ds' => digits_value (10 * acc + digit_value c) ds'
  end.

(** The decimal digits of a positive number, most significant first. *)
Fixpoint pos_digits (fuel : nat) (p : Z) (acc : pystr) : pystr :=
  match fuel with
  | O => acc
  | S fuel' =>
      let acc' := (Z.to_N (p mod 10) + 48)%N :: acc in
      if p <? 10 then acc' else pos_digits fuel' (p / 10) acc'
  end.

(** [repr(z)] for an [int]. *)
Definition int_repr (z : Z) : pystr :=
  match z with
  | Z0 => [48%N]
  | Zpos p => pos_digits (Pos.to_nat (Pos.size p)) z []
  | Zneg p => 45%N :: pos_digits (Pos.to_nat (Pos.size p)) (Zpos p) []
  end.

(** [float] of the decimal [m * 10 ^ e] with [m >= 0], correctly rounded
    (to nearest, ties to even), with sign [neg]: the quotient of the
    decimal's numerator and denominator is taken with at least 64 bits, and
    what the division leaves out decides the rounding. *)
Definition float_of_decimal (neg : bool) (m e : Z) : float :=
  if m =? 0 then SF2Prim (S754_zero neg)
  else
    let '(num, den) := if 0 <=? e then (m * 10 ^ e, 1) else (m, 10 ^ (- e)) in
    let s := Z.max 0 (64 + Z.log2 den - Z.log2 num) in
    let n := num * 2 ^ s in
    let q := n / den in
    let r := n mod den in
    let lx := if r =? 0 then loc_Exact else loc_Inexact (2 * r ?= den) in
    SF2Prim (binary_round_aux prec emax neg q (- s) lx).

Fixpoint strip_trailing_zeros_rev (rev_ds : pystr) : pystr :=
  match rev_ds with
  | c :: ds => if (c =? 48)%N then strip_trailing_zeros_rev ds else rev_ds
  | [] => []
  end.

Definition strip_trailing_zeros (ds : pystr) : pystr :=
  rev (strip_trailing_zeros_rev (rev ds)).

(** [float] of the digits [ds] times [10 ^ e]: the zeros at the end of the
    digits go into the exponent first. *)
Definition float_of_digits (neg : bool) (ds : pystr) (e : Z) : float :=
  let ds' := strip_trailing_zeros ds in
  float_of_decimal neg (digits_value 0 ds')
    (e + Z.of_nat (length ds) - Z.of_nat (length ds')).

(** ** The decoder *)

(** Whether the input starts with the character [c]. *)
Definition starts_with (c : N) (s : pystr) : bool :=
  match s with
  | c' :: _ => (c' =? c)%N
  | [] => false
  end.

Definition is_ws (c : N) : bool :=
  (c =? 32)%N || (c =? 9)%N || (c =? 10)%N || (c =? 13)%N.

Fixpoint skip_ws (s : pystr) : pystr :=
  match s with
  | c :: s' => if is_ws c then skip_ws s' else s
  | [] => []
  end.

Definition hex_value (c : N) : option N :=
  if (48 <=? c)%N && (c <=? 57)%N then Some (c - 48)%N
  else if (97 <=? c)%N && (c <=? 102)%N then Some (c - 87)%N
  else if (65 <=? c)%N && (c <=? 70)%N then Some (c - 55)%N
  else None.

(** Four hexadecimal digits. *)
Definition decode_uXXXX (s : pystr) : option (N * pystr) :=
  match s with
  | c1 :: c2 :: c3 :: c4 :: rest =>
      d1 ← hex_value c1; d2 ← hex_value c2; d3 ← hex_value c3; d4 ← hex_value c4;
      Some (((d1 * 16 + d2) * 16 + d3) * 16 + d4, rest)%N
  | _ => None
  end.

Definition is_high_surrogate (c : N) : bool := (0xD800 <=? c)%N && (c <=? 0xDBFF)%N.
Definition is_low_surrogate (c : N) : bool := (0xDC00 <=? c)%N && (c <=? 0xDFFF)%N.

Definition join_surrogates (hi lo : N) : N :=
  (0x10000 + (N.lor (N.shiftl (hi - 0xD800) 10) (lo - 0xDC00)))%N.

(** What follows an escaped code unit [uni]: when it is a high surrogate
    and the escape of a low surrogate comes next, the two are one
    character. *)
Definition surrogate_pair (uni : N) (rest : pystr) : option (N * pystr) :=
  if is_high_surrogate uni && is_prefix [92%N; 117%N] rest then
    '(uni2, rest') ← decode_uXXXX (drop 2 rest);
    if is_low_surrogate uni2
    then Some (join_surrogates uni uni2, rest')
    else Some (uni, rest)
  else Some (uni, rest).

(** The character of a one-letter escape. *)
Definition unescape (c : N) : option N :=
  if (c =? 34)%N then Some 34%N          (* quote *)
  else if (c =? 92)%N then Some 92%N     (* backslash *)
  else if (c =? 47)%N then Some 47%N     (* slash *)
  else if (c =? 98)%N then Some 8%N      (* b: backspace *)
  else if (c =? 102)%N then Some 12%N    (* f: form feed *)
  else if (c =? 110)%N then Some 10%N    (* n: line feed *)
  else if (c =? 114)%N then Some 13%N    (* r: carriage return *)
  else if (c =? 116)%N then Some 9%N     (* t: tab *)
  else None.

(** [scanstring], strict: the input stands just after the opening quote;
    the result is the string and the input after the closing quote.  An
    escaped high surrogate followed by an escaped low surrogate is one
    character. *)
Fixpoint scanstring (fuel : nat) (s : pystr) : option (pystr * pystr) :=
  match fuel with
  | O => None
  | S fuel' =>
      match s with
      | [] => None
      | c :: rest =>
          if (c =? 34)%N then Some ([], rest)
          else if (c =? 92)%N then
            match rest with
            | [] => None
            | e :: rest1 =>
                if (e =? 117)%N then
                  '(uni, rest2) ← decode_uXXXX rest1;
                  '(ch, rest3) ← surrogate_pair uni rest2;
                  '(str, rest4) ← scanstring fuel' rest3;
                  Some (ch :: str, rest4)
                else
                  ch ← unescape e;
                  '(str, rest2) ← scanstring fuel' rest1;
                  Some (ch :: str, rest2)
            end
          else if (c <? 32)%N then None
          else
            '(str, rest1) ← scanstring fuel' rest;
            Some (c :: str, rest1)
      end
  end.

(** The longest prefix of digits, and what follows it. *)
Fixpoint span_digits (s : pystr) : pystr * pystr :=
  match s with
  | c :: s' =>
      if is_digit c then let '(ds, rest) := span_digits s' in (c :: ds, rest)
      else ([], s)
  | [] => ([], [])
  end.

(** The integer part of a number: [0], or a nonzero digit and more digits. *)
Definition match_integer (s : pystr) : option (pystr * pystr) :=
  match s with
  | c :: s' =>
      if (c =? 48)%N then Some ([48%N], s')
      else if is_digit c then let '(ds, rest) := span_digits s' in Some (c :: ds, rest)
      else None
  | [] => None
  end.

(** The fraction, when a dot and a digit follow. *)
Definition match_frac (s : pystr) : pystr * pystr :=
  if starts_with 46 s then
    match span_digits (drop 1 s) with
    | ([], _) => ([], s)
    | (ds, rest) => (ds, rest)
    end
  else ([], s).

(** The exponent, when [e] or [E], an optional sign and a digit follow:
    whether there is one, its value, and the rest. *)
Definition match_exp (s : pystr) : option Z * pystr :=
  if starts_with 101 s || starts_with 69 s then
    let s' := drop 1 s in
    let '(neg, s'') :=
      if starts_with 45 s' then (true, drop 1 s')
      else if starts_with 43 s' then (false, drop 1 s')
      else (false, s') in
    match span_digits s'' with
    | ([], _) => (None, s)
    | (ds, rest) =>
        (Some (if neg then - digits_value 0 ds else digits_value 0 ds), rest)
    end
  else (None, s).

(** A number: an [int] when it has neither fraction nor exponent, a [float]
    otherwise. *)
Definition match_number (s : pystr) : option (json * pystr) :=
  let neg := starts_with 45 s in
  let s1 := if neg then drop 1 s else s in
  '(int_ds, s2) ← match_integer s1;
  let '(frac_ds, s3) := match_frac s2 in
  let '(exp, s4) := match_exp s3 in
  match frac_ds, exp with
  | [], None =>
      let z := digits_value 0 int_ds in
      Some (JInt (if neg then - z else z), s4)
  | _, _ =>
      let e := default 0 exp - Z.of_nat (length frac_ds) in
      Some (JFloat (float_of_digits neg (int_ds ++ frac_ds) e), s4)
  end.

(** The members of a nonempty array, the input standing at the first of
    them; [scan] reads one value. *)
Fixpoint array_items (scan : pystr -> option (json * pystr)) (fuel : nat)
    (s : pystr) : option (list json * pystr) :=
  match fuel with
  | O => None
  | S fuel' =>
      '(v, rest) ← scan s;
      let s1 := skip_ws rest in
      if starts_with 93 s1 then Some ([v], drop 1 s1)
      else if starts_with 44 s1 then
        '(vs, rest') ← array_items scan fuel' (skip_ws (drop 1 s1));
        Some (v :: vs, rest')
      else None
  end.

(** The members of a nonempty object, the input standing at the quote of
    the first key. *)
Fixpoint object_items (scan : pystr -> option (json * pystr)) (fuel : nat)
    (s : pystr) : option (list (pystr * json) * pystr) :=
  match fuel with
  | O => None
  | S fuel' =>
      if starts_with 34 s then
        '(key, s1) ← scanstring (length s) (drop 1 s);
        let s2 := skip_ws s1 in
        if starts_with 58 s2 then
          '(v, s3) ← scan (skip_ws (drop 1 s2));
          let s4 := skip_ws s3 in
          if starts_with 125 s4 then Some ([(key, v)], drop 1 s4)
          else if starts_with 44 s4 then
            '(kvs, rest) ← object_items scan fuel' (skip_ws (drop 1 s4));
            Some ((key, v) :: kvs, rest)
          else None
        else None
      else None
  end.

(** A Python [dict] built by assigning the pairs in order: a repeated key
    keeps its first place and its last value. *)
Definition dict_of_pairs {V} (pairs : list (pystr * V)) : list (pystr * V) :=
  fold_left (fun d kv => dict_set d (fst kv) (snd kv)) pairs [].

(** [scan_once]: one JSON value at the head of the input. *)
Fixpoint scan_once (fuel : nat) (s : pystr) : option (json * pystr) :=
  match fuel with
  | O => None
  | S fuel' =>
      match s with
      | [] => None
      | c :: rest =>
          if (c =? 34)%N then
            '(x, rest') ← scanstring (length rest) rest; Some (JStr x, rest')
          else if (c =? 123)%N then
            let s1 := skip_ws rest in
            if starts_with 125 s1 then Some (JObj [], drop 1 s1)
            else
              '(pairs, rest') ← object_items (scan_once fuel') fuel' s1;
              Some (JObj (dict_of_pairs pairs), rest')
          else if (c =? 91)%N then
            let s1 := skip_ws rest in
            if starts_with 93 s1 then Some (JArr [], drop 1 s1)
            else
              '(xs, rest') ← array_items (scan_once fuel') fuel' s1;
              Some (JArr xs, rest')
          else if is_prefix (str "null") s then Some (JNull, drop 4 s)
          else if is_prefix (str "true") s then Some (JBool true, drop 4 s)
          else if is_prefix (str "false") s then Some (JBool false, drop 5 s)
          else
            match match_number s with
            | Some r => Some r
            | None =>
                if is_prefix (str "NaN") s then Some (JFloat nan, drop 3 s)
                else if is_prefix (str "Infinity") s then Some (JFloat infinity, drop 8 s)
                else if is_prefix (str "-Infinity") s then Some (JFloat neg_infinity, drop 9 s)
                else None
            end
      end
  end.

(** [json.loads(s)]; [None] stands for [JSONDecodeError].  A value, with
    white space around it and nothing else; no byte order mark. *)
Definition json_loads (s : pystr) : option json :=
  if starts_with 0xFEFF s then None
  else
    '(v, rest) ← scan_once (S (length s)) (skip_ws s);
    match skip_ws rest with
    | [] => Some v
    | _ => None
    end.

(** ** [repr] of a [float] *)

(** [floor(v / 10 ^ k)] and whether the division is exact, below half, half
    or above half, for the rational [v = num / den]. *)
Definition scaled_floor (num den k : Z) : Z * location :=
  let '(a, b) := if 0 <=? k then (num, den * 10 ^ k) else (num * 10 ^ (- k), den) in
  let r := a mod b in
  (a / b, if r =? 0 then loc_Exact else loc_Inexact (2 * r ?= b)).

(** The decimal exponent [k] with [10 ^ (k - 1) <= v < 10 ^ k], found by
    correcting an estimate from the binary logarithm. *)
Fixpoint adjust_decpt (fuel : nat) (num den k : Z) : Z :=
  match fuel with
  | O => k
  | S fuel' =>
      if 1 <=? fst (scaled_floor num den k) then adjust_decpt fuel' num den (k + 1)
      else if fst (scaled_floor num den (k - 1)) <? 1 then adjust_decpt fuel' num den (k - 1)
      else k
  end.

Definition decpt_of (num den : Z) : Z :=
  adjust_decpt 8 num den (((Z.log2 num - Z.log2 den) * 30103) / 100000).

(** The shortest decimal that reads back as [x = num / den > 0], tried with
    [n], [n + 1], ... significant digits; of two that do, the closer one.
    The result is the decimal's integer and its power of ten.  The search
    ends at the latest where the decimal is [x] itself. *)
Fixpoint shortest_decimal (fuel : nat) (x : float) (num den k : Z) (n : Z) : Z * Z :=
  let '(lo, lx) := scaled_floor num den (k - n) in
  match lx with
  | loc_Exact => (lo, k - n)
  | loc_Inexact c =>
      let nearest :=
        match c with
        | Lt => lo
        | Gt => lo + 1
        | Eq => if Z.even lo then lo else lo + 1
        end in
      let ok c := (float_of_digits false (int_repr c) (k - n) =? x)%float in
      match fuel with
      | O => (nearest, k - n)
      | S fuel' =>
          if ok lo && ok (lo + 1) then (nearest, k - n)
          else if ok lo then (lo, k - n)
          else if ok (lo + 1) then (lo + 1, k - n)
          else shortest_decimal fuel' x num den k (n + 1)
      end
  end.

Definition zeros (n : Z) : pystr := replicate (Z.to_nat n) 48%N.

(** The format of [repr]: positional when the decimal point falls within
    [-4 < decpt <= 16], with an exponent of at least two digits otherwise. *)
Definition format_repr (ds : pystr) (decpt : Z) : pystr :=
  let n := Z.of_nat (length ds) in
  if (-4 <? decpt) && (decpt <=? 16) then
    if decpt <=? 0 then str "0." ++ zeros (- decpt) ++ ds
    else if n <=? decpt then ds ++ zeros (decpt - n) ++ str ".0"
    else take (Z.to_nat decpt) ds ++ str "." ++ drop (Z.to_nat decpt) ds
  else
    let e := decpt - 1 in
    let mant :=
      match ds with
      | [d] => [d]
      | d :: ds' => d :: 46%N :: ds'
      | [] => []
      end in
    let e_ds := int_repr (Z.abs e) in
    mant ++ str "e" ++ (if e <? 0 then str "-" else str "+")
         ++ (if Z.abs e <? 10 then 48%N :: e_ds else e_ds).

(** [float.__repr__]: the shortest decimal that reads back as [x], in the
    format of [repr].  The search is given as many steps as the exact
    decimal of [x] has digits. *)
Definition float_repr (x : float) : pystr :=
  match Prim2SF x with
  | S754_nan => str "nan"
  | S754_infinity s => if s then str "-inf" else str "inf"
  | S754_zero s => if s then str "-0.0" else str "0.0"
  | S754_finite s m e =>
      let '(num, den) := if 0 <=? e then (Zpos m * 2 ^ e, 1) else (Zpos m, 2 ^ (- e)) in
      let k := decpt_of num den in
      let fuel := Z.to_nat (k + Z.max 0 (- e)) in
      let '(c, p) := shortest_decimal fuel (abs x) num den k 1 in
      let ds := int_repr c in
      let decpt := Z.of_nat (length ds) + p in
      (if s then str "-" else []) ++ format_repr (strip_trailing_zeros ds) decpt
  end.

(** ** The encoder *)

Definition hex_digit (d : N) : N :=
  if (d <? 10)%N then (d + 48)%N else (d + 87)%N.

(** Four hexadecimal digits, lower case. *)
Definition hex4 (c : N) : pystr :=
  [hex_digit (c / 4096 mod 16)%N; hex_digit (c / 256 mod 16)%N;
   hex_digit (c / 16 mod 16)%N; hex_digit (c mod 16)%N].

(** [\uXXXX] *)
Definition escape_u (c : N) : pystr := 92%N :: 117%N :: hex4 c.

(** The two surrogates of a character beyond the basic plane. *)
Definition high_half (c : N) : N :=
  N.lor 0xD800 (N.land (N.shiftr (c - 0x10000) 10) 0x3FF).
Definition low_half (c : N) : N :=
  N.lor 0xDC00 (N.land (c - 0x10000) 0x3FF).

(** The escapes both encoders share: quote, backslash and the named control
    characters. *)
Definition escape_short (c : N) : option pystr :=
  if (c =? 34)%N then Some [92%N; 34%N]
  else if (c =? 92)%N then Some [92%N; 92%N]
  else if (c =? 10)%N then Some [92%N; 110%N]
  else if (c =? 13)%N then Some [92%N; 114%N]
  else if (c =? 9)%N then Some [92%N; 116%N]
  else if (c =? 8)%N then Some [92%N; 98%N]
  else if (c =? 12)%N then Some [92%N; 102%N]
  else None.

(** One character of a string: with [ensure_ascii] everything outside the
    printable ASCII range is escaped, a character beyond the basic plane as
    a surrogate pair; without it only the control characters are. *)
Definition encode_char (ensure_ascii : bool) (c : N) : pystr :=
  match escape_short c with
  | Some e => e
  | None =>
      if ensure_ascii then
        if (32 <=? c)%N && (c <=? 126)%N then [c]
        else if (c <? 0x10000)%N then escape_u c
        else escape_u (high_half c) ++ escape_u (low_half c)
      else
        if (c <? 32)%N then escape_u c else [c]
  end.

Definition encode_string (ensure_ascii : bool) (s : pystr) : pystr :=
  34%N :: concat (map (encode_char ensure_ascii) s) ++ [34%N].

(** The encoder's text for a [float]. *)
Definition floatstr (x : float) : pystr :=
  if is_nan x then str "NaN"
  else if (x =? infinity)%float then str "Infinity"
  else if (x =? neg_infinity)%float then str "-Infinity"
  else float_repr x.

(** A line break followed by the indentation of [level], two spaces per
    level. *)
Definition newline_indent (level : nat) : pystr :=
  10%N :: replicate (2 * level) 32%N.

(** The text of a value at nesting depth [level], with [indent=2]: members
    one per line, separated by a comma, a colon and a space after a key,
    empty containers closed at once. *)
Fixpoint encode (ensure_ascii : bool) (level : nat) (j : json) : pystr :=
  match j with
  | JNull => str "null"
  | JBool true => str "true"
  | JBool false => str "false"
  | JInt z => int_repr z
  | JFloat x => floatstr x
  | JStr s => encode_string ensure_ascii s
  | JArr [] => str "[]"
  | JArr (x :: xs) =>
      91%N :: newline_indent (S level) ++ encode ensure_ascii (S level) x
      ++ concat (map (fun x => 44%N :: newline_indent (S level)
                                 ++ encode ensure_ascii (S level) x) xs)
      ++ newline_indent level ++ [93%N]
  | JObj [] => str "{}"
  | JObj ((k, v) :: kvs) =>
      123%N :: newline_indent (S level) ++ encode_string ensure_ascii k
      ++ str ": " ++ encode ensure_ascii (S level) v
      ++ concat (map (fun '(k, v) => 44%N :: newline_indent (S level)
                                       ++ encode_string ensure_ascii k
                                       ++ str ": " ++ encode ensure_ascii (S level) v) kvs)
      ++ newline_indent level ++ [125%N]
  end.

(** [json.dumps(obj, indent=2, ensure_ascii=...)] *)
Definition json_dumps (ensure_ascii : bool) (j : json) : pystr :=
  encode ensure_ascii 0 j.
(** * Texts and trees of the [json] module

    The notions the statements about [json.loads] and [json.dumps] are made
    of: what the text of a number consists of, which strings and trees the
    decoder builds, what a text is. *)

(** A numeral: digits, the first of them not a zero. *)
Definition numeral (ds : pystr) (z : Z) : Prop :=
  Forall (fun c => is_digit c = true) ds /\ digits_value 0 ds = z /\
  exists c ds', ds = c :: ds' /\ c <> 48%N.

(** The input does not go on with a digit. *)
Definition not_digit_head (s : pystr) : Prop :=
  match s with
  | [] => True
  | c :: _ => is_digit c = false
  end.

(** The decimal [c * 10 ^ p] is the binary [m * 2 ^ e]. *)
Definition same_value (c p : Z) (m : positive) (e : Z) : Prop :=
  c * 10 ^ Z.max 0 p * 2 ^ Z.max 0 (- e)
    = Zpos m * 2 ^ Z.max 0 e * 10 ^ Z.max 0 (- p).

(** What may follow a value in the encoder's text: the end, a line break or
    a comma. *)
Definition delimited (rest : pystr) : Prop :=
  match rest with
  | [] => True
  | c :: _ => c = 10%N \/ c = 44%N
  end.

(** Decimal digits only. *)
Definition digits (ds : pystr) : Prop := Forall (fun c => is_digit c = true) ds.

(** The integer part of a number's text. *)
Definition int_part (ds : pystr) : Prop :=
  ds = [48%N] \/ exists z, numeral ds z.

(** The text of an exponent and its value. *)
Inductive exp_part : pystr -> option Z -> Prop :=
  | exp_none : exp_part [] None
  | exp_plus ds : digits ds -> ds <> [] ->
      exp_part (101%N :: 43%N :: ds) (Some (digits_value 0 ds))
  | exp_minus ds : digits ds -> ds <> [] ->
      exp_part (101%N :: 45%N :: ds) (Some (- digits_value 0 ds)).

(** The text of a fraction: nothing, or a dot and the digits. *)
Definition frac_text (frac_ds : pystr) : pystr :=
  match frac_ds with
  | [] => []
  | _ => 46%N :: frac_ds
  end.

(** What the parts of a number's text amount to. *)
Definition number_value (neg : bool) (int_ds frac_ds : pystr) (expo : option Z) : json :=
  match frac_ds, expo with
  | [], None => let z := digits_value 0 int_ds in JInt (if neg then - z else z)
  | _, _ =>
      JFloat (float_of_digits neg (int_ds ++ frac_ds)
                (default 0 expo - Z.of_nat (length frac_ds)))
  end.

(** The digits [repr] prints: no zero at either end. *)
Definition significand (S : pystr) : Prop :=
  digits S /\ (exists c S', S = c :: S' /\ c <> 48%N) /\ last S <> Some 48%N.

(** Whether the string starts with a low surrogate. *)
Definition heads_low (s : pystr) : bool :=
  match s with
  | c :: _ => is_low_surrogate c
  | [] => false
  end.

(** A string the escaping encoder writes so that it reads back: characters
    of Unicode, and no high surrogate with a low surrogate after it. *)
Fixpoint good_string (s : pystr) : bool :=
  match s with
  | [] => true
  | c :: s' =>
      (c <? 0x110000)%N && negb (is_high_surrogate c && heads_low s')
      && good_string s'
  end.

(** The text after an escaped high surrogate does not continue it. *)
Definition next_ok (t : pystr) : Prop :=
  is_prefix [92%N; 117%N] t = false \/
  exists u r, decode_uXXXX (drop 2 t) = Some (u, r) /\ is_low_surrogate u = false.

(** A tree as the decoder builds it from a text of Unicode: every string
    can be written with escapes and read back, and no object has a key
    twice. *)
Inductive wf_json : json -> Prop :=
  | wf_null : wf_json JNull
  | wf_bool b : wf_json (JBool b)
  | wf_int z : wf_json (JInt z)
  | wf_float x : wf_json (JFloat x)
  | wf_str s : good_string s = true -> wf_json (JStr s)
  | wf_arr xs : Forall wf_json xs -> wf_json (JArr xs)
  | wf_obj kvs :
      NoDup (map fst kvs) ->
      Forall (fun kv => good_string kv.1 = true /\ wf_json kv.2) kvs ->
      wf_json (JObj kvs).

(** The input does not start with white space. *)
Definition no_ws_head (s : pystr) : Prop :=
  match s with
  | [] => True
  | c :: _ => is_ws c = false
  end.

(** How the text of a value starts. *)
Definition value_head (c : N) : Prop :=
  is_digit c = true \/ c ∈ [45; 78; 73; 110; 116; 102; 34; 91; 123]%N.

(** The members of an array after the first, as [encode] writes them. *)
Definition arr_items (b : bool) (level : nat) (xs : list json) : pystr :=
  concat (map (fun x => 44%N :: newline_indent (S level) ++ encode b (S level) x) xs).

(** The members of an object after the first, as [encode] writes them. *)
Definition obj_items (b : bool) (level : nat) (kvs : list (pystr * json)) : pystr :=
  concat (map (fun '(k, v) => 44%N :: newline_indent (S level) ++ encode_string b k
                                ++ str ": " ++ encode b (S level) v) kvs).

(** A character of a text: a Unicode code point that is not a surrogate. *)
Definition is_scalar (c : N) : bool :=
  (c <? 0xD800)%N || ((0xDFFF <? c)%N && (c <? 0x110000)%N).

(** A text: a sequence of such characters, as decoding UTF-8 gives it. *)
Definition unicode_text (s : pystr) : Prop := Forall (fun c => is_scalar c = true) s.

(** The escape of a low surrogate comes next. *)
Definition low_escape (s : pystr) : Prop :=
  is_prefix [92%N; 117%N] s = true /\
  exists u r, decode_uXXXX (drop 2 s) = Some (u, r) /\ is_low_surrogate u = true.

(** A scanner that builds such trees and leaves an end of its input. *)
Definition scans_wf (scan : pystr -> option (json * pystr)) : Prop :=
  forall s j rest, unicode_text s -> scan s = Some (j, rest) ->
                   wf_json j /\ rest `suffix_of` s.


(** * JSON trees in the heap *)

(** The objects [json.loads] builds for a tree: immediate values for the
    scalars, a new [list] or [dict] for each container, children first. *)
Fixpoint alloc_json (j : json) (h : heap) : value * heap :=
  match j with
  | JNull => (VNone, h)
  | JBool b => (VBool b, h)
  | JInt z => (VInt z, h)
  | JFloat f => (VFloat f, h)
  | JStr s => (VStr s, h)
  | JArr xs =>
      let '(vs, h') :=
        (fix members (xs : list json) (h : heap) : list value * heap :=
           match xs with
           | [] => ([], h)
           | x :: xs' =>
               let '(v, h1) := alloc_json x h in
               let '(vs, h2) := members xs' h1 in
               (v :: vs, h2)
           end) xs h in
      let '(l, h'') := alloc (OList vs) h' in
      (VRef l, h'')
  | JObj kvs =>
      let '(vs, h') :=
        (fix members (kvs : list (pystr * json)) (h : heap)
           : list (pystr * value) * heap :=
           match kvs with
           | [] => ([], h)
           | (k, x) :: kvs' =>
               let '(v, h1) := alloc_json x h in
               let '(vs, h2) := members kvs' h1 in
               ((k, v) :: vs, h2)
           end) kvs h in
      let '(l, h'') := alloc (ODict vs) h' in
      (VRef l, h'')
  end.

(** The tree a heap value stands for, as the encoder walks it.  [fuel]
    bounds the depth; with more fuel than the heap has objects, running out
    means that the value reaches itself. *)
Fixpoint reify (fuel : nat) (h : heap) (v : value) : option json :=
  match v with
  | VNone => Some JNull
  | VBool b => Some (JBool b)
  | VInt z => Some (JInt z)
  | VFloat f => Some (JFloat f)
  | VStr s => Some (JStr s)
  | VRef l =>
      match fuel with
      | O => None
      | S fuel' =>
          match h !! l with
          | Some (OList xs) => JArr <$> mapM (reify fuel' h) xs
          | Some (ODict kvs) =>
              JObj <$> mapM (fun kv => pair (fst kv) <$> reify fuel' h (snd kv)) kvs
          | None => None
          end
      end
  end.

(** [json.dumps(v, indent=2, ensure_ascii=...)] on a heap value; a circular
    structure raises [ValueError]. *)
Definition py_dumps (ensure_ascii : bool) (h : heap) (v : value) : result pystr :=
  match reify (S (length h)) h v with
  | Some j => Ok (json_dumps ensure_ascii j)
  | None => Raise ValueError
  end.

(** * The property form *)

(** ** Numbers *)

(** [int(x)] for a [float]: truncation toward zero; no integer for an
    infinity or a NaN. *)
Definition int_of_float (x : float) : result Z :=
  match Prim2SF x with
  | S754_zero _ => Ok 0
  | S754_finite s m e =>
      let a := if 0 <=? e then Zpos m * 2 ^ e else Zpos m / 2 ^ (- e) in
      Ok (if s then - a else a)
  | S754_infinity _ => Raise OverflowError
  | S754_nan => Raise ValueError
  end.

(** [int(v)] *)
Definition py_int (v : value) : result Z :=
  match v with
  | VInt z => Ok z
  | VBool b => Ok (Z.b2z b)
  | VFloat x => int_of_float x
  | _ => Raise TypeError
  end.

(** Conversion of a Python [int] argument to a C [int]. *)
Definition to_c_int (z : Z) : result Z :=
  if (- 2 ^ 31 <=? z) && (z <? 2 ^ 31) then Ok z else Raise OverflowError.

(** ** [QSpinBox]: an integer entry field with a range *)

Record QSpinBox := {
  minimum : Z;
  maximum : Z;
  spin_value : Z;
}.

(** A new spin box ranges over [0..99] and shows [0]. *)
Definition QSpinBox_new : QSpinBox :=
  {| minimum := 0; maximum := 99; spin_value := 0 |}.

(** The value within the range nearest to [v]. *)
Definition bound (lo hi v : Z) : Z := Z.max lo (Z.min hi v).

Definition setRange (lo hi : Z) (sb : QSpinBox) : QSpinBox :=
  let hi' := Z.max lo hi in
  {| minimum := lo; maximum := hi'; spin_value := bound lo hi' (spin_value sb) |}.

Definition setMaximum (m : Z) (sb : QSpinBox) : QSpinBox :=
  setRange (Z.min (minimum sb) m) m sb.

Definition setMinimum (m : Z) (sb : QSpinBox) : QSpinBox :=
  setRange m (Z.max (maximum sb) m) sb.

(** [setValue] clamps to the range. *)
Definition setValue (v : Z) (sb : QSpinBox) : QSpinBox :=
  {| minimum := minimum sb; maximum := maximum sb;
     spin_value := bound (minimum sb) (maximum sb) v |}.

(** ** Editors *)

(** The widget that edits one field. *)
Inductive editor :=
  | ListEditor (text : pystr)      (* QTextEdit showing the list as JSON *)
  | ComboBox (current : pystr)     (* QComboBox with the items true, false *)
  | SpinBox (sb : QSpinBox)
  | LineEdit (text : pystr).

(** Lines 201-204: the editor of a number.  Both arms of both conditional
    expressions are the same: a [QSpinBox] showing [int(value)], for an
    [int] and for a [float] alike. *)
Definition numeric_editor (v : value) : result editor :=
  let spin := QSpinBox_new in
  let spin := setMaximum 999999 spin in
  let spin := setMinimum (-999999) spin in
  n ← py_int v;
  n' ← to_c_int n;
  Ok (SpinBox (setValue n' spin)).

(** [f"{prefix}.{key}" if prefix else key] *)
Definition join_path (prefix key : pystr) : pystr :=
  if str_eqb prefix [] then key else prefix ++ 46%N :: key.

(** The editor [add_editors] makes for one scalar or list field. *)
Definition field_editor (h : heap) (v : value) : result editor :=
  match v with
  | VRef l =>
      match h !! l with
      | Some (OList _) => text ← py_dumps true h v; Ok (ListEditor text)
      | _ => Raise ValueError
      end
  | VBool b => Ok (ComboBox (if b then str "true" else str "false"))
  | VInt _ | VFloat _ => numeric_editor v
  | VStr s => Ok (LineEdit s)
  | VNone => Ok (LineEdit (str "None"))
  end.

(** [add_editors] (lines 169-213): the rows added to the form, each with the
    field path it edits, and the exception that stopped the work if there
    was one.  [fuel] counts the levels left: the call at depth [d] has
    [4 - d], and the call at depth 4 returns at once. *)
Fixpoint add_editors (fuel : nat) (h : heap) (data : value) (prefix : pystr)
  : list (pystr * editor) * option exn :=
  match fuel with
  | O => ([], None)
  | S fuel' =>
      match as_dict h data with
      | None => ([], Some AttributeError)
      | Some kvs =>
          (fix rows (kvs : list (pystr * value)) : list (pystr * editor) * option exn :=
             match kvs with
             | [] => ([], None)
             | (key, v) :: kvs' =>
                 let field_path := join_path prefix key in
                 let '(here, err) :=
                   match as_dict h v with
                   | Some _ => add_editors fuel' h v field_path
                   | None =>
                       match field_editor h v with
                       | Ok e => ([(field_path, e)], None)
                       | Raise e => ([], Some e)
                       end
                   end in
                 match err with
                 | Some e => (here, Some e)
                 | None => let '(rest, err') := rows kvs' in (here ++ rest, err')
                 end
             end) kvs
      end
  end.

(** [load_data] (lines 150-159): the rows for [data]; none when [data] is
    falsy. *)
Definition load_data_rows (h : heap) (data : value)
  : list (pystr * editor) * option exn :=
  if negb (truthy h data) then ([], None) else add_editors 4 h data [].

(** [update_list] (lines 231-237): the text of a list editor is parsed, and
    the parsed value stored; text that does not parse is ignored. *)
Definition update_list (h : heap) (current_data : value) (field_path : pystr)
    (text : pystr) : result (heap * bool) :=
  match json_loads text with
  | Some j =>
      let '(v, h') := alloc_json j h in
      update_field h' current_data field_path v
  | None => Ok (h, false)
  end.

(** What the user does to an editor, as the signal connected in
    [add_editors] reports it. *)
Inductive form_input :=
  | ListText (text : pystr)        (* textChanged of a list editor *)
  | ComboText (text : pystr)       (* currentTextChanged *)
  | SpinValue (z : Z)              (* valueChanged *)
  | LineText (text : pystr).       (* textChanged of a line edit *)

(** The slot connected to the editor of [field_path] (lines 188, 196, 205,
    211). *)
Definition form_edit (h : heap) (current_data : value) (field_path : pystr)
    (input : form_input) : result (heap * bool) :=
  match input with
  | ListText text => update_list h current_data field_path text
  | ComboText text => update_field h current_data field_path (VBool (str_eqb text (str "true")))
  | SpinValue z => update_field h current_data field_path (VInt z)
  | LineText text => update_field h current_data field_path (VStr text)
  end.

(** * The main window *)

(** ** The tree view

    The items of the [QTreeWidget], in the order of their creation; an item
    knows its parent by index.  Of an item's text only the key (or index)
    it was made for is kept. *)
Inductive item_kind :=
  | RootItem       (* the document *)
  | ObjectItem     (* a key whose value is an object *)
  | ArrayItem      (* a key whose value is a list of objects *)
  | ElementItem    (* a member of such a list *)
  | LeafItem.      (* any other key *)

Record tree_item := {
  item_parent : option nat;
  item_kind_of : item_kind;
  item_key : pystr;
  item_data : value;     (* [item.data(0, Qt.UserRole)]; [None] if never set *)
}.

(** ** Files *)

(** A message box shown by an exception handler. *)
Inductive message :=
  | FailedToLoad (e : exn)
  | FailedToSave (e : exn).

(** What can be written as UTF-8: no surrogate code points. *)
Definition utf8_encodable (s : pystr) : bool :=
  forallb (fun c => negb ((0xD800 <=? c)%N && (c <=? 0xDFFF)%N)) s.

(** ** State *)

Record app := {
  py_heap : heap;
  disk : list (pystr * pystr);        (* readable files and their text *)
  read_only : list pystr;             (* paths that cannot be opened for writing *)
  current_file : option pystr;
  json_data : value;
  modified : bool;
  raw_text : pystr;                   (* the text in the raw editor *)
  raw_tab_active : bool;              (* [tabs.currentWidget() == raw_editor] *)
  current_data : value;               (* [property_editor.current_data] *)
  form : list (pystr * editor);
  tree : list tree_item;
  widgets_list : list pystr;
  canvas_items : list DraggableWidget;
  messages : list message;
}.

Definition set_py_heap (x : heap) (a : app) : app :=
  {| py_heap := x; disk := disk a; read_only := read_only a;
     current_file := current_file a; json_data := json_data a;
     modified := modified a; raw_text := raw_text a;
     raw_tab_active := raw_tab_active a; current_data := current_data a;
     form := form a; tree := tree a; widgets_list := widgets_list a;
     canvas_items := canvas_items a; messages := messages a |}.

Definition set_disk (x : list (pystr * pystr)) (a : app) : app :=
  {| py_heap := py_heap a; disk := x; read_only := read_only a;
     current_file := current_file a; json_data := json_data a;
     modified := modified a; raw_text := raw_text a;
     raw_tab_active := raw_tab_active a; current_data := current_data a;
     form := form a; tree := tree a; widgets_list := widgets_list a;
     canvas_items := canvas_items a; messages := messages a |}.

Definition set_current_file (x : option pystr) (a : app) : app :=
  {| py_heap := py_heap a; disk := disk a; read_only := read_only a;
     current_file := x; json_data := json_data a;
     modified := modified a; raw_text := raw_text a;
     raw_tab_active := raw_tab_active a; current_data := current_data a;
     form := form a; tree := tree a; widgets_list := widgets_list a;
     canvas_items := canvas_items a; messages := messages a |}.

Definition set_json_data (x : value) (a : app) : app :=
  {| py_heap := py_heap a; disk := disk a; read_only := read_only a;
     current_file := current_file a; json_data := x;
     modified := modified a; raw_text := raw_text a;
     raw_tab_active := raw_tab_active a; current_data := current_data a;
     form := form a; tree := tree a; widgets_list := widgets_list a;
     canvas_items := canvas_items a; messages := messages a |}.

Definition set_modified (x : bool) (a : app) : app :=
  {| py_heap := py_heap a; disk := disk a; read_only := read_only a;
     current_file := current_file a; json_data := json_data a;
     modified := x; raw_text := raw_text a;
     raw_tab_active := raw_tab_active a; current_data := current_data a;
     form := form a; tree := tree a; widgets_list := widgets_list a;
     canvas_items := canvas_items a; messages := messages a |}.

Definition set_raw_text (x : pystr) (a : app) : app :=
  {| py_heap := py_heap a; disk := disk a; read_only := read_only a;
     current_file := current_file a; json_data := json_data a;
     modified := modified a; raw_text := x;
     raw_tab_active := raw_tab_active a; current_data := current_data a;
     form := form a; tree := tree a; widgets_list := widgets_list a;
     canvas_items := canvas_items a; messages := messages a |}.

Definition set_raw_tab_active (x : bool) (a : app) : app :=
  {| py_heap := py_heap a; disk := disk a; read_only := read_only a;
     current_file := current_file a; json_data := json_data a;
     modified := modified a; raw_text := raw_text a;
     raw_tab_active := x; current_data := current_data a;
     form := form a; tree := tree a; widgets_list := widgets_list a;
     canvas_items := canvas_items a; messages := messages a |}.

Definition set_current_data (x : value) (a : app) : app :=
  {| py_heap := py_heap a; disk := disk a; read_only := read_only a;
     current_file := current_file a; json_data := json_data a;
     modified := modified a; raw_text := raw_text a;
     raw_tab_active := raw_tab_active a; current_data := x;
     form := form a; tree := tree a; widgets_list := widgets_list a;
     canvas_items := canvas_items a; messages := messages a |}.

Definition set_form (x : list (pystr * editor)) (a : app) : app :=
  {| py_heap := py_heap a; disk := disk a; read_only := read_only a;
     current_file := current_file a; json_data := json_data a;
     modified := modified a; raw_text := raw_text a;
     raw_tab_active := raw_tab_active a; current_data := current_data a;
     form := x; tree := tree a; widgets_list := widgets_list a;
     canvas_items := canvas_items a; messages := messages a |}.

Definition set_tree (x : list tree_item) (a : app) : app :=
  {| py_heap := py_heap a; disk := disk a; read_only := read_only a;
     current_file := current_file a; json_data := json_data a;
     modified := modified a; raw_text := raw_text a;
     raw_tab_active := raw_tab_active a; current_data := current_data a;
     form := form a; tree := x; widgets_list := widgets_list a;
     canvas_items := canvas_items a; messages := messages a |}.

Definition set_widgets_list (x : list pystr) (a : app) : app :=
  {| py_heap := py_heap a; disk := disk a; read_only := read_only a;
     current_file := current_file a; json_data := json_data a;
     modified := modified a; raw_text := raw_text a;
     raw_tab_active := raw_tab_active a; current_data := current_data a;
     form := form a; tree := tree a; widgets_list := x;
     canvas_items := canvas_items a; messages := messages a |}.

Definition set_canvas_items (x : list DraggableWidget) (a : app) : app :=
  {| py_heap := py_heap a; disk := disk a; read_only := read_only a;
     current_file := current_file a; json_data := json_data a;
     modified := modified a; raw_text := raw_text a;
     raw_tab_active := raw_tab_active a; current_data := current_data a;
     form := form a; tree := tree a; widgets_list := widgets_list a;
     canvas_items := x; messages := messages a |}.

Definition set_messages (x : list message) (a : app) : app :=
  {| py_heap := py_heap a; disk := disk a; read_only := read_only a;
     current_file := current_file a; json_data := json_data a;
     modified := modified a; raw_text := raw_text a;
     raw_tab_active := raw_tab_active a; current_data := current_data a;
     form := form a; tree := tree a; widgets_list := widgets_list a;
     canvas_items := canvas_items a; messages := x |}.

(** ** Commands: state and exceptions

    A command runs on the state of the application and either returns or
    raises; what it did to the state before raising stays done. *)
Definition M (A : Type) : Type := app -> result A * app.

#[global] Instance M_ret : MRet M := fun A x a => (Ok x, a).
#[global] Instance M_bind : MBind M := fun A B f m a =>
  match m a with
  | (Ok x, a') => f x a'
  | (Raise e, a') => (Raise e, a')
  end.

Definition get : M app := fun a => (Ok a, a).
Definition modify (f : app -> app) : M unit := fun a => (Ok (), f a).
Definition raise {A} (e : exn) : M A := fun a => (Raise e, a).

(** A pure computation that may raise. *)
Definition lift {A} (r : result A) : M A := fun a => (r, a).

Definition lift_option {A} (e : exn) (o : option A) : M A :=
  match o with
  | Some x => mret x
  | None => raise e
  end.

(** [try: m except Exception as e: handler(e)] *)
Definition try_except (m : M unit) (handler : exn -> M unit) : M unit := fun a =>
  match m a with
  | (Ok x, a') => (Ok x, a')
  | (Raise e, a') => handler e a'
  end.

(** [for x in xs: body(x)] *)
Fixpoint for_each {A} (xs : list A) (body : A -> M unit) : M unit :=
  match xs with
  | [] => mret ()
  | x :: xs' => _ ← body x; for_each xs' body
  end.

(** [QMessageBox.critical] *)
Definition show_message (m : message) : M unit :=
  modify (fun a => set_messages (messages a ++ [m]) a).

(** A new object in the heap of the application. *)
Definition alloc_m (o : pyobj) : M value := fun a =>
  let '(l, h') := alloc o (py_heap a) in (Ok (VRef l), set_py_heap h' a).

(** ** [populate_tree] and [add_tree_items] (lines 435-466) *)

(** [QTreeWidgetItem(parent)] with its key and data; the result is the
    index of the new item. *)
Definition new_item (parent : option nat) (kind : item_kind) (key : pystr)
    (data : value) : M nat := fun a =>
  (Ok (length (tree a)),
   set_tree (tree a ++ [{| item_parent := parent; item_kind_of := kind;
                            item_key := key; item_data := data |}]) a).

(** [item.setData(0, Qt.UserRole, data)] *)
Definition set_item_data (i : nat) (data : value) : M unit :=
  modify (fun a =>
    set_tree (alter (fun it => {| item_parent := item_parent it;
                                  item_kind_of := item_kind_of it;
                                  item_key := item_key it;
                                  item_data := data |}) i (tree a)) a).

(** The condition of line 456: a nonempty list whose first member is a
    [dict]; the result is the members. *)
Definition list_of_objects (h : heap) (v : value) : option (list value) :=
  match v with
  | VRef l =>
      match h !! l with
      | Some (OList (first :: rest)) =>
          match as_dict h first with
          | Some _ => Some (first :: rest)
          | None => None
          end
      | _ => None
      end
  | _ => None
  end.

(** One member of a list of objects (lines 459-462): the item is created,
    its text needs [elem.get], then the member becomes its data. *)
Definition add_element_item (parent : nat) (ie : nat * value) : M unit :=
  let '(i, elem) := ie in
  sub_item ← new_item (Some parent) ElementItem (int_repr (Z.of_nat i)) VNone;
  a ← get;
  _ ← lift (py_get (py_heap a) elem (str "id"));
  set_item_data sub_item elem.

(** [add_tree_items] (lines 448-466).  An object becomes an item that
    refers to it, with its own keys below; a list of objects an item with
    one item per member, each referring to the member; any other value an
    item whose data is a new single-key [dict] holding the key and the
    value.  [fuel] bounds the depth of the recursion. *)
Fixpoint add_tree_items (fuel : nat) (parent : nat) (data : value) : M unit :=
  match fuel with
  | O => raise RecursionError
  | S fuel' =>
      a ← get;
      kvs ← lift_option AttributeError (as_dict (py_heap a) data);
      for_each kvs (fun kv =>
        let '(key, v) := kv in
        a ← get;
        match as_dict (py_heap a) v with
        | Some _ =>
            item ← new_item (Some parent) ObjectItem key v;
            add_tree_items fuel' item v
        | None =>
            match list_of_objects (py_heap a) v with
            | Some elems =>
                item ← new_item (Some parent) ArrayItem key VNone;
                for_each (imap pair elems) (add_element_item item)
            | None =>
                wrapper ← alloc_m (ODict [(key, v)]);
                _ ← new_item (Some parent) LeafItem key wrapper;
                mret ()
            end
        end)
  end.

(** [populate_tree] (lines 435-446): the text of the root is the document's
    [id], which has to be a [str]. *)
Definition populate_tree : M unit :=
  _ ← modify (set_tree []);
  a ← get;
  if negb (truthy (py_heap a) (json_data a)) then mret ()
  else
    root ← new_item None RootItem [] VNone;
    id ← lift (py_get (py_heap a) (json_data a) (str "id"));
    _ ← match id with
        | None | Some (VStr _) => mret ()
        | Some _ => raise TypeError
        end;
    add_tree_items (S (length (py_heap a))) root (json_data a).

(** ** [populate_widgets_list] (lines 468-478) *)

Definition populate_widgets_list : M unit :=
  _ ← modify (set_widgets_list []);
  a ← get;
  if negb (truthy (py_heap a) (json_data a)) then mret ()
  else
    module_elements ← lift (get_elements (py_heap a) (json_data a) (str "moduleElements"));
    for_each module_elements (fun elem =>
      a ← get;
      id ← lift (py_get (py_heap a) elem (str "id"));
      match id with
      | None => modify (fun a => set_widgets_list (widgets_list a ++ [str "Unknown"]) a)
      | Some (VStr s) => modify (fun a => set_widgets_list (widgets_list a ++ [s]) a)
      | Some _ => raise TypeError
      end).

(** ** [load_canvas] (lines 480-495) on the state of the application *)

Definition load_canvas_m : M unit :=
  a ← get;
  let '(h', items, err) := load_canvas (py_heap a) (json_data a) in
  _ ← modify (fun a => set_canvas_items items (set_py_heap h' a));
  match err with
  | Some e => raise e
  | None => mret ()
  end.

(** ** [update_raw_editor] (lines 497-502); signals are blocked, so the
    document does not count as modified. *)
Definition update_raw_editor : M unit :=
  a ← get;
  if truthy (py_heap a) (json_data a) then
    text ← lift (py_dumps true (py_heap a) (json_data a));
    modify (set_raw_text text)
  else mret ().

(** The objects of a tree, made in the heap of the application. *)
Definition alloc_json_m (j : json) : M value := fun a =>
  let '(v, h') := alloc_json j (py_heap a) in (Ok v, set_py_heap h' a).

(** [json.loads(text)] *)
Definition loads_m (text : pystr) : M value :=
  j ← lift_option JSONDecodeError (json_loads text);
  alloc_json_m j.

(** ** [load_file] (lines 415-433) *)

Definition load_file (file_path : pystr) : M unit :=
  try_except
    (a ← get;
     text ← lift_option OSError (dict_get (disk a) file_path);
     v ← loads_m text;
     _ ← modify (set_json_data v);
     _ ← modify (set_current_file (Some file_path));
     _ ← modify (set_modified false);
     _ ← populate_tree;
     _ ← populate_widgets_list;
     _ ← load_canvas_m;
     update_raw_editor)
    (fun e => show_message (FailedToLoad e)).

(** [open_file] (lines 403-413): [file_path] is the answer of the file
    dialog, empty when the user cancels. *)
Definition open_file (file_path : pystr) : M unit :=
  if str_eqb file_path [] then mret () else load_file file_path.

(** ** [save_file] and [save_file_as] (lines 534-570) *)

(** The [try] block of [save_file] with its handler.  Opening the file for
    writing empties it; a text that cannot be written leaves it
    incomplete, for which the model keeps the empty text. *)
Definition save_to (path : pystr) : M unit :=
  try_except
    (a ← get;
     _ ← (if raw_tab_active a then
            v ← loads_m (raw_text a); modify (set_json_data v)
          else mret ());
     a ← get;
     _ ← (if bool_decide (path ∈ read_only a) then raise OSError else mret ());
     _ ← modify (fun a => set_disk (dict_set (disk a) path []) a);
     text ← lift (py_dumps false (py_heap a) (json_data a));
     _ ← (if utf8_encodable text then mret () else raise ValueError);
     _ ← modify (fun a => set_disk (dict_set (disk a) path text) a);
     _ ← modify (set_modified false);
     _ ← populate_tree;
     load_canvas_m)
    (fun e => show_message (FailedToSave e)).

(** [save_file_as]: [choice] is the answer of the file dialog. *)
Definition save_file_as (choice : pystr) : M unit :=
  if str_eqb choice [] then mret ()
  else
    _ ← modify (set_current_file (Some choice));
    save_to choice.

(** [save_file]: without a current file it is [save_file_as]. *)
Definition save_file (choice : pystr) : M unit :=
  a ← get;
  match current_file a with
  | Some path => if str_eqb path [] then save_file_as choice else save_to path
  | None => save_file_as choice
  end.

(** ** Selection (lines 504-526) *)

(** [PropertyEditor.load_data] (lines 150-159) *)
Definition load_data (data : value) : M unit :=
  _ ← modify (set_current_data data);
  _ ← modify (set_form []);
  a ← get;
  let '(rows, err) := load_data_rows (py_heap a) data in
  _ ← modify (set_form rows);
  match err with
  | Some e => raise e
  | None => mret ()
  end.

(** [tree_item_clicked]: the item's data, if truthy, is shown in the form. *)
Definition tree_item_clicked (i : nat) : M unit :=
  a ← get;
  match tree a !! i with
  | Some it =>
      if truthy (py_heap a) (item_data it) then load_data (item_data it) else mret ()
  | None => mret ()
  end.

(** [widget_selected]: the element bound to a shape of the canvas. *)
Definition widget_selected (i : nat) : M unit :=
  a ← get;
  match canvas_items a !! i with
  | Some w => load_data (widget_data w)
  | None => mret ()
  end.

(** The first element whose [id] is [widget_id]. *)
Fixpoint find_by_id (h : heap) (widget_id : pystr) (elems : list value)
  : result (option value) :=
  match elems with
  | [] => Ok None
  | elem :: elems' =>
      id ← py_get h elem (str "id");
      match id with
      | Some (VStr s) =>
          if str_eqb s widget_id then Ok (Some elem) else find_by_id h widget_id elems'
      | _ => find_by_id h widget_id elems'
      end
  end.

(** [widget_list_item_clicked] (lines 510-521) *)
Definition widget_list_item_clicked (i : nat) : M unit :=
  a ← get;
  if negb (truthy (py_heap a) (json_data a)) then mret ()
  else
    match widgets_list a !! i with
    | None => mret ()
    | Some widget_id =>
        module_elements ← lift (get_elements (py_heap a) (json_data a) (str "moduleElements"));
        found ← lift (find_by_id (py_heap a) widget_id module_elements);
        match found with
        | Some elem => load_data elem
        | None => mret ()
        end
    end.

(** ** Edits *)

(** [mark_modified] (lines 528-532) *)
Definition mark_modified : M unit := modify (set_modified true).

(** An edit in the property form, of the editor for [field_path]. *)
Definition property_edited (field_path : pystr) (input : form_input) : M unit :=
  a ← get;
  '(h', emitted) ← lift (form_edit (py_heap a) (current_data a) field_path input);
  _ ← modify (set_py_heap h');
  if emitted : bool then mark_modified else mret ().

(** Typing in the raw editor. *)
Definition raw_edited (text : pystr) : M unit :=
  _ ← modify (set_raw_text text);
  mark_modified.

(** The user brings a tab to the front. *)
Definition tab_selected (raw : bool) : M unit := modify (set_raw_tab_active raw).

(** The state of the application when it starts. *)
Definition initial_app (files : list (pystr * pystr)) (ro : list pystr) : app :=
  {| py_heap := []; disk := files; read_only := ro; current_file := None;
     json_data := VNone; modified := false; raw_text := [];
     raw_tab_active := false; current_data := VNone; form := []; tree := [];
     widgets_list := []; canvas_items := []; messages := [] |}.

(** ** What the tree view and the form promise about leaves *)

(** An item made for a leaf refers to an object with the one key of the
    item, allocated at or after [base], and holding the value some older
    object has under that key. *)
Definition leaf_wrapped (base : nat) (h : heap) (it : tree_item) : Prop :=
  item_kind_of it = LeafItem ->
  exists l v, item_data it = VRef l /\ (base <= l)%nat /\
              h !! l = Some (ODict [(item_key it, v)]) /\
              exists d kvs, (d < l)%nat /\ h !! d = Some (ODict kvs) /\
                            (item_key it, v) ∈ kvs.

(** While the tree is built over the heap [h0], the heap only grows and
    every leaf item refers to a wrapper of its own. *)
Definition tree_inv (h0 : heap) (s : app) : Prop :=
  (exists ext, py_heap s = h0 ++ ext) /\
  Forall (leaf_wrapped (length h0) (py_heap s)) (tree s).

(** A command keeps [P] whether it returns or raises. *)
Definition preserves {A} (P : app -> Prop) (m : M A) : Prop :=
  forall s, P s -> P (m s).2.

(** The form shows the wrapper at [l] with key [k], and the objects of the
    heap [h0] are as they were. *)
Definition leaf_selected (h0 : heap) (l : loc) (k : pystr) (s : app) : Prop :=
  current_data s = VRef l /\
  (exists v, py_heap s !! l = Some (ODict [(k, v)])) /\
  (forall l' o, h0 !! l' = Some o -> py_heap s !! l' = Some o).

(** * Closing the window *)

(** The answer to the question [closeEvent] asks; closing the question
    without an answer counts as [Cancel]. *)
Inductive close_reply :=
  | Save
  | Discard
  | Cancel.

(** [closeEvent] (lines 572-588).  The result tells whether the event is
    accepted, that is whether the window closes; an event the handler does
    not touch stays accepted.  [choice] is the answer of the file dialog
    [save_file] opens when there is no current file. *)
Definition closeEvent (reply : close_reply) (choice : pystr) : M bool :=
  a ← get;
  if modified a then
    match reply with
    | Save => _ ← save_file choice; mret true
    | Discard => mret true
    | Cancel => mret false
    end
  else mret true.

(** * Shapes of documents *)

(** [bool(v)] for the value [json.loads] builds for a tree. *)
Definition json_truthy (j : json) : bool :=
  match j with
  | JNull => false
  | JBool b => b
  | JInt z => negb (z =? 0)
  | JFloat f => negb (f =? 0)%float
  | JStr s => negb (str_eqb s [])
  | JArr xs => negb (bool_decide (xs = []))
  | JObj kvs => negb (bool_decide (kvs = []))
  end.

Definition is_object (j : json) : bool :=
  match j with
  | JObj _ => true
  | _ => false
  end.

(** The item [populate_tree] makes for the document. *)
Definition root_item : tree_item :=
  {| item_parent := None; item_kind_of := RootItem; item_key := []; item_data := VNone |}.

(** * The list of widgets *)

(** The text [populate_widgets_list] shows for an element:
    [elem.get('id', 'Unknown')]. *)
Definition list_label (h : heap) (elem : value) : pystr :=
  match py_get h elem (str "id") with
  | Ok (Some (VStr s)) => s
  | _ => str "Unknown"
  end.

(** The element is an object whose [id], if it has one, is a [str]. *)
Definition listable (h : heap) (elem : value) : Prop :=
  exists kvs, as_dict h elem = Some kvs /\
              match dict_get kvs (str "id") with
              | None | Some (VStr _) => True
              | Some _ => False
              end.

(** The element is an object whose [id] is not the string [widget_id]. *)
Definition other_id (h : heap) (widget_id : pystr) (elem : value) : Prop :=
  exists o, py_get h elem (str "id") = Ok o /\ o <> Some (VStr widget_id).

(** * Field paths *)

(** No dot in the key. *)
Definition no_dot (k : pystr) : bool := forallb (fun c => negb (c =? 46)%N) k.

(** A key that can stand for itself in a field path: it is not empty and
    holds no dot. *)
Definition plain_key (k : pystr) : bool := negb (str_eqb k []) && no_dot k.

(** No key occurs twice, as in any [dict]. *)
Fixpoint distinct_keys {V} (kvs : list (pystr * V)) : bool :=
  match kvs with
  | [] => true
  | (k, _) :: rest =>
      match dict_get rest k with
      | None => distinct_keys rest
      | Some _ => false
      end
  end.

(** Every dictionary of the heap has plain keys. *)
Definition plain_heap (h : heap) : bool :=
  forallb (fun o =>
             match o with
             | ODict kvs => forallb (fun kv => plain_key kv.1) kvs && distinct_keys kvs
             | OList _ => true
             end) h.

(** ['.'.join(keys)] *)
Fixpoint dots (keys : list pystr) : pystr :=
  match keys with
  | [] => []
  | [k] => k
  | k :: keys' => k ++ 46%N :: dots keys'
  end.

(** What a row of the form stands for: a chain of at most [depth] plain keys
    below the keys [ks] of the call, leading from [data] to the value the
    editor was made for. *)
Definition row_ok (h : heap) (data : value) (ks : list pystr) (depth : nat)
    (row : pystr * editor) : Prop :=
  exists ks' v,
    ks' <> [] /\ (length ks' <= depth)%nat /\
    Forall (fun k => plain_key k = true) ks' /\
    row.1 = dots (ks ++ ks') /\
    navigate h data ks' = Ok v /\ field_editor h v = Ok row.2.

(** * Texts *)

(** ASCII characters only. *)
Definition ascii_text (s : pystr) : Prop := Forall (fun c => (c < 128)%N) s.

(** * The tree view and the document *)

(** The root item and the item of a list of objects carry no data. *)
Definition without_data (it : tree_item) : Prop :=
  item_kind_of it = RootItem \/ item_kind_of it = ArrayItem -> item_data it = VNone.


(** * Documents the views can show *)

(** What [add_tree_items] needs of an object: below every key, a list that
    starts with an object holds objects only, and an object is again such
    an object. *)
Fixpoint shows_in_tree (j : json) : bool :=
  match j with
  | JObj kvs =>
      (fix members (kvs : list (pystr * json)) : bool :=
         match kvs with
         | [] => true
         | (_, x) :: kvs' => shows_in_tree x && members kvs'
         end) kvs
  | JArr (JObj _ :: rest) => forallb is_object rest
  | _ => true
  end.

(** A command returns, and keeps [P]. *)
Definition returns (P : app -> Prop) (m : M unit) : Prop :=
  forall s, P s -> (m s).1 = Ok () /\ P (m s).2.

(** The heap of the application has grown from [h0]. *)
Definition grown_from (h0 : heap) (s : app) : Prop :=
  exists ext, py_heap s = h0 ++ ext.

(** The document has neither [moduleElements] nor [enhancedData]. *)
Definition no_elements (j : json) : Prop :=
  match j with
  | JObj kvs =>
      dict_get kvs (str "moduleElements") = None /\
      dict_get kvs (str "enhancedData") = None
  | _ => True
  end.
(** ** Example data *)

(** An example document used to exercise the statements below:
    [{"a": {"b": {}}}]. *)
Definition nested_doc : heap :=
  [ODict [(str "a", VRef 1%nat)]; ODict [(str "b", VRef 2%nat)]; ODict []].

(** An element that has only an [id]. *)
Definition bare_element : heap := [ODict [(str "id", VStr (str "btn1"))]].


(** The document [{"moduleElements": [{"id": "a"}, {"id": "b", "props": {}}]}]:
    two elements without a position. *)
Definition two_elements : heap :=
  [ ODict [(str "moduleElements", VRef 1%nat)];
    OList [VRef 2%nat; VRef 3%nat];
    ODict [(str "id", VStr (str "a"))];
    ODict [(str "id", VStr (str "b")); (str "props", VRef 4%nat)];
    ODict [] ].

(** The code point of the double quote, for writing JSON texts. *)
Definition dq : pystr := [34%N].

(** The text [{"n": 1.5}]. *)
Definition float_doc_text : pystr :=
  str "{" ++ dq ++ str "n" ++ dq ++ str ": 1.5}".

(** The application with one file, [doc.json], holding that text. *)
Definition float_doc_app : app :=
  initial_app [(str "doc.json", float_doc_text)] [].

(** The same after loading the file. *)
Definition float_doc_loaded : app := (load_file (str "doc.json") float_doc_app).2.

(** The same after the user typed the incomplete text [{] into the raw
    editor, with the property tab in front. *)
Definition float_doc_raw_broken : app :=
  (tab_selected false (raw_edited (str "{") float_doc_loaded).2).2.

(** The same broken raw text with the raw tab in front. *)
Definition float_doc_raw_broken_active : app :=
  (tab_selected true (raw_edited (str "{") float_doc_loaded).2).2.

(** What [json.dumps] with [indent=2] writes for [{"n": 1.5}]. *)
Definition float_doc_pretty : pystr :=
  str "{" ++ [10%N] ++ str "  " ++ dq ++ str "n" ++ dq ++ str ": 1.5" ++ [10%N] ++ str "}".

(** The leaf item the tree view shows for the key [n] of that document. *)
Definition leaf_n : tree_item :=
  {| item_parent := Some 0%nat; item_kind_of := LeafItem;
     item_key := str "n"; item_data := VRef 2%nat |}.

(** A string between quotes. *)
Definition quoted (s : pystr) : pystr := dq ++ s ++ dq.

(** A text with every kind of value and a key given twice.  The string of
    [name] has a letter outside ASCII (code point 233), a character beyond
    the basic plane (code point 128512) and the escape of a line feed:
    [{"id": "a", "name": "..\n", "items": [{"x": 1.5, "on": true,
      "tags": [], "n": null, "k": -12}], "e": 1e-7, "id": "z"}]. *)
Definition mixed_doc_text : pystr :=
  str "{" ++ quoted (str "id") ++ str ": " ++ quoted (str "a") ++ str ", "
  ++ quoted (str "name") ++ str ": " ++ quoted ([233%N; 128512%N] ++ str "\n")
  ++ str ", " ++ quoted (str "items") ++ str ": [{"
  ++ quoted (str "x") ++ str ": 1.5, " ++ quoted (str "on") ++ str ": true, "
  ++ quoted (str "tags") ++ str ": [], " ++ quoted (str "n") ++ str ": null, "
  ++ quoted (str "k") ++ str ": -12}], "
  ++ quoted (str "e") ++ str ": 1e-7, "
  ++ quoted (str "id") ++ str ": " ++ quoted (str "z") ++ str "}".

(** The tree [json.loads] builds from it: the second [id] took the place of
    the first, and [1e-7] is the nearest [float]. *)
Definition mixed_doc : json :=
  JObj [(str "id", JStr (str "z"));
        (str "name", JStr [233%N; 128512%N; 10%N]);
        (str "items",
         JArr [JObj [(str "x", JFloat 1.5); (str "on", JBool true);
                     (str "tags", JArr []); (str "n", JNull);
                     (str "k", JInt (-12))]]);
        (str "e", JFloat 0x1.ad7f29abcaf48p-24)].

(** A string literal that is no text of Unicode: the code point of a high
    surrogate as it is, then the escape of a low surrogate. *)
Definition split_pair_text : pystr :=
  quoted (55357%N :: str "\ude00").

(** The document
    [{"moduleElements": [{"id": "a", "props": {"position": {"x": 10, "y": 20, "width": 80}}}]}]:
    one element with a position given in integers. *)
Definition placed_element : heap :=
  [ ODict [(str "moduleElements", VRef 1%nat)];
    OList [VRef 2%nat];
    ODict [(str "id", VStr (str "a")); (str "props", VRef 3%nat)];
    ODict [(str "position", VRef 4%nat)];
    ODict [(str "x", VInt 10); (str "y", VInt 20); (str "width", VInt 80)] ].

(** The document [{"moduleElements": [{"id": "a"}, 5, {"id": "b"}]}]: the
    second member of the list is no object. *)
Definition broken_list : heap :=
  [ ODict [(str "moduleElements", VRef 1%nat)];
    OList [VRef 2%nat; VInt 5; VRef 3%nat];
    ODict [(str "id", VStr (str "a"))];
    ODict [(str "id", VStr (str "b"))] ].

(** The document [{"moduleElements": [{"id": "a"}], "enhancedData": [{"id": "b"}]}]. *)
Definition both_lists : heap :=
  [ ODict [(str "moduleElements", VRef 1%nat); (str "enhancedData", VRef 2%nat)];
    OList [VRef 3%nat];
    OList [VRef 4%nat];
    ODict [(str "id", VStr (str "a"))];
    ODict [(str "id", VStr (str "b"))] ].

(** The object [{"a.b": 1, "a": {"b": 2}}]: one key holds a dot. *)
Definition dotted_doc : heap :=
  [ ODict [(str "a.b", VInt 1); (str "a", VRef 1%nat)];
    ODict [(str "b", VInt 2)] ].

(** The document
    [{"moduleElements": [{"id": "a"}, {"type": "box"}, {"id": "a", "type": "dup"}]}]:
    an element without an [id], and an [id] used twice. *)
Definition three_widgets : heap :=
  [ ODict [(str "moduleElements", VRef 1%nat)];
    OList [VRef 2%nat; VRef 3%nat; VRef 4%nat];
    ODict [(str "id", VStr (str "a"))];
    ODict [(str "type", VStr (str "box"))];
    ODict [(str "id", VStr (str "a")); (str "type", VStr (str "dup"))] ].

(** The application holding that document, before and after the list of
    widgets is filled. *)
Definition three_widgets_app : app :=
  set_json_data (VRef 0%nat) (set_py_heap three_widgets (initial_app [] [])).

Definition three_widgets_listed : app := (populate_widgets_list three_widgets_app).2.

(** The application with three files: [doc.json] as before, [empty.json]
    holding [{}] and [list.json] holding [[1]]; [doc.json] is loaded. *)
Definition three_files_loaded : app :=
  (load_file (str "doc.json")
     (initial_app [(str "doc.json", float_doc_text);
                   (str "empty.json", str "{}");
                   (str "list.json", str "[1]")] [])).2.

(** [doc.json] loaded, with the raw tab in front. *)
Definition float_doc_raw_active : app := (tab_selected true float_doc_loaded).2.

(** The tree [json.loads] builds for [{"n": 1.5}]. *)
Definition float_doc_tree : json := JObj [(str "n", JFloat 1.5)].

(** The tree the document [three_widgets] stands for. *)
Definition three_widgets_tree : json :=
  JObj [(str "moduleElements",
         JArr [JObj [(str "id", JStr (str "a"))];
               JObj [(str "type", JStr (str "box"))];
               JObj [(str "id", JStr (str "a")); (str "type", JStr (str "dup"))]])].
(** * Properties *)

(** Symbolic evaluation of heap reads after allocations and updates. *)
Ltac heap_len :=
  repeat first [rewrite length_insert | rewrite length_app]; simpl; lia.

Ltac heap_look :=
  repeat first
    [ rewrite list_lookup_insert_eq by heap_len
    | rewrite list_lookup_insert_ne by heap_len
    | rewrite list_lookup_middle by heap_len
    | rewrite lookup_app_l by heap_len ].


Lemma bind_Ok {A B} (a : A) (f : A -> result B) : (Ok a ≫= f) = f a.
Proof. reflexivity. Qed.

Lemma bind_Raise {A B} (e : exn) (f : A -> result B) : (Raise e ≫= f) = Raise e.
Proof. reflexivity. Qed.

(** ** Dictionaries *)

Lemma str_eqb_eq s1 s2 : str_eqb s1 s2 = true <-> s1 = s2.
Proof.
  revert s2. induction s1 as [|c1 s1 IH]; intros [|c2 s2]; simpl; try done.
  rewrite andb_true_iff, N.eqb_eq, IH. split; [by intros [-> ->]|].
  by intros [= -> ->].
Qed.

Lemma str_eqb_refl s : str_eqb s s = true.
Proof. by apply str_eqb_eq. Qed.

Lemma str_eqb_neq s1 s2 : s1 <> s2 -> str_eqb s1 s2 = false.
Proof.
  intros Hne. destruct (str_eqb s1 s2) eqn:E; [|done].
  by apply str_eqb_eq in E.
Qed.

Lemma dict_get_set_eq {V} (kvs : list (pystr * V)) k v :
  dict_get (dict_set kvs k v) k = Some v.
Proof.
  induction kvs as [|[k' v'] rest IH]; simpl.
  - by rewrite str_eqb_refl.
  - destruct (str_eqb k' k) eqn:E; simpl; by rewrite E.
Qed.

Lemma dict_get_set_ne {V} (kvs : list (pystr * V)) k k' v :
  k <> k' -> dict_get (dict_set kvs k v) k' = dict_get kvs k'.
Proof.
  intros Hne. induction kvs as [|[k0 v0] rest IH]; simpl.
  - by rewrite str_eqb_neq.
  - destruct (str_eqb k0 k) eqn:E; simpl.
    + apply str_eqb_eq in E. subst k0. by rewrite str_eqb_neq.
    + by rewrite IH.
Qed.

Lemma split_dot_nonempty s : split_dot s <> [].
Proof.
  destruct s as [|c s]; simpl; [done|].
  destruct (N.eqb c 46); [done|]. by destruct (split_dot s).
Qed.

(** ** Heap cells *)

Lemma lookup_alloc_old (h : heap) o l x :
  h !! l = Some x -> (h ++ [o]) !! l = Some x.
Proof. intros H. by apply lookup_app_l_Some. Qed.

Lemma lookup_alloc_new (h : heap) o : (h ++ [o]) !! length h = Some o.
Proof. by rewrite list_lookup_middle. Qed.

Lemma as_dict_insert_ne (h : heap) l l' o :
  l <> l' -> as_dict (<[l := o]> h) (VRef l') = as_dict h (VRef l').
Proof. intros Hne. unfold as_dict. by rewrite list_lookup_insert_ne. Qed.

Lemma py_getitem_dict h l kvs k x :
  h !! l = Some (ODict kvs) -> dict_get kvs k = Some x ->
  py_getitem h (VRef l) k = Ok x.
Proof. intros Hl Hk. unfold py_getitem, as_dict. by rewrite Hl, Hk. Qed.

Lemma py_setitem_dict h l kvs k x :
  h !! l = Some (ODict kvs) ->
  py_setitem h (VRef l) k x = Ok (<[l := ODict (dict_set kvs k x)]> h).
Proof. intros Hl. unfold py_setitem. by rewrite Hl. Qed.

Lemma py_contains_dict h l kvs k :
  h !! l = Some (ODict kvs) ->
  py_contains h (VRef l) k = Ok (bool_decide (is_Some (dict_get kvs k))).
Proof. intros Hl. unfold py_contains. by rewrite Hl. Qed.

(** ** Walking a path *)

(** The spec's walk visits at least the starting object. *)
Lemma resolve_objects_nonempty h v keys ls :
  resolve_objects h v keys = Some ls -> ls <> [].
Proof.
  destruct keys, v; simpl; try done;
    destruct (h !! _) as [[?|]|]; try done.
  - by intros [= <-].
  - destruct (dict_get _ _); [|done].
    destruct (resolve_objects _ _ _); [|done]. by intros [= <-].
Qed.

(** The code's walk agrees with the spec's notion wherever the latter is
    defined. *)
Lemma navigate_resolve h v keys ls :
  resolve_objects h v keys = Some ls ->
  exists l kvs, last ls = Some l /\ h !! l = Some (ODict kvs) /\
                navigate h v keys = Ok (VRef l).
Proof.
  revert v ls. induction keys as [|key keys IH]; intros v ls; simpl.
  - destruct v as [| | | | |l]; try done.
    destruct (h !! l) as [[kvs|]|] eqn:Hl; try done.
    intros [= <-]. by exists l, kvs.
  - destruct v as [| | | | |l]; try done.
    destruct (h !! l) as [[kvs|]|] eqn:Hl; try done.
    destruct (dict_get kvs key) as [v'|] eqn:Hk; [|done].
    destruct (resolve_objects h v' keys) as [ls'|] eqn:Hr; [|done].
    intros [= <-]. destruct (IH _ _ Hr) as (l' & kvs' & Hlast & Hl' & Hnav).
    exists l', kvs'. split_and!; [|done|].
    + destruct ls'; [done|]. by rewrite last_cons, Hlast.
    + unfold py_getitem, as_dict. rewrite Hl, Hk. simpl. done.
Qed.

(** Where the spec's notion is undefined, the code's walk either raises a
    [PathError] or ends on something that is not a [dict]. *)
Lemma navigate_unresolved h v keys :
  resolve_objects h v keys = None ->
  (exists e, navigate h v keys = Raise e /\ PathError e) \/
  (exists x, navigate h v keys = Ok x /\ as_dict h x = None).
Proof.
  revert v. induction keys as [|key keys IH]; intros v; simpl.
  - intros Hr. right. exists v. split; [done|].
    destruct v as [| | | | |l]; try done. simpl.
    by destruct (h !! l) as [[kvs|]|].
  - intros Hr. unfold py_getitem.
    destruct (as_dict h v) as [kvs|] eqn:Hd; simpl.
    + destruct v as [| | | | |l]; try done. simpl in Hd.
      destruct (h !! l) as [[kvs'|]|] eqn:Hl; try done.
      injection Hd as ->.
      destruct (dict_get kvs key) as [v'|] eqn:Hk; simpl.
      * apply IH. by destruct (resolve_objects h v' keys).
      * left. exists KeyError. split; [done|]. by left.
    + left. exists TypeError. split; [done|]. by right.
Qed.

(** Overwriting the last object of an acyclic walk does not disturb the
    walk. *)
Lemma navigate_insert_last h v keys ls l o :
  resolve_objects h v keys = Some ls ->
  last ls = Some l -> NoDup ls ->
  navigate (<[l := o]> h) v keys = Ok (VRef l).
Proof.
  revert v ls. induction keys as [|key keys IH]; intros v ls; simpl.
  - destruct v as [| | | | |l0]; try done.
    destruct (h !! l0) as [[kvs|]|] eqn:Hl; try done.
    intros [= <-]. simpl. by intros [= ->].
  - destruct v as [| | | | |l0]; try done.
    destruct (h !! l0) as [[kvs|]|] eqn:Hl; try done.
    destruct (dict_get kvs key) as [v'|] eqn:Hk; [|done].
    destruct (resolve_objects h v' keys) as [ls'|] eqn:Hr; [|done].
    intros [= <-] Hlast Hnd. apply NoDup_cons in Hnd as [Hnotin Hnd].
    pose proof (resolve_objects_nonempty _ _ _ _ Hr) as Hne.
    assert (Hlast' : last ls' = Some l).
    { destruct ls' as [|l1 ls']; [done|]. by rewrite last_cons_cons in Hlast. }
    assert (l0 <> l).
    { intros ->. apply Hnotin. by apply last_Some_elem_of. }
    unfold py_getitem. rewrite as_dict_insert_ne by done.
    simpl. rewrite Hl, Hk. simpl. by eapply IH.
Qed.

Lemma navigate_app h v keys1 keys2 :
  navigate h v (keys1 ++ keys2) = (d ← navigate h v keys1; navigate h d keys2).
Proof.
  revert v. induction keys1 as [|key keys1 IH]; intros v; simpl; [done|].
  destruct (py_getitem h v key); simpl; [apply IH|done].
Qed.

Lemma split_dot_snoc s :
  split_dot s = removelast (split_dot s) ++ [List.last (split_dot s) []].
Proof. apply app_removelast_last, split_dot_nonempty. Qed.

(** ** The field-path setter *)

(** C3 (as amended).  When the root is truthy (for a [dict]: not empty) and
    every intermediate segment of the path names a nested object, with no
    object occurring twice on the way, [update_field] succeeds, emits
    [property_changed], stores the value under the final key of the parent
    object (replacing or appending the key), and the same path then reads
    back the value. *)
Theorem update_field_sets_path h root field_path v ls :
  truthy h root = true ->
  resolve_objects h root (removelast (split_dot field_path)) = Some ls ->
  NoDup ls ->
  exists h' l kvs,
    update_field h root field_path v = Ok (h', true) /\
    last ls = Some l /\ h !! l = Some (ODict kvs) /\
    h' = <[l := ODict (dict_set kvs (List.last (split_dot field_path) []) v)]> h /\
    read_path h' root field_path = Ok v.
Proof.
  intros Ht Hr Hnd.
  destruct (navigate_resolve _ _ _ _ Hr) as (l & kvs & Hlast & Hl & Hnav).
  eexists _, l, kvs. unfold update_field. rewrite Ht. cbn [negb].
  rewrite Hnav, bind_Ok, (py_setitem_dict _ _ _ _ _ Hl), bind_Ok.
  split_and!; try done.
  unfold read_path.
  remember (List.last (split_dot field_path) []) as k eqn:Hk.
  rewrite (split_dot_snoc field_path), <- Hk, navigate_app.
  erewrite navigate_insert_last by done. rewrite bind_Ok. cbn [navigate].
  erewrite py_getitem_dict; [done| |apply dict_get_set_eq].
  apply list_lookup_insert_eq. by eapply lookup_lt_Some.
Qed.

Lemma update_field_sets_path_witness :
  exists h' l kvs,
    update_field nested_doc (VRef 0%nat) (str "a.b.c") (VInt 7) = Ok (h', true) /\
    last [0; 1; 2]%nat = Some l /\ nested_doc !! l = Some (ODict kvs) /\
    h' = <[l := ODict (dict_set kvs (List.last (split_dot (str "a.b.c")) []) (VInt 7))]> nested_doc /\
    read_path h' (VRef 0%nat) (str "a.b.c") = Ok (VInt 7).
Proof.
  apply (update_field_sets_path nested_doc (VRef 0%nat) (str "a.b.c") (VInt 7) [0; 1; 2]%nat).
  - reflexivity.
  - reflexivity.
  - apply NoDup_ListNoDup. repeat constructor; simpl; intuition congruence.
Defined.

(** C3 fails as stated on an empty root object: every intermediate segment
    of the one-segment path [(str "c")] exists (there is none), yet the guard
    [if not self.current_data: return] makes the call a no-op, and reading
    the path afterwards raises [KeyError]. *)
Lemma update_field_empty_root_not_set :
  resolve_objects [ODict []] (VRef 0%nat) (removelast (split_dot (str "c"))) = Some [0%nat] /\
  update_field [ODict []] (VRef 0%nat) (str "c") (VInt 7) = Ok ([ODict []], false) /\
  read_path [ODict []] (VRef 0%nat) (str "c") = Raise KeyError.
Proof. split_and!; reflexivity. Qed.

(** C2 (as amended).  When the root is truthy and some intermediate segment
    of the path is missing or is not an object, [update_field] raises
    [KeyError] or [TypeError]. *)
Theorem update_field_missing_segment h root field_path v :
  truthy h root = true ->
  resolve_objects h root (removelast (split_dot field_path)) = None ->
  exists e, update_field h root field_path v = Raise e /\ PathError e.
Proof.
  intros Ht Hr. unfold update_field. rewrite Ht. cbn [negb].
  destruct (navigate_unresolved _ _ _ Hr) as [(e & -> & He)|(x & -> & Hx)].
  - by exists e.
  - exists TypeError. split; [|by right]. rewrite bind_Ok.
    unfold py_setitem. destruct x as [| | | | |l]; try done. simpl in Hx.
    by destruct (h !! l) as [[kvs|]|].
Qed.

Lemma update_field_missing_segment_witness :
  exists e,
    update_field [ODict [((str "a"), VRef 1%nat)]; ODict []] (VRef 0%nat) (str "a.missing.c") (VInt 7)
      = Raise e /\ PathError e.
Proof.
  apply (update_field_missing_segment
           [ODict [((str "a"), VRef 1%nat)]; ODict []] (VRef 0%nat) (str "a.missing.c") (VInt 7)).
  - reflexivity.
  - reflexivity.
Defined.

(** C2 fails as stated on an empty root object: the first segment of
    [(str "a.missing.c")] is missing, yet the call returns normally, changing
    nothing. *)
Lemma update_field_empty_root_no_error :
  resolve_objects [ODict []] (VRef 0%nat) (removelast (split_dot (str "a.missing.c"))) = None /\
  update_field [ODict []] (VRef 0%nat) (str "a.missing.c") (VInt 7) = Ok ([ODict []], false).
Proof. split; reflexivity. Qed.

(** ** Position writes *)

Lemma positioned_read h l q qk axis v :
  positioned h l q qk -> dict_get qk axis = Some v ->
  navigate h (VRef l) [(str "props"); (str "position"); axis] = Ok v.
Proof.
  intros (kvs & p & pk & Hl & Hp & Hpl & Hq & Hql & _ & _) Hv. cbn [navigate].
  rewrite (py_getitem_dict _ _ _ _ _ Hl Hp), bind_Ok.
  rewrite (py_getitem_dict _ _ _ _ _ Hpl Hq), bind_Ok.
  by rewrite (py_getitem_dict _ _ _ _ _ Hql Hv).
Qed.

Lemma positioned_read_position h l q qk :
  positioned h l q qk -> navigate h (VRef l) [(str "props"); (str "position")] = Ok (VRef q).
Proof.
  intros (kvs & p & pk & Hl & Hp & Hpl & Hq & Hql & _ & _). cbn [navigate].
  rewrite (py_getitem_dict _ _ _ _ _ Hl Hp), bind_Ok.
  by rewrite (py_getitem_dict _ _ _ _ _ Hpl Hq).
Qed.

Lemma set_position_axis_positioned h l q qk axis v :
  positioned h l q qk ->
  set_position_axis h (VRef l) axis v = Ok (<[q := ODict (dict_set qk axis v)]> h) /\
  positioned (<[q := ODict (dict_set qk axis v)]> h) l q (dict_set qk axis v).
Proof.
  intros (kvs & p & pk & Hl & Hp & Hpl & Hq & Hql & Hne1 & Hne2). split.
  - unfold set_position_axis.
    rewrite (py_getitem_dict _ _ _ _ _ Hl Hp), bind_Ok.
    rewrite (py_getitem_dict _ _ _ _ _ Hpl Hq), bind_Ok.
    by rewrite (py_setitem_dict _ _ _ _ _ Hql).
  - exists kvs, p, pk. split_and!; try done.
    + by rewrite list_lookup_insert_ne.
    + by rewrite list_lookup_insert_ne.
    + apply list_lookup_insert_eq. by eapply lookup_lt_Some.
Qed.

Lemma ensure_position_creates h l kvs :
  h !! l = Some (ODict kvs) ->
  (dict_get kvs (str "props") = None \/
   exists p pkvs, dict_get kvs (str "props") = Some (VRef p) /\
                  h !! p = Some (ODict pkvs) /\
                  dict_get pkvs (str "position") = None) ->
  exists h1 q,
    ensure_position h (VRef l) = Ok h1 /\ (length h <= q)%nat /\
    positioned h1 l q [] /\ (length h <= length h1)%nat /\
    (forall l', (l' < length h)%nat -> l' <> l ->
                dict_get kvs (str "props") <> Some (VRef l') -> h1 !! l' = h !! l').
Proof.
  intros Hl Hcase. pose proof (lookup_lt_Some _ _ _ Hl) as Hlt.
  unfold ensure_position, py_get, as_dict. rewrite Hl, bind_Ok.
  destruct Hcase as [Hnone|(p & pkvs & Hp & Hpl & Hpos)].
  - rewrite Hnone, bind_Ok. cbn [negb].
    rewrite (py_contains_dict _ _ _ _ Hl), Hnone, bind_Ok.
    rewrite bool_decide_eq_false_2 by (by intros [? ?]). cbn [negb alloc].
    erewrite py_setitem_dict by (by apply lookup_alloc_old). rewrite bind_Ok.
    erewrite py_getitem_dict;
      [|by apply list_lookup_insert_eq; heap_len|apply dict_get_set_eq].
    rewrite bind_Ok.
    erewrite py_setitem_dict by (heap_look; reflexivity).
    set (h_a := <[l:=ODict (dict_set kvs (str "props") (VRef (length h)))]> (h ++ [ODict []])).
    exists (<[length h := ODict (dict_set [] (str "position") (VRef (length h_a)))]>
              (h_a ++ [ODict []])), (length h_a).
    split; [done|]. subst h_a. split_and!.
    + heap_len.
    + exists (dict_set kvs (str "props") (VRef (length h))), (length h),
        (dict_set [] (str "position")
           (VRef (length (<[l:=ODict (dict_set kvs (str "props") (VRef (length h)))]>
                            (h ++ [ODict []]))))).
      split_and!.
      * by heap_look.
      * apply dict_get_set_eq.
      * by heap_look.
      * apply dict_get_set_eq.
      * by heap_look.
      * heap_len.
      * heap_len.
    + heap_len.
    + intros l' Hl' Hne _. by heap_look.
  - pose proof (lookup_lt_Some _ _ _ Hpl) as Hplt.
    rewrite Hp. cbv beta iota.
    rewrite (py_contains_dict _ _ _ _ Hpl), Hpos, bind_Ok.
    rewrite bool_decide_eq_false_2 by (by intros [? ?]). cbn [negb].
    rewrite (py_contains_dict _ _ _ _ Hl), Hp, bind_Ok.
    rewrite bool_decide_eq_true_2 by done. cbn [negb]. rewrite bind_Ok.
    rewrite (py_getitem_dict _ _ _ _ _ Hl Hp), bind_Ok. cbn [alloc].
    erewrite py_setitem_dict by (by apply lookup_alloc_old).
    eexists _, (length h). split; [done|]. split; [done|]. split_and!.
    + destruct (decide (p = l)) as [->|Hne].
      * assert (pkvs = kvs) as -> by congruence.
        exists (dict_set kvs (str "position") (VRef (length h))), l,
          (dict_set kvs (str "position") (VRef (length h))).
        split_and!; try lia; try by heap_look.
        -- by rewrite dict_get_set_ne.
        -- apply dict_get_set_eq.
      * exists kvs, p, (dict_set pkvs (str "position") (VRef (length h))).
        split_and!; try lia; try done; try by heap_look.
        apply dict_get_set_eq.
    + heap_len.
    + intros l' Hl' Hne Hne'. assert (p <> l') by congruence. by heap_look.
Qed.

(** A position write on an element without a position succeeds, only
    extends the heap, and leaves every object outside the element's
    footprint as it was. *)
Lemma itemChange_lacking h v new_x new_y :
  lacks_position h v ->
  exists h',
    itemChange h v new_x new_y = Ok h' /\ (length h <= length h')%nat /\
    (forall l', (l' < length h)%nat -> l' ∉ footprint h v -> h' !! l' = h !! l') /\
    exists q, (length h <= q)%nat /\
      positioned h' (match v with VRef l => l | _ => 0%nat end) q
        [((str "x"), VFloat new_x); ((str "y"), VFloat new_y)].
Proof.
  intros (l & kvs & -> & Hl & Hcase).
  destruct (ensure_position_creates _ _ _ Hl Hcase)
    as (h1 & q & He & Hq & Hpos1 & Hlen & Hframe).
  destruct (set_position_axis_positioned _ _ _ _ (str "x") (VFloat new_x) Hpos1)
    as [Hx Hpos2].
  destruct (set_position_axis_positioned _ _ _ _ (str "y") (VFloat new_y) Hpos2)
    as [Hy Hpos3].
  eexists. unfold itemChange. rewrite He, bind_Ok, Hx, bind_Ok, Hy.
  split_and!; [done|heap_len| |by exists q].
  intros l' Hl' Hfp. simpl in Hfp. rewrite Hl in Hfp.
  apply not_elem_of_cons in Hfp as [Hne Hfp].
  rewrite !list_lookup_insert_ne by lia. apply Hframe; [done|done|].
  intros Hp. rewrite Hp in Hfp. apply Hfp, list_elem_of_here.
Qed.

(** C1 (as amended).  For an element without [props], or whose [props] is an
    object without [position], the drag handler [itemChange] succeeds: it
    creates the missing objects, and afterwards [props.position] is a new
    object holding exactly the coordinates written, so that
    [props.position.x] and [props.position.y] read back the new position. *)
Theorem itemChange_creates_position h l kvs new_x new_y :
  h !! l = Some (ODict kvs) ->
  (dict_get kvs (str "props") = None \/
   exists p pkvs, dict_get kvs (str "props") = Some (VRef p) /\
                  h !! p = Some (ODict pkvs) /\
                  dict_get pkvs (str "position") = None) ->
  exists h' q,
    itemChange h (VRef l) new_x new_y = Ok h' /\
    (length h <= q)%nat /\
    read_path h' (VRef l) (str "props.position") = Ok (VRef q) /\
    h' !! q = Some (ODict [((str "x"), VFloat new_x); ((str "y"), VFloat new_y)]) /\
    read_path h' (VRef l) (str "props.position.x") = Ok (VFloat new_x) /\
    read_path h' (VRef l) (str "props.position.y") = Ok (VFloat new_y).
Proof.
  intros Hl Hcase.
  destruct (ensure_position_creates _ _ _ Hl Hcase)
    as (h1 & q & He & Hq & Hpos1 & _ & _).
  destruct (set_position_axis_positioned _ _ _ _ (str "x") (VFloat new_x) Hpos1)
    as [Hx Hpos2].
  destruct (set_position_axis_positioned _ _ _ _ (str "y") (VFloat new_y) Hpos2)
    as [Hy Hpos3].
  eexists _, q. unfold itemChange.
  rewrite He, bind_Ok, Hx, bind_Ok, Hy. split_and!; try done.
  - by apply positioned_read_position in Hpos3.
  - by destruct Hpos3 as (? & ? & ? & _ & _ & _ & _ & ? & _).
  - by apply (positioned_read _ _ _ _ (str "x") (VFloat new_x)) in Hpos3.
  - by apply (positioned_read _ _ _ _ (str "y") (VFloat new_y)) in Hpos3.
Qed.

Lemma itemChange_creates_position_witness :
  exists h' q,
    itemChange bare_element (VRef 0%nat) 42%float 17%float = Ok h' /\
    (length bare_element <= q)%nat /\
    read_path h' (VRef 0%nat) (str "props.position") = Ok (VRef q) /\
    h' !! q = Some (ODict [((str "x"), VFloat 42%float); ((str "y"), VFloat 17%float)]) /\
    read_path h' (VRef 0%nat) (str "props.position.x") = Ok (VFloat 42%float) /\
    read_path h' (VRef 0%nat) (str "props.position.y") = Ok (VFloat 17%float).
Proof.
  apply (itemChange_creates_position bare_element 0%nat [((str "id"), VStr (str "btn1"))]).
  - reflexivity.
  - left. reflexivity.
Defined.

(** C1 fails as stated for the field-path setter: [update_field] has no
    special case for position paths, so on an element without [props], and
    on one whose [props] has no [position], it raises [KeyError] and leaves
    the element as it was. *)
Lemma update_field_position_path_raises :
  update_field bare_element (VRef 0%nat) (str "props.position.x") (VInt 42)
    = Raise KeyError /\
  update_field [ODict [((str "id"), VStr (str "btn1")); ((str "props"), VRef 1%nat)]; ODict [((str "style"), VStr (str "flat"))]]
    (VRef 0%nat) (str "props.position.x") (VInt 42) = Raise KeyError.
Proof. split; reflexivity. Qed.

(** ** Default stacking on the canvas *)

Lemma DBL_INT_LIMIT_large : 1000 < DBL_INT_LIMIT.
Proof. reflexivity. Qed.

Lemma to_qreal_int z : Z.abs z < DBL_INT_LIMIT -> to_qreal (VInt z) = Ok (QInt z).
Proof. intros Hz. unfold to_qreal. by rewrite (proj2 (Z.ltb_lt _ _) Hz). Qed.

Lemma lacks_position_frame h h' v :
  lacks_position h v ->
  (forall l, l ∈ footprint h v -> h' !! l = h !! l) ->
  lacks_position h' v /\ footprint h' v = footprint h v.
Proof.
  intros (l & kvs & -> & Hl & Hcase) Hsame.
  assert (Hl' : h' !! l = Some (ODict kvs)).
  { rewrite Hsame; [done|]. simpl. apply list_elem_of_here. }
  split.
  - exists l, kvs. split_and!; [done|done|].
    destruct Hcase as [Hnone|(p & pkvs & Hp & Hpl & Hpos)]; [by left|right].
    exists p, pkvs. split_and!; [done| |done].
    rewrite Hsame; [done|]. simpl. rewrite Hl, Hp.
    apply list_elem_of_further, list_elem_of_here.
  - simpl. by rewrite Hl, Hl'.
Qed.

Lemma footprint_allocated h v l :
  lacks_position h v -> l ∈ footprint h v -> (l < length h)%nat.
Proof.
  intros (l0 & kvs & -> & Hl & Hcase). simpl. rewrite Hl.
  intros [->|Hin]%elem_of_cons; [by eapply lookup_lt_Some|].
  destruct Hcase as [Hnone|(p & pkvs & Hp & Hpl & Hpos)].
  - rewrite Hnone in Hin. by apply elem_of_nil in Hin.
  - rewrite Hp in Hin. apply list_elem_of_singleton in Hin as ->.
    by eapply lookup_lt_Some.
Qed.

(** One element without a position, added to a canvas that already shows
    [items]: it lands at the default place, and nothing outside its
    footprint changes. *)
Lemma add_widget_default h items v :
  lacks_position h v ->
  50 + 20 * Z.of_nat (length items) < DBL_INT_LIMIT ->
  exists h',
    add_widget h items v = Ok (h', items ++ [default_item (length items) v]) /\
    (length h <= length h')%nat /\
    (forall l, (l < length h)%nat -> l ∉ footprint h v -> h' !! l = h !! l).
Proof.
  intros Hlack Hbound.
  destruct (itemChange_lacking h v
              (float_of_Z (50 + Z.of_nat (length items) * 20))
              (float_of_Z (50 + Z.of_nat (length items) * 20)) Hlack)
    as (h' & Hic & Hlen & Hframe & _).
  destruct Hlack as (l & kvs & -> & Hl & Hcase).
  exists h'. split; [|done].
  unfold add_widget, as_dict. rewrite Hl.
  assert (Hprops : exists props, get_dict_or_empty h kvs (str "props") = Ok props /\
                                 dict_get props (str "position") = None).
  { unfold get_dict_or_empty, as_dict.
    destruct Hcase as [->|(p & pkvs & -> & -> & Hpos)]; eauto. }
  destruct Hprops as (props & -> & Hpos). rewrite bind_Ok.
  unfold get_dict_or_empty at 1. rewrite Hpos, bind_Ok. cbn [dict_get default].
  unfold DraggableWidget_init.
  pose proof DBL_INT_LIMIT_large.
  rewrite !to_qreal_int by lia. rewrite !bind_Ok.
  unfold update_label, py_get, as_dict. rewrite Hl, !bind_Ok.
  cbn [qFuzzyIsNull qreal_float].
  rewrite (proj2 (Z.eqb_neq _ 0)) by lia. cbn [andb].
  rewrite Hic, bind_Ok. cbn. unfold default_item.
  by replace (50 + 20 * Z.of_nat (length items))
    with (50 + Z.of_nat (length items) * 20) by lia.
Qed.

(** C8.  Elements without a position, added one after the other to a canvas
    that already shows [items]: the [i]-th of them is placed at
    [(50 + 20 * n, 50 + 20 * n)] with size [150 x 100], where
    [n = length items + i] counts all shapes already on the canvas.  The
    elements are distinct objects with distinct [props], as in any parsed
    document, and the coordinates fit a [double]. *)
Theorem add_widgets_default_stacking h items elems :
  Forall (lacks_position h) elems ->
  NoDup (elems ≫= footprint h) ->
  50 + 20 * Z.of_nat (length items + length elems) < DBL_INT_LIMIT ->
  exists h',
    add_widgets h items elems
      = (h', items ++ imap (fun i wd => default_item (length items + i) wd) elems, None).
Proof.
  revert h items. induction elems as [|v elems IH]; intros h items Hall Hnd Hbound.
  - exists h. simpl. by rewrite app_nil_r.
  - apply Forall_cons in Hall as [Hv Hall]. rewrite bind_cons in Hnd.
    apply NoDup_app in Hnd as (_ & Hdisj & Hnd).
    destruct (add_widget_default h items v Hv) as (h' & Haw & Hlen & Hframe).
    { simpl in Hbound. lia. }
    assert (Hkeep : Forall (fun e => lacks_position h' e /\
                                     footprint h' e = footprint h e) elems).
    { apply Forall_forall. intros e He.
      pose proof (proj1 (Forall_forall _ _) Hall e He) as Hlack.
      apply lacks_position_frame; [done|]. intros l Hl.
      apply Hframe; [by eapply footprint_allocated|].
      intros Hin. apply (Hdisj l Hin). apply list_elem_of_bind. eauto. }
    destruct (IH h' (items ++ [default_item (length items) v])) as (h'' & Hrest).
    + eapply Forall_impl; [exact Hkeep|]. by intros e [? _].
    + replace (elems ≫= footprint h') with (elems ≫= footprint h); [done|].
      clear -Hkeep. induction Hkeep as [|e es [_ Hfp] _ IHes]; [done|].
      by rewrite !bind_cons, Hfp, IHes.
    + rewrite length_app. simpl in *. lia.
    + exists h''. simpl. rewrite Haw, Hrest.
      rewrite <- app_assoc. simpl. rewrite Nat.add_0_r. do 4 f_equal.
      apply imap_ext. intros i e _. rewrite length_app. simpl.
      f_equal. lia.
Qed.

Lemma add_widgets_default_stacking_witness :
  exists h',
    add_widgets two_elements [] [VRef 2%nat; VRef 3%nat]
      = (h', [] ++ imap (fun i wd => default_item (length (@nil DraggableWidget) + i) wd)
                     [VRef 2%nat; VRef 3%nat], None).
Proof.
  apply (add_widgets_default_stacking two_elements [] [VRef 2%nat; VRef 3%nat]).
  - repeat constructor.
    + exists 2%nat, [((str "id"), VStr (str "a"))]. split_and!; [reflexivity|reflexivity|].
      left. reflexivity.
    + exists 3%nat, [((str "id"), VStr (str "b")); ((str "props"), VRef 4%nat)].
      split_and!; [reflexivity|reflexivity|].
      right. exists 4%nat, []. split_and!; reflexivity.
  - apply NoDup_ListNoDup. repeat constructor; simpl; intuition congruence.
  - reflexivity.
Defined.

(** The spec's scenario: loading the canvas from a document with two
    elements that have no position places them at [(50, 50)] and [(70, 70)],
    each [150 x 100]. *)
Example load_canvas_two_elements :
  (load_canvas two_elements (VRef 0%nat)).1.2
  = [ {| widget_data := VRef 2%nat; rect_width := QInt 150; rect_height := QInt 100;
         pos_x := QInt 50; pos_y := QInt 50 |};
      {| widget_data := VRef 3%nat; rect_width := QInt 150; rect_height := QInt 100;
         pos_x := QInt 70; pos_y := QInt 70 |} ].
Proof. vm_compute. reflexivity. Qed.

(** ** Commands *)

Lemma bindM_get {B} (f : app -> M B) a : (get ≫= f) a = f a a.
Proof. reflexivity. Qed.

Lemma bindM_ret {A B} (x : A) (f : A -> M B) a : (mret x ≫= f) a = f x a.
Proof. reflexivity. Qed.

Lemma bindM_raise {A B} (e : exn) (f : A -> M B) a :
  (raise e ≫= f) a = (Raise e, a).
Proof. reflexivity. Qed.

Lemma bindM_modify {B} (g : app -> app) (f : unit -> M B) a :
  (modify g ≫= f) a = f () (g a).
Proof. reflexivity. Qed.

Lemma bindM_lift_Ok {A B} (x : A) (f : A -> M B) a : (lift (Ok x) ≫= f) a = f x a.
Proof. reflexivity. Qed.

Lemma bindM_lift_Raise {A B} (e : exn) (f : A -> M B) a :
  (lift (Raise e) ≫= f) a = (Raise e, a).
Proof. reflexivity. Qed.

Lemma bindM_assoc {A B C} (m : M A) (f : A -> M B) (g : B -> M C) a :
  ((m ≫= f) ≫= g) a = (m ≫= (fun x => f x ≫= g)) a.
Proof.
  unfold mbind, M_bind. destruct (m a) as [[x|e] a']; [|done].
  by destruct (f x a') as [[y|e] a''].
Qed.

Lemma set_py_heap_same a : set_py_heap (py_heap a) a = a.
Proof. by destruct a. Qed.

(** ** List fields of the property form *)


(** ** Loading *)

(** C6.  A load that fails because the file cannot be read or because its
    text is not JSON shows the failure and changes nothing else: the
    document, the heap, the current file and the modified flag are what
    they were. *)
Theorem load_file_failure_keeps_document a file_path :
  dict_get (disk a) file_path = None \/
  (exists text, dict_get (disk a) file_path = Some text /\ json_loads text = None) ->
  exists e,
    load_file file_path a = (Ok (), set_messages (messages a ++ [FailedToLoad e]) a).
Proof.
  intros [Hio|(text & Hread & Hbad)]; unfold load_file, try_except;
    rewrite bindM_get.
  - exists OSError. by rewrite Hio.
  - exists JSONDecodeError. rewrite Hread. cbn [lift_option]. rewrite bindM_ret.
    unfold loads_m. rewrite Hbad. cbn [lift_option].
    by rewrite bindM_assoc, bindM_raise.
Qed.

Lemma load_file_failure_keeps_document_witness :
  exists e,
    load_file (str "missing.json") float_doc_loaded
      = (Ok (), set_messages (messages float_doc_loaded ++ [FailedToLoad e])
                   float_doc_loaded).
Proof.
  apply (load_file_failure_keeps_document float_doc_loaded (str "missing.json")).
  left. reflexivity.
Defined.

(** ** Saving *)

Lemma save_to_invalid_raw_text a path :
  raw_tab_active a = true -> json_loads (raw_text a) = None ->
  save_to path a
    = (Ok (), set_messages (messages a ++ [FailedToSave JSONDecodeError]) a).
Proof.
  intros Hraw Hbad. unfold save_to, try_except. rewrite bindM_get, Hraw.
  unfold loads_m. rewrite Hbad. cbn [lift_option].
  by rewrite !bindM_assoc, bindM_raise.
Qed.

(** C5 (as amended).  A save triggered while the raw editor is the tab in
    front and holds text that is not JSON fails before the file is opened:
    the [JSONDecodeError] is caught and shown as a failed save, and nothing
    else changes; whatever the file dialog answers, the files on disk are
    what they were. *)
Theorem save_invalid_raw_text_keeps_file a :
  raw_tab_active a = true -> json_loads (raw_text a) = None ->
  (forall path,
     save_to path a
       = (Ok (), set_messages (messages a ++ [FailedToSave JSONDecodeError]) a)) /\
  (forall choice,
     disk (save_file choice a).2 = disk a /\
     json_data (save_file choice a).2 = json_data a /\
     py_heap (save_file choice a).2 = py_heap a).
Proof.
  intros Hraw Hbad. split; [intros; by apply save_to_invalid_raw_text|].
  intros choice.
  assert (Has : forall b, raw_tab_active b = true -> json_loads (raw_text b) = None ->
                  disk (save_file_as choice b).2 = disk b /\
                  json_data (save_file_as choice b).2 = json_data b /\
                  py_heap (save_file_as choice b).2 = py_heap b).
  { intros b Hb1 Hb2. unfold save_file_as. destruct (str_eqb choice []); [done|].
    rewrite bindM_modify, save_to_invalid_raw_text by done. done. }
  unfold save_file. rewrite bindM_get.
  destruct (current_file a) as [path|]; [|by apply Has].
  destruct (str_eqb path []); [by apply Has|].
  by rewrite save_to_invalid_raw_text.
Qed.

Lemma save_invalid_raw_text_keeps_file_witness :
  (forall path,
     save_to path float_doc_raw_broken_active
       = (Ok (), set_messages (messages float_doc_raw_broken_active
                                 ++ [FailedToSave JSONDecodeError])
                   float_doc_raw_broken_active)) /\
  (forall choice,
     disk (save_file choice float_doc_raw_broken_active).2
       = disk float_doc_raw_broken_active /\
     json_data (save_file choice float_doc_raw_broken_active).2
       = json_data float_doc_raw_broken_active /\
     py_heap (save_file choice float_doc_raw_broken_active).2
       = py_heap float_doc_raw_broken_active).
Proof.
  apply (save_invalid_raw_text_keeps_file float_doc_raw_broken_active).
  - reflexivity.
  - reflexivity.
Defined.

(** C5 fails as stated when another tab is in front: the raw editor holds
    text that is not JSON, yet the save raises nothing, shows no message,
    and replaces the file by the text of the document in memory. *)
Lemma save_ignores_inactive_raw_text :
  json_loads (raw_text float_doc_raw_broken) = None /\
  dict_get (disk float_doc_raw_broken) (str "doc.json") = Some float_doc_text /\
  (save_file [] float_doc_raw_broken).1 = Ok () /\
  messages (save_file [] float_doc_raw_broken).2 = [] /\
  dict_get (disk (save_file [] float_doc_raw_broken).2) (str "doc.json")
    = Some float_doc_pretty.
Proof. vm_compute. by split_and!. Qed.

(** ** The numeric editor *)

(** C7, where the code departs from it: the editor made for the [float]
    [1.5] is the integer spin box made for the [int] [1], and it shows 1;
    a value set through it is an [int]. *)
Theorem numeric_editor_truncates_float :
  numeric_editor (VFloat 1.5)
    = Ok (SpinBox {| minimum := -999999; maximum := 999999; spin_value := 1 |}) /\
  numeric_editor (VFloat 1.5) = numeric_editor (VInt 1) /\
  numeric_editor (VFloat (-2.75)) = numeric_editor (VInt (-2)) /\
  form (tree_item_clicked 1 float_doc_loaded).2
    = [(str "n", SpinBox {| minimum := -999999; maximum := 999999; spin_value := 1 |})].
Proof. vm_compute. by split_and!. Qed.



(** ** Commands that keep an invariant *)

Lemma preserves_bind {A B} P (m : M A) (f : A -> M B) :
  preserves P m -> (forall x, preserves P (f x)) -> preserves P (m ≫= f).
Proof.
  intros Hm Hf s Hs. unfold mbind, M_bind. specialize (Hm s Hs).
  destruct (m s) as [[x|e] s']; simpl in *; [by apply Hf|done].
Qed.

Lemma preserves_get {B} P (f : app -> M B) :
  (forall a, preserves P (f a)) -> preserves P (get ≫= f).
Proof. intros Hf s Hs. rewrite bindM_get. by apply Hf. Qed.

Lemma preserves_ret {A} P (x : A) : preserves P (mret x).
Proof. by intros s Hs. Qed.

Lemma preserves_raise {A} P (e : exn) : preserves P (@raise A e).
Proof. by intros s Hs. Qed.

Lemma preserves_lift {A} P (r : result A) : preserves P (lift r).
Proof. by intros s Hs. Qed.

Lemma preserves_lift_option {A} P e (o : option A) : preserves P (lift_option e o).
Proof. destruct o; [apply preserves_ret|apply preserves_raise]. Qed.

Lemma preserves_for_each {A} P (xs : list A) (body : A -> M unit) :
  (forall x, preserves P (body x)) -> preserves P (for_each xs body).
Proof.
  intros Hbody. induction xs as [|x xs IH]; simpl.
  - apply preserves_ret.
  - apply preserves_bind; [apply Hbody|]. by intros _.
Qed.

(** ** Building the tree *)

Lemma preserves_get_state {B} (P : app -> Prop) (f : app -> M B) :
  (forall a, P a -> P (f a a).2) -> preserves P (get ≫= f).
Proof. intros Hf s Hs. rewrite bindM_get. by apply Hf. Qed.

Lemma preserves_for_each_in {A} P (xs : list A) (body : A -> M unit) :
  (forall x, x ∈ xs -> preserves P (body x)) -> preserves P (for_each xs body).
Proof.
  induction xs as [|x xs IH]; intros Hbody; simpl.
  - apply preserves_ret.
  - apply preserves_bind; [apply Hbody, list_elem_of_here|]. intros _.
    apply IH. intros y Hy. by apply Hbody, list_elem_of_further.
Qed.

Lemma leaf_wrapped_grow base (h : heap) ext it :
  leaf_wrapped base h it -> leaf_wrapped base (h ++ ext) it.
Proof.
  intros Hw Hk. destruct (Hw Hk) as (l & v & Hd & Hl & Hh & d & kvs & Hlt & Hdk & Hin).
  exists l, v. split_and!; [done|done|by apply lookup_app_l_Some|].
  exists d, kvs. split_and!; [done|by apply lookup_app_l_Some|done].
Qed.

(** The lemmas below carry, besides the invariant of the tree, any fact [R]
    about the heap that survives appending to it. *)
Definition grows_with (R : heap -> Prop) : Prop :=
  forall h ext, R h -> R (h ++ ext).

Lemma new_item_keeps_tree h0 (R : heap -> Prop) parent kind key data :
  kind <> LeafItem ->
  preserves (fun s => tree_inv h0 s /\ R (py_heap s)) (new_item parent kind key data).
Proof.
  intros Hk s [[Hext Hall] HR]. split; [|exact HR]. split; [done|]. simpl.
  apply Forall_app. split; [done|]. apply Forall_singleton. by intros ?.
Qed.

Lemma add_element_item_state parent i elem s :
  exists data,
    (add_element_item parent (i, elem) s).2
      = set_tree (tree s ++ [{| item_parent := Some parent;
                                item_kind_of := ElementItem;
                                item_key := int_repr (Z.of_nat i);
                                item_data := data |}]) s.
Proof.
  unfold add_element_item. unfold mbind at 1, M_bind at 1. cbn [new_item].
  rewrite bindM_get. cbn [py_heap set_tree].
  destruct (py_get (py_heap s) elem (str "id")) as [o|e].
  - rewrite bindM_lift_Ok. exists elem. cbn.
    rewrite alter_app_r_alt by done. by rewrite Nat.sub_diag.
  - rewrite bindM_lift_Raise. by exists VNone.
Qed.

Lemma add_element_item_keeps_tree h0 (R : heap -> Prop) parent ie :
  preserves (fun s => tree_inv h0 s /\ R (py_heap s)) (add_element_item parent ie).
Proof.
  destruct ie as [i elem]. intros s [[Hext Hall] HR].
  destruct (add_element_item_state parent i elem s) as [data ->].
  split; [|exact HR]. split; [done|]. simpl.
  apply Forall_app. split; [done|]. apply Forall_singleton. by intros ?.
Qed.

Lemma leaf_item_keeps_tree h0 (R : heap -> Prop) parent key v s :
  grows_with R ->
  tree_inv h0 s -> R (py_heap s) ->
  (exists d kvs, py_heap s !! d = Some (ODict kvs) /\ (key, v) ∈ kvs) ->
  let s' := ((wrapper ← alloc_m (ODict [(key, v)]);
              _ ← new_item (Some parent) LeafItem key wrapper;
              mret ()) s).2 in
  tree_inv h0 s' /\ R (py_heap s').
Proof.
  intros HR [[ext Hext] Hall] HRs (d & kvs & Hd & Hin).
  unfold mbind, M_bind, alloc_m, alloc, new_item. cbn. split; [split|].
  - exists (ext ++ [ODict [(key, v)]]). by rewrite Hext, app_assoc.
  - apply Forall_app. split.
    + eapply Forall_impl; [exact Hall|]. intros it. apply leaf_wrapped_grow.
    + apply Forall_singleton. intros _. exists (length (py_heap s)), v.
      simpl. split_and!; [done| |apply lookup_alloc_new|].
      * rewrite Hext, length_app. lia.
      * exists d, kvs. split_and!; [by eapply lookup_lt_Some|
                                    by apply lookup_app_l_Some|done].
  - by apply HR.
Qed.

Lemma as_dict_Some h v kvs :
  as_dict h v = Some kvs -> exists d, v = VRef d /\ h !! d = Some (ODict kvs).
Proof.
  destruct v as [| | | | |d]; try done. simpl.
  destruct (h !! d) as [[kvs'|]|] eqn:E; try done. intros [= ->]. by exists d.
Qed.

Lemma add_tree_items_keeps_tree h0 fuel :
  forall (R : heap -> Prop) parent data,
    grows_with R ->
    preserves (fun s => tree_inv h0 s /\ R (py_heap s))
      (add_tree_items fuel parent data).
Proof.
  induction fuel as [|fuel IH]; intros R parent data HR; simpl.
  - apply preserves_raise.
  - apply preserves_get_state. intros a Ha.
    destruct (as_dict (py_heap a) data) as [kvs|] eqn:Hdata; [|done].
    cbn [lift_option]. rewrite bindM_ret.
    apply as_dict_Some in Hdata as (d & -> & Hd).
    set (R' := fun h => R h /\ exists ext, h = py_heap a ++ ext).
    assert (HR' : grows_with R').
    { intros h ext [HRh [ext' ->]]. split; [by apply HR|].
      exists (ext' ++ ext). by rewrite app_assoc. }
    match goal with
    | |- context [for_each kvs ?b a] => set (body := b)
    end.
    enough (Hloop : tree_inv h0 (for_each kvs body a).2 /\
                    R' (py_heap (for_each kvs body a).2)).
    { destruct Hloop as [? [? _]]. by split. }
    apply (preserves_for_each_in (fun s => tree_inv h0 s /\ R' (py_heap s))).
    + intros [key v] Hin. subst body. cbv beta iota. apply preserves_get_state.
      intros a' Ha'. pose proof Ha' as [Ht' [HRa' [ext' Hext']]].
      destruct (as_dict (py_heap a') v).
      * refine (preserves_bind (fun s => tree_inv h0 s /\ R' (py_heap s))
                  _ _ _ _ a' Ha'); [by apply new_item_keeps_tree|].
        intros item. by apply IH.
      * destruct (list_of_objects (py_heap a') v) as [elems|].
        -- refine (preserves_bind (fun s => tree_inv h0 s /\ R' (py_heap s))
                     _ _ _ _ a' Ha'); [by apply new_item_keeps_tree|].
           intros item.
           apply preserves_for_each. intros ie. apply add_element_item_keeps_tree.
        -- apply leaf_item_keeps_tree; [done|done|by split; [|exists ext']|].
           exists d, kvs. split; [|done]. rewrite Hext'.
           by apply lookup_app_l_Some.
    + destruct Ha as [? ?]. split; [done|]. split; [done|].
      exists []. by rewrite app_nil_r.
Qed.

(** Building the tree leaves every object of the heap in place, and gives
    every leaf item a wrapper of its own, allocated while building. *)
Lemma populate_tree_wraps_leaves a :
  tree_inv (py_heap a) (populate_tree a).2.
Proof.
  unfold populate_tree. rewrite bindM_modify.
  assert (Hstart : tree_inv (py_heap a) (set_tree [] a) /\ True).
  { split; [|done]. split; [exists []; by rewrite app_nil_r|]. by apply Forall_nil. }
  enough (Hp : preserves (fun s => tree_inv (py_heap a) s /\ True)
    (a0 ← get;
     if negb (truthy (py_heap a0) (json_data a0)) then mret ()
     else
       root ← new_item None RootItem [] VNone;
       id ← lift (py_get (py_heap a0) (json_data a0) (str "id"));
       _ ← match id with
           | None | Some (VStr _) => mret ()
           | Some _ => raise TypeError
           end;
       add_tree_items (S (length (py_heap a0))) root (json_data a0))).
  { by apply Hp in Hstart as [? _]. }
  apply preserves_get. intros a0.
  destruct (negb (truthy (py_heap a0) (json_data a0))); [apply preserves_ret|].
  apply preserves_bind; [by apply (new_item_keeps_tree _ (fun _ => True))|].
  intros root.
  apply preserves_bind; [apply preserves_lift|]. intros id.
  apply preserves_bind;
    [|intros _; by apply (add_tree_items_keeps_tree _ _ (fun _ => True))].
  destruct id as [[]|]; first [apply preserves_ret|apply preserves_raise].
Qed.

(** ** JSON trees *)

(** Induction over trees, with the members of a container at hand. *)
Lemma json_ind' (P : json -> Prop) :
  P JNull -> (forall b, P (JBool b)) -> (forall z, P (JInt z)) ->
  (forall f, P (JFloat f)) -> (forall s, P (JStr s)) ->
  (forall xs, Forall P xs -> P (JArr xs)) ->
  (forall kvs, Forall (fun kv => P kv.2) kvs -> P (JObj kvs)) ->
  forall j, P j.
Proof.
  intros HNull HBool HInt HFloat HStr HArr HObj. fix IH 1.
  intros [|b|z|f|s|xs|kvs];
    [apply HNull|apply HBool|apply HInt|apply HFloat|apply HStr| |].
  - apply HArr. induction xs as [|x xs IHxs]; constructor; [apply IH|apply IHxs].
  - apply HObj. induction kvs as [|[k x] kvs IHkvs]; constructor;
      [apply IH|apply IHkvs].
Qed.

(** Allocating a tree only appends to the heap. *)
Lemma alloc_json_extends j : forall h, exists ext, (alloc_json j h).2 = h ++ ext.
Proof.
  induction j as [|b|z|f|s|xs IHxs|kvs IHkvs] using json_ind'; intros h;
    try (exists []; simpl; by rewrite app_nil_r).
  - simpl.
    match goal with |- context [?F xs h] => set (members := F) end.
    assert (Hm : forall h, exists ext, (members xs h).2 = h ++ ext).
    { clear h. induction IHxs as [|x xs Hx _ IH]; intros h.
      - exists []. simpl. by rewrite app_nil_r.
      - simpl. destruct (Hx h) as [e1 He1].
        destruct (alloc_json x h) as [v h1]. simpl in He1. subst h1.
        destruct (IH (h ++ e1)) as [e2 He2].
        destruct (members xs (h ++ e1)) as [vs h2]. simpl in *. subst h2.
        exists (e1 ++ e2). by rewrite app_assoc. }
    destruct (Hm h) as [ext Hext]. destruct (members xs h) as [vs h'].
    simpl in *. subst h'. exists (ext ++ [OList vs]). by rewrite app_assoc.
  - simpl.
    match goal with |- context [?F kvs h] => set (members := F) end.
    assert (Hm : forall h, exists ext, (members kvs h).2 = h ++ ext).
    { clear h. induction IHkvs as [|[k x] kvs Hx _ IH]; intros h.
      - exists []. simpl. by rewrite app_nil_r.
      - simpl. simpl in Hx. destruct (Hx h) as [e1 He1].
        destruct (alloc_json x h) as [v h1]. simpl in He1. subst h1.
        destruct (IH (h ++ e1)) as [e2 He2].
        destruct (members kvs (h ++ e1)) as [vs h2]. simpl in *. subst h2.
        exists (e1 ++ e2). by rewrite app_assoc. }
    destruct (Hm h) as [ext Hext]. destruct (members kvs h) as [vs h'].
    simpl in *. subst h'. exists (ext ++ [ODict vs]). by rewrite app_assoc.
Qed.

(** ** Paths with and without dots *)

Lemma split_dot_single s w : split_dot s = [w] -> w = s.
Proof.
  revert w. induction s as [|c s IH]; intros w; simpl.
  - by intros [= <-].
  - destruct (N.eqb c 46).
    + pose proof (split_dot_nonempty s). by destruct (split_dot s).
    + destruct (split_dot s) as [|w' ws] eqn:E; [by apply split_dot_nonempty in E|].
      intros [= <- ->]. by rewrite (IH w').
Qed.

Lemma split_dot_length s w ws :
  split_dot s = w :: ws -> ws <> [] -> (length w < length s)%nat.
Proof.
  revert w ws. induction s as [|c s IH]; intros w ws; simpl.
  - by intros [= <- <-].
  - destruct (N.eqb c 46).
    + intros [= <- <-] _. simpl. lia.
    + destruct (split_dot s) as [|w' ws'] eqn:E; [by apply split_dot_nonempty in E|].
      intros [= <- <-] Hne. simpl. specialize (IH w' ws' eq_refl Hne). lia.
Qed.

(** ** Edits of a selected leaf *)

(** Setting the field [k] of a wrapper with the single key [k] either
    raises or rewrites the wrapper and nothing else. *)
Lemma update_field_wrapper h l k v x :
  h !! l = Some (ODict [(k, v)]) ->
  update_field h (VRef l) k x = Ok (<[l := ODict [(k, x)]]> h, true) \/
  exists e, update_field h (VRef l) k x = Raise e.
Proof.
  intros Hl. unfold update_field. cbn [truthy]. rewrite Hl.
  rewrite bool_decide_eq_false_2 by done. cbn [negb].
  destruct (split_dot k) as [|w [|w2 ws]] eqn:E.
  - by apply split_dot_nonempty in E.
  - apply split_dot_single in E as ->. left. cbn [removelast navigate List.last].
    rewrite bind_Ok, (py_setitem_dict _ _ _ _ _ Hl), bind_Ok.
    cbn [dict_set]. by rewrite str_eqb_refl.
  - right. exists KeyError.
    assert (Hne : k <> w).
    { intros ->. apply split_dot_length in E; [lia|done]. }
    cbn [removelast navigate]. unfold py_getitem, as_dict. rewrite Hl.
    cbn [dict_get]. by rewrite (str_eqb_neq _ _ Hne).
Qed.

Lemma form_edit_wrapper h l k v input h' emitted :
  h !! l = Some (ODict [(k, v)]) ->
  form_edit h (VRef l) k input = Ok (h', emitted) ->
  (exists v', h' !! l = Some (ODict [(k, v')])) /\
  (forall l' o, l' <> l -> h !! l' = Some o -> h' !! l' = Some o).
Proof.
  intros Hl. pose proof (lookup_lt_Some _ _ _ Hl) as Hlt.
  assert (Huf : forall x,
            update_field h (VRef l) k x = Ok (h', emitted) ->
            (exists v', h' !! l = Some (ODict [(k, v')])) /\
            (forall l' o, l' <> l -> h !! l' = Some o -> h' !! l' = Some o)).
  { intros x Hx. destruct (update_field_wrapper h l k v x Hl) as [Hok|[e He]];
      [|congruence].
    rewrite Hok in Hx. injection Hx as <- <-. split.
    - exists x. by apply list_lookup_insert_eq.
    - intros l' o Hne Ho. by rewrite list_lookup_insert_ne. }
  destruct input as [text|text|z|text]; cbn [form_edit]; try apply Huf.
  unfold update_list. destruct (json_loads text) as [j|].
  - destruct (alloc_json_extends j h) as [ext Hext].
    destruct (alloc_json j h) as [x h1]. simpl in Hext. subst h1. intros Hx.
    assert (Hl1 : (h ++ ext) !! l = Some (ODict [(k, v)])) by by apply lookup_app_l_Some.
    destruct (update_field_wrapper _ l k v x Hl1) as [Hok|[e He]]; [|congruence].
    rewrite Hok in Hx. injection Hx as <- <-. split.
    + exists x. apply list_lookup_insert_eq. rewrite length_app. lia.
    + intros l' o Hne Ho. rewrite list_lookup_insert_ne by done.
      by apply lookup_app_l_Some.
  - intros [= <- <-]. split; [by exists v|done].
Qed.

Lemma property_edited_keeps_selection h0 l k input :
  (length h0 <= l)%nat ->
  preserves (leaf_selected h0 l k) (property_edited k input).
Proof.
  intros Hfresh s (Hcd & [v Hl] & Hframe). unfold property_edited.
  rewrite bindM_get, Hcd.
  destruct (form_edit (py_heap s) (VRef l) k input) as [[h' emitted]|e] eqn:E.
  - rewrite bindM_lift_Ok. cbv beta iota zeta. rewrite bindM_modify.
    destruct (form_edit_wrapper _ _ _ _ _ _ _ Hl E) as [[v' Hl'] Hfr].
    assert (leaf_selected h0 l k (set_py_heap h' s)).
    { split_and!; [done|by exists v'|].
      intros l' o Ho. apply Hfr; [|by apply Hframe].
      apply lookup_lt_Some in Ho. lia. }
    by destruct emitted.
  - rewrite bindM_lift_Raise. cbn [snd]. split_and!; [done|by exists v|done].
Qed.

(** C10.  Every leaf item of the tree view carries a single-key object made
    for it while the tree was built, not an object of the document; when
    such a leaf is selected and its field is edited in the property form,
    any number of times, every object that existed before the tree was
    built, the document among them, is exactly what it was. *)
Theorem leaf_edits_leave_document a i it inputs :
  tree (populate_tree a).2 !! i = Some it ->
  item_kind_of it = LeafItem ->
  exists l v,
    item_data it = VRef l /\ (length (py_heap a) <= l)%nat /\
    py_heap (populate_tree a).2 !! l = Some (ODict [(item_key it, v)]) /\
    (exists d kvs, (d < l)%nat /\
       py_heap (populate_tree a).2 !! d = Some (ODict kvs) /\
       (item_key it, v) ∈ kvs) /\
    current_data (tree_item_clicked i (populate_tree a).2).2 = VRef l /\
    forall l' o,
      py_heap a !! l' = Some o ->
      py_heap (for_each inputs (property_edited (item_key it))
                 (tree_item_clicked i (populate_tree a).2).2).2 !! l' = Some o.
Proof.
  intros Hit Hkind.
  destruct (populate_tree_wraps_leaves a) as [[ext Hext] Hall].
  set (a1 := (populate_tree a).2) in *.
  pose proof (proj1 (Forall_lookup _ _) Hall i it Hit Hkind)
    as (l & v & Hd & Hl & Hw & Hsrc).
  exists l, v. split_and!; [done|done|done|done| |].
  - unfold tree_item_clicked. rewrite bindM_get, Hit, Hd. cbn [truthy].
    rewrite Hw. rewrite bool_decide_eq_false_2 by done. cbn [negb].
    unfold load_data. rewrite !bindM_modify, bindM_get.
    destruct (load_data_rows _ _) as [rows err]. rewrite bindM_modify.
    by destruct err.
  - assert (Hsel : leaf_selected (py_heap a) l (item_key it)
                     (tree_item_clicked i a1).2).
    { unfold tree_item_clicked. rewrite bindM_get, Hit, Hd. cbn [truthy].
      rewrite Hw. rewrite bool_decide_eq_false_2 by done. cbn [negb].
      unfold load_data. rewrite !bindM_modify, bindM_get.
      cbn [py_heap set_form set_current_data].
      destruct (load_data_rows (py_heap a1) (VRef l)) as [rows err].
      rewrite bindM_modify.
      assert (leaf_selected (py_heap a) l (item_key it)
                (set_form rows (set_form [] (set_current_data (VRef l) a1)))).
      { split_and!; [done|by exists v|]. intros l' o Ho. simpl.
        rewrite Hext. by apply lookup_app_l_Some. }
      by destruct err. }
    pose proof (preserves_for_each (leaf_selected (py_heap a) l (item_key it))
                  inputs (property_edited (item_key it))
                  (fun input => property_edited_keeps_selection _ _ _ input Hl)
                  _ Hsel) as (_ & _ & Hframe).
    exact Hframe.
Qed.

Lemma leaf_edits_leave_document_witness :
  exists l v,
    item_data leaf_n = VRef l /\ (length (py_heap float_doc_loaded) <= l)%nat /\
    py_heap (populate_tree float_doc_loaded).2 !! l
      = Some (ODict [(item_key leaf_n, v)]) /\
    (exists d kvs, (d < l)%nat /\
       py_heap (populate_tree float_doc_loaded).2 !! d = Some (ODict kvs) /\
       (item_key leaf_n, v) ∈ kvs) /\
    current_data (tree_item_clicked 1 (populate_tree float_doc_loaded).2).2 = VRef l /\
    forall l' o,
      py_heap float_doc_loaded !! l' = Some o ->
      py_heap (for_each [SpinValue 7; LineText (str "x")]
                 (property_edited (item_key leaf_n))
                 (tree_item_clicked 1 (populate_tree float_doc_loaded).2).2).2 !! l'
        = Some o.
Proof.
  apply (leaf_edits_leave_document float_doc_loaded 1 leaf_n
           [SpinValue 7; LineText (str "x")]).
  - reflexivity.
  - reflexivity.
Defined.

(** The same scenario run: after the two edits the wrapper holds the last
    value typed, and the document still has [n = 1.5]. *)
Example leaf_edit_scenario :
  let s := (for_each [SpinValue 7; LineText (str "x")] (property_edited (str "n"))
              (tree_item_clicked 1 (populate_tree float_doc_loaded).2).2).2 in
  py_heap s !! 2%nat = Some (ODict [(str "n", VStr (str "x"))]) /\
  read_path (py_heap s) (json_data s) (str "n") = Ok (VFloat 1.5) /\
  modified s = true.
Proof. vm_compute. by split_and!. Qed.

(** * Writing a document and reading it back *)

(** ** Decimal numerals *)

Lemma digits_value_app acc a b :
  digits_value acc (a ++ b) = digits_value (digits_value acc a) b.
Proof. revert acc. induction a as [|c a IH]; intros acc; simpl; [done|apply IH]. Qed.

Lemma digits_value_acc ds acc :
  digits_value acc ds = acc * 10 ^ Z.of_nat (length ds) + digits_value 0 ds.
Proof.
  revert acc. induction ds as [|c ds IH]; intros acc.
  - simpl. lia.
  - cbn [digits_value length]. rewrite (IH (10 * acc + digit_value c)), (IH (10 * 0 + digit_value c)).
    rewrite Nat2Z.inj_succ, Z.pow_succ_r by lia. lia.
Qed.

Lemma digits_value_snoc ds c :
  digits_value 0 (ds ++ [c]) = 10 * digits_value 0 ds + digit_value c.
Proof. rewrite digits_value_app. done. Qed.

Lemma digits_value_zeros acc k :
  digits_value acc (replicate k 48%N) = acc * 10 ^ Z.of_nat k.
Proof.
  revert acc. induction k as [|k IH]; intros acc.
  - simpl. lia.
  - cbn [replicate digits_value]. rewrite IH, Nat2Z.inj_succ, Z.pow_succ_r by lia.
    unfold digit_value. simpl. lia.
Qed.

Lemma is_digit_value c : is_digit c = true -> 0 <= digit_value c <= 9.
Proof.
  unfold is_digit, digit_value. rewrite andb_true_iff, !N.leb_le. lia.
Qed.

Lemma is_digit_iff c : is_digit c = true <-> (48 <= c <= 57)%N.
Proof. unfold is_digit. rewrite andb_true_iff, !N.leb_le. done. Qed.

Lemma digits_value_nonneg ds : forall acc,
  Forall (fun c => is_digit c = true) ds -> 0 <= acc -> 0 <= digits_value acc ds.
Proof.
  induction ds as [|c ds IH]; intros acc H Hacc; [done|].
  apply Forall_cons in H as [H1 H2]. simpl. apply IH; [done|].
  apply is_digit_value in H1. lia.
Qed.

Lemma pos_digits_spec fuel : forall p acc,
  0 < p < 2 ^ Z.of_nat fuel ->
  exists ds, pos_digits fuel p acc = ds ++ acc /\ numeral ds p.
Proof.
  induction fuel as [|fuel IH]; intros p acc Hp.
  - simpl in Hp. lia.
  - cbn [pos_digits]. rewrite Nat2Z.inj_succ, Z.pow_succ_r in Hp by lia.
    assert (Hm : 0 <= p mod 10 < 10) by (apply Z.mod_pos_bound; lia).
    assert (Hd : is_digit (Z.to_N (p mod 10) + 48) = true) by (apply is_digit_iff; lia).
    assert (Hv : digit_value (Z.to_N (p mod 10) + 48) = p mod 10)
      by (unfold digit_value; lia).
    destruct (Z.ltb_spec p 10) as [Hlt|Hge].
    + exists [(Z.to_N (p mod 10) + 48)%N]. split; [done|]. split_and!.
      * by apply Forall_singleton.
      * simpl. rewrite Hv. rewrite Z.mod_small; lia.
      * eexists _, _. split; [done|]. rewrite Z.mod_small by lia. lia.
    + destruct (IH (p / 10) ((Z.to_N (p mod 10) + 48)%N :: acc)) as (ds & -> & Hds & Hval & c & ds' & -> & Hc).
      { split; [apply Z.div_str_pos; lia|]. apply Z.div_lt_upper_bound; lia. }
      exists ((c :: ds') ++ [(Z.to_N (p mod 10) + 48)%N]). split; [by rewrite <- app_assoc|].
      split_and!.
      * apply Forall_app. split; [done|by apply Forall_singleton].
      * rewrite digits_value_snoc, Hval, Hv. symmetry. apply Z.div_mod. lia.
      * by eexists _, _.
Qed.

Lemma pos_size_bound p : Zpos p < 2 ^ Z.of_nat (Pos.to_nat (Pos.size p)).
Proof.
  rewrite positive_nat_Z. pose proof (Pos.size_gt p) as H.
  apply Pos2Z.pos_lt_pos in H. by rewrite Pos2Z.inj_pow in H.
Qed.

Lemma int_repr_pos p : numeral (int_repr (Zpos p)) (Zpos p).
Proof.
  unfold int_repr.
  destruct (pos_digits_spec (Pos.to_nat (Pos.size p)) (Zpos p) []) as (ds & -> & H).
  { split; [lia|apply pos_size_bound]. }
  by rewrite app_nil_r.
Qed.

Lemma int_repr_neg p : int_repr (Zneg p) = 45%N :: int_repr (Zpos p).
Proof. done. Qed.

(** ** Reading digits *)

Lemma span_digits_app ds rest :
  Forall (fun c => is_digit c = true) ds -> not_digit_head rest ->
  span_digits (ds ++ rest) = (ds, rest).
Proof.
  intros Hds Hrest. induction Hds as [|c ds Hc Hds IH]; rewrite ?app_nil_l, <- ?app_comm_cons; cbn [span_digits].
  - destruct rest as [|c rest]; [done|]. cbn [span_digits]. simpl in Hrest.
    by rewrite Hrest.
  - by rewrite Hc, IH.
Qed.

(** ** Rounding a number the format holds *)

Lemma digits2_pos_size m : digits2_pos m = Pos.size m.
Proof. induction m as [m IH|m IH|]; simpl; by rewrite ?IH. Qed.

Lemma digits2_pos_bound m : Zpos m < 2 ^ Zpos (digits2_pos m).
Proof.
  rewrite digits2_pos_size. pose proof (Pos.size_gt m) as H.
  apply Pos2Z.pos_lt_pos in H. by rewrite Pos2Z.inj_pow in H.
Qed.

Lemma bounded_inv m e :
  bounded prec emax m e = true ->
  fexp prec emax (Zpos (digits2_pos m) + e) = e /\ e <= emax - prec /\
  Zpos m < 2 ^ 53.
Proof.
  unfold bounded, canonical_mantissa. rewrite andb_true_iff, Z.eqb_eq, Z.leb_le.
  intros [Hc He]. split_and!; [done|done|].
  pose proof (digits2_pos_bound m) as Hm.
  assert (Zpos (digits2_pos m) <= 53).
  { unfold fexp, SpecFloat.emin, prec, emax in Hc. lia. }
  eapply Z.lt_le_trans; [exact Hm|]. apply Z.pow_le_mono_r; lia.
Qed.

Lemma shr_1_double M :
  0 < M ->
  shr_1 {| shr_m := 2 * M; shr_r := false; shr_s := false |}
    = {| shr_m := M; shr_r := false; shr_s := false |}.
Proof. destruct M as [|q|q]; [lia|done|lia]. Qed.

Lemma iter_pos_shr_1 p : forall M,
  0 < M ->
  SpecFloat.iter_pos shr_1 p {| shr_m := M * 2 ^ Zpos p; shr_r := false; shr_s := false |}
    = {| shr_m := M; shr_r := false; shr_s := false |}.
Proof.
  induction p as [p IH|p IH|]; intros M HM; cbn [SpecFloat.iter_pos].
  - replace (M * 2 ^ Zpos p~1) with (2 * ((M * 2 ^ Zpos p) * 2 ^ Zpos p)).
    2:{ replace (Zpos p~1) with (Zpos p + Zpos p + 1) by (rewrite (Pos2Z.inj_xI p); lia).
        rewrite !Z.pow_add_r, Z.pow_1_r by lia. lia. }
    rewrite shr_1_double by (apply Z.mul_pos_pos; lia).
    rewrite IH by (apply Z.mul_pos_pos; lia). by apply IH.
  - replace (M * 2 ^ Zpos p~0) with ((M * 2 ^ Zpos p) * 2 ^ Zpos p).
    2:{ replace (Zpos p~0) with (Zpos p + Zpos p) by (rewrite (Pos2Z.inj_xO p); lia).
        rewrite !Z.pow_add_r by lia. lia. }
    rewrite IH by (apply Z.mul_pos_pos; lia). by apply IH.
  - rewrite Z.pow_1_r, Z.mul_comm. by apply shr_1_double.
Qed.

Lemma Zdigits2_double M : 0 < M -> Zdigits2 (2 * M) = Zdigits2 M + 1.
Proof.
  destruct M as [|q|q]; [lia| |lia]. intros _.
  change (Zpos (Pos.succ (digits2_pos q)) = Zpos (digits2_pos q) + 1). lia.
Qed.

Lemma Zdigits2_shift M t :
  0 < M -> 0 <= t -> Zdigits2 (M * 2 ^ t) = Zdigits2 M + t.
Proof.
  intros HM Ht. revert t Ht. apply natlike_ind.
  - rewrite Z.pow_0_r, Z.mul_1_r. lia.
  - intros t Ht IH. rewrite Z.pow_succ_r by done.
    replace (M * (2 * 2 ^ t)) with (2 * (M * 2 ^ t)) by lia.
    rewrite Zdigits2_double, IH by (apply Z.mul_pos_pos; lia). lia.
Qed.

(** A number the format holds, written with [t] more bits at the end,
    rounds to itself. *)
Lemma binary_round_aux_exact s m e t :
  bounded prec emax m e = true -> 0 <= t ->
  binary_round_aux prec emax s (Zpos m * 2 ^ t) (e - t) loc_Exact
    = S754_finite s m e.
Proof.
  intros Hb Ht. apply bounded_inv in Hb as (Hc & He & _).
  assert (Hfix : shr_fexp prec emax (Zpos m) e loc_Exact
                 = ({| shr_m := Zpos m; shr_r := false; shr_s := false |}, e)).
  { unfold shr_fexp. cbn [Zdigits2]. rewrite Hc, Z.sub_diag. done. }
  unfold binary_round_aux.
  assert (Hfirst : shr_fexp prec emax (Zpos m * 2 ^ t) (e - t) loc_Exact
                 = ({| shr_m := Zpos m; shr_r := false; shr_s := false |}, e)).
  { unfold shr_fexp. rewrite Zdigits2_shift by lia. cbn [Zdigits2].
    replace (Zpos (digits2_pos m) + t + (e - t)) with (Zpos (digits2_pos m) + e) by lia.
    rewrite Hc. replace (e - (e - t)) with t by lia.
    cbn [shr_record_of_loc]. destruct t as [|p|p]; [| |lia].
    - rewrite Z.mul_1_r, Z.sub_0_r. done.
    - cbn [shr]. rewrite iter_pos_shr_1 by lia. f_equal. lia. }
  rewrite Hfirst. cbn [shr_m loc_of_shr_record round_nearest_even].
  rewrite Hfix. cbn [shr_m].
  apply Z.leb_le in He. by rewrite He.
Qed.

Lemma round_exact_quotient neg num den m e :
  0 < num -> 0 < den -> bounded prec emax m e = true ->
  num * 2 ^ Z.max 0 (- e) = den * (Zpos m * 2 ^ Z.max 0 e) ->
  let s := Z.max 0 (64 + Z.log2 den - Z.log2 num) in
  binary_round_aux prec emax neg (num * 2 ^ s / den) (- s)
    (if num * 2 ^ s mod den =? 0 then loc_Exact
     else loc_Inexact (2 * (num * 2 ^ s mod den) ?= den))
    = S754_finite neg m e.
Proof.
  intros Hnum Hden Hb Heq s.
  pose proof (bounded_inv _ _ Hb) as (_ & _ & Hm).
  assert (Hs : 0 <= e + s /\ num * 2 ^ s = den * (Zpos m * 2 ^ (e + s))).
  { destruct (Z.le_gt_cases 0 e) as [He|He].
    - rewrite Z.max_l, Z.max_r, Z.pow_0_r, Z.mul_1_r in Heq by lia.
      split; [lia|]. rewrite Heq, Z.pow_add_r by lia. lia.
    - rewrite Z.max_r, Z.max_l, Z.pow_0_r, Z.mul_1_r in Heq by lia.
      assert (Hse : - e <= s).
      { destruct (Z.log2_spec num Hnum) as [Hn1 _].
        destruct (Z.log2_spec den Hden) as [_ Hd2].
        pose proof (Z.log2_nonneg num) as Hln. pose proof (Z.log2_nonneg den) as Hld.
        assert (Hpow : 2 ^ (Z.log2 num - e) < 2 ^ (Z.succ (Z.log2 den) + 53)).
        { replace (Z.log2 num - e) with (Z.log2 num + - e) by lia.
          rewrite !Z.pow_add_r by lia.
          apply Z.le_lt_trans with (num * 2 ^ (- e)).
          - apply Z.mul_le_mono_nonneg_r; [apply Z.pow_nonneg; lia|done].
          - rewrite Heq. apply Z.mul_lt_mono_nonneg; lia. }
        apply Z.pow_lt_mono_r_iff in Hpow; lia. }
      split; [lia|].
      replace s with (- e + (e + s)) at 1 by lia.
      rewrite Z.pow_add_r, Z.mul_assoc, Heq by lia. lia. }
  destruct Hs as [Ht Hn]. rewrite Hn.
  rewrite (Z.mul_comm den), Z.div_mul, Z.mod_mul by lia. cbn [Z.eqb].
  replace (- s) with (e - (e + s)) by lia.
  by apply binary_round_aux_exact.
Qed.

Lemma float_of_decimal_exact neg c p m e :
  0 < c -> bounded prec emax m e = true -> same_value c p m e ->
  float_of_decimal neg c p = SF2Prim (S754_finite neg m e).
Proof.
  intros Hc Hb Hv. unfold float_of_decimal.
  destruct (Z.eqb_spec c 0) as [->|_]; [lia|]. unfold same_value in Hv.
  destruct (Z.leb_spec 0 p) as [Hp|Hp]; f_equal.
  - apply round_exact_quotient; [|lia|done|].
    + apply Z.mul_pos_pos; [done|]. apply Z.pow_pos_nonneg; lia.
    + rewrite (Z.max_r 0 p), (Z.max_l 0 (- p)), Z.pow_0_r in Hv by lia. lia.
  - apply round_exact_quotient; [done| |done|].
    + apply Z.pow_pos_nonneg; lia.
    + rewrite (Z.max_l 0 p), (Z.max_r 0 (- p)), Z.pow_0_r in Hv by lia. lia.
Qed.

Lemma same_value_shift c k p m e :
  0 <= k -> same_value (c * 10 ^ k) p m e -> same_value c (p + k) m e.
Proof.
  unfold same_value. intros Hk Hv.
  assert (H10 : forall t, 0 <= t -> 0 < 10 ^ t) by (intros; apply Z.pow_pos_nonneg; lia).
  destruct (Z.le_gt_cases 0 p) as [Hp|Hp].
  - rewrite (Z.max_r 0 p), (Z.max_l 0 (- p)) in Hv by lia.
    rewrite (Z.max_r 0 (p + k)), (Z.max_l 0 (- (p + k))) by lia.
    rewrite Z.pow_add_r by lia. lia.
  - rewrite (Z.max_l 0 p), (Z.max_r 0 (- p)), Z.pow_0_r in Hv by lia.
    destruct (Z.le_gt_cases 0 (p + k)) as [Hpk|Hpk].
    + rewrite (Z.max_r 0 (p + k)), (Z.max_l 0 (- (p + k))), Z.pow_0_r by lia.
      apply (Z.mul_cancel_r _ _ (10 ^ (- p))); [pose proof (H10 (- p)); lia|].
      replace k with (p + k + - p) in Hv by lia.
      rewrite Z.pow_add_r in Hv by lia. lia.
    + rewrite (Z.max_l 0 (p + k)), (Z.max_r 0 (- (p + k))), Z.pow_0_r by lia.
      apply (Z.mul_cancel_r _ _ (10 ^ k)); [pose proof (H10 k); lia|].
      replace (- p) with (- (p + k) + k) in Hv by lia.
      rewrite Z.pow_add_r in Hv by lia. lia.
Qed.

(** ** Zeros at the end of the digits *)

Lemma rev_replicate {A} k (x : A) : rev (replicate k x) = replicate k x.
Proof.
  induction k as [|k IH]; [done|]. cbn [replicate rev]. rewrite IH.
  symmetry. apply replicate_cons_app.
Qed.

Lemma strip_trailing_zeros_rev_spec l :
  exists k l', l = replicate k 48%N ++ l' /\ strip_trailing_zeros_rev l = l' /\
               head l' <> Some 48%N.
Proof.
  induction l as [|c l (k & l' & -> & Hs & Hh)].
  - by exists 0%nat, [].
  - cbn [strip_trailing_zeros_rev]. destruct (N.eqb_spec c 48) as [->|Hc].
    + by exists (S k), l'.
    + exists 0%nat, (c :: replicate k 48%N ++ l'). split_and!; [done|done|].
      simpl. congruence.
Qed.

Lemma last_rev {A} (l : list A) : last (rev l) = head l.
Proof.
  destruct l as [|x l]; [done|]. cbn [rev head]. by rewrite last_snoc.
Qed.

(** The digits are the stripped digits and some zeros. *)
Lemma strip_trailing_zeros_spec ds :
  exists k S, ds = S ++ replicate k 48%N /\ strip_trailing_zeros ds = S /\
              last S <> Some 48%N.
Proof.
  destruct (strip_trailing_zeros_rev_spec (rev ds)) as (k & l' & Hl & Hs & Hh).
  exists k, (rev l'). unfold strip_trailing_zeros. rewrite Hs. split_and!; [|done|].
  - by rewrite <- (rev_involutive ds), Hl, rev_app_distr, rev_replicate.
  - by rewrite last_rev.
Qed.

Lemma strip_trailing_zeros_rev_head l :
  head l <> Some 48%N -> strip_trailing_zeros_rev l = l.
Proof.
  destruct l as [|c l]; [done|]. simpl. intros H.
  destruct (N.eqb_spec c 48) as [->|Hc]; done.
Qed.

Lemma strip_trailing_zeros_app S k :
  last S <> Some 48%N -> strip_trailing_zeros (S ++ replicate k 48%N) = S.
Proof.
  intros HS. unfold strip_trailing_zeros.
  rewrite rev_app_distr, rev_replicate.
  assert (H : strip_trailing_zeros_rev (replicate k 48%N ++ rev S) = rev S).
  { induction k as [|k IH]; [|done]. simpl.
    apply strip_trailing_zeros_rev_head. by rewrite <- last_rev, rev_involutive. }
  by rewrite H, rev_involutive.
Qed.

(** What [float_of_digits] rounds: the stripped digits, the zeros counted
    in the exponent. *)
Lemma float_of_digits_app neg S k e :
  last S <> Some 48%N ->
  float_of_digits neg (S ++ replicate k 48%N) e
    = float_of_decimal neg (digits_value 0 S) (e + Z.of_nat k).
Proof.
  intros HS. unfold float_of_digits. rewrite strip_trailing_zeros_app by done.
  f_equal. rewrite length_app, length_replicate. lia.
Qed.

Lemma float_of_digits_exact neg ds p m e :
  0 < digits_value 0 ds -> bounded prec emax m e = true ->
  same_value (digits_value 0 ds) p m e ->
  float_of_digits neg ds p = SF2Prim (S754_finite neg m e).
Proof.
  intros Hpos Hb Hv.
  destruct (strip_trailing_zeros_spec ds) as (k & S & -> & _ & HS).
  rewrite float_of_digits_app by done.
  rewrite digits_value_app, digits_value_zeros in *.
  apply float_of_decimal_exact; [|done|].
  - pose proof (Z.pow_pos_nonneg 10 (Z.of_nat k)). nia.
  - apply same_value_shift; [lia|done].
Qed.

(** ** The sign *)

Lemma SF2Prim_round_opp q e l :
  SF2Prim (binary_round_aux prec emax true q e l)
    = (- SF2Prim (binary_round_aux prec emax false q e l))%float.
Proof.
  unfold binary_round_aux.
  destruct (shr_fexp prec emax q e l) as [mrs' e'].
  destruct (shr_fexp prec emax _ e' loc_Exact) as [mrs'' e''].
  destruct (shr_m mrs'') as [|m|m]; [reflexivity| |reflexivity].
  destruct (e'' <=? emax - prec); reflexivity.
Qed.

Lemma float_of_decimal_opp c p :
  float_of_decimal true c p = (- float_of_decimal false c p)%float.
Proof.
  unfold float_of_decimal. destruct (c =? 0); [reflexivity|].
  destruct (0 <=? p); apply SF2Prim_round_opp.
Qed.

Lemma float_of_digits_opp ds p :
  float_of_digits true ds p = (- float_of_digits false ds p)%float.
Proof. apply float_of_decimal_opp. Qed.

(** A negative number is the opposite of its absolute value. *)
Lemma opp_abs_negative x m e :
  Prim2SF x = S754_finite true m e -> (- abs x)%float = x.
Proof.
  intros Hx. apply Prim2SF_inj. by rewrite opp_spec, abs_spec, Hx.
Qed.

Lemma abs_positive x m e :
  Prim2SF x = S754_finite false m e -> abs x = x.
Proof.
  intros Hx. apply Prim2SF_inj. by rewrite abs_spec, Hx.
Qed.

(** ** Comparing *)

Lemma float_eqb_finite y x m e :
  Prim2SF x = S754_finite false m e -> (y =? x)%float = true -> y = x.
Proof.
  intros Hx. rewrite FloatAxioms.eqb_spec, Hx. intros H. apply Prim2SF_inj. rewrite Hx.
  unfold SFeqb, SFcompare in H.
  destruct (Prim2SF y) as [s'|s'| |s' m' e']; try done;
    destruct s'; simpl in H; try done.
  destruct (e' ?= e) eqn:He; try done. apply Z.compare_eq in He.
  destruct (PosDef.Pos.compare_cont Eq m' m) eqn:Hm; try done.
  apply Pos.compare_eq in Hm. by subst.
Qed.

Lemma float_eqb_zero_finite x m e :
  Prim2SF x = S754_finite false m e ->
  (SF2Prim (S754_zero false) =? x)%float = false.
Proof. intros Hx. rewrite FloatAxioms.eqb_spec, Hx. reflexivity. Qed.

(** ** The search for the shortest decimal *)

Lemma scaled_floor_eq num den k :
  scaled_floor num den k
    = let a := num * 10 ^ Z.max 0 (- k) in
      let b := den * 10 ^ Z.max 0 k in
      (a / b, if a mod b =? 0 then loc_Exact else loc_Inexact (2 * (a mod b) ?= b)).
Proof.
  unfold scaled_floor. destruct (Z.leb_spec 0 k).
  - by rewrite (Z.max_l 0 (- k)), (Z.max_r 0 k), Z.pow_0_r, Z.mul_1_r by lia.
  - by rewrite (Z.max_r 0 (- k)), (Z.max_l 0 k), Z.pow_0_r, Z.mul_1_r by lia.
Qed.

Section shortest.
Variables (x : float) (m : positive) (e : Z).
Hypothesis Hx : Prim2SF x = S754_finite false m e.

Local Abbreviation num := (Zpos m * 2 ^ Z.max 0 e).
Local Abbreviation den := (2 ^ Z.max 0 (- e)).

Lemma finite_bounded : bounded prec emax m e = true.
Proof. pose proof (Prim2SF_valid x) as H. by rewrite Hx in H. Qed.

Lemma num_den_pos : 0 < num /\ 0 < den.
Proof.
  split; [apply Z.mul_pos_pos; [done|]|]; apply Z.pow_pos_nonneg; lia.
Qed.

(** Where the division leaves nothing, the decimal is [x]. *)
Lemma scaled_floor_exact k lo :
  scaled_floor num den k = (lo, loc_Exact) ->
  0 < lo /\ float_of_digits false (int_repr lo) k = x.
Proof.
  rewrite scaled_floor_eq. cbv zeta.
  destruct num_den_pos as [Hnum Hden].
  set (a := num * 10 ^ Z.max 0 (- k)). set (b := den * 10 ^ Z.max 0 k).
  assert (Ha : 0 < a) by (apply Z.mul_pos_pos; [done|apply Z.pow_pos_nonneg; lia]).
  assert (Hb : 0 < b) by (apply Z.mul_pos_pos; [done|apply Z.pow_pos_nonneg; lia]).
  destruct (Z.eqb_spec (a mod b) 0) as [Hr|]; [|done]. intros [= Hlo].
  assert (Hab : a = b * lo).
  { rewrite <- Hlo. apply Z.div_exact; lia. }
  assert (Hpos : 0 < lo) by nia.
  split; [done|].
  destruct lo as [|lo|lo]; try lia.
  destruct (int_repr_pos lo) as (Hds & Hval & _).
  rewrite <- (SF2Prim_Prim2SF x), Hx.
  apply float_of_digits_exact; rewrite ?Hval; [done|apply finite_bounded|].
  unfold same_value. unfold a, b in Hab. lia.
Qed.

(** With as many digits as the binary exponent asks for, the division
    leaves nothing. *)
Lemma scaled_floor_enough k :
  Z.max 0 (- e) <= - k -> exists lo, scaled_floor num den k = (lo, loc_Exact).
Proof.
  intros Hk. rewrite scaled_floor_eq. cbv zeta. eexists.
  rewrite (Z.max_r 0 (- k)), (Z.max_l 0 k), Z.pow_0_r, Z.mul_1_r by lia.
  replace (- k) with (Z.max 0 (- e) + (- k - Z.max 0 (- e))) by lia.
  replace 10 with (2 * 5) by done.
  rewrite Z.pow_mul_l, Z.pow_add_r by lia.
  replace (num * (den * 2 ^ (- k - Z.max 0 (- e)) * 5 ^ (Z.max 0 (- e) + (- k - Z.max 0 (- e)))))
    with ((num * 2 ^ (- k - Z.max 0 (- e)) * 5 ^ (Z.max 0 (- e) + (- k - Z.max 0 (- e)))) * den)
    by lia.
  rewrite Z.mod_mul by (destruct num_den_pos; lia). done.
Qed.

Lemma ok_positive c p :
  0 <= c -> (float_of_digits false (int_repr c) p =? x)%float = true ->
  0 < c /\ float_of_digits false (int_repr c) p = x.
Proof.
  intros Hc Hok. split; [|by eapply float_eqb_finite].
  destruct c as [|c|c]; [|lia|lia].
  change (float_of_digits false (int_repr 0) p) with (SF2Prim (S754_zero false)) in Hok.
  by rewrite (float_eqb_zero_finite _ _ _ Hx) in Hok.
Qed.

Lemma shortest_decimal_reads_back fuel : forall k n,
  Z.max 0 (- e) <= n + Z.of_nat fuel - k ->
  let '(c, p) := shortest_decimal fuel x num den k n in
  0 < c /\ float_of_digits false (int_repr c) p = x.
Proof.
  induction fuel as [|fuel IH]; intros k n Hn; cbn [shortest_decimal].
  - destruct (scaled_floor_enough (k - n)) as [lo Hlo]; [lia|].
    rewrite Hlo. by apply scaled_floor_exact.
  - destruct (scaled_floor num den (k - n)) as [lo [|c]] eqn:Hlo;
      [by apply scaled_floor_exact|].
    assert (Hlo0 : 0 <= lo).
    { rewrite scaled_floor_eq in Hlo. cbv zeta in Hlo. injection Hlo as <- _.
      destruct num_den_pos. apply Z.div_pos.
      - apply Z.mul_nonneg_nonneg; [lia|apply Z.pow_nonneg; lia].
      - apply Z.mul_pos_pos; [lia|apply Z.pow_pos_nonneg; lia]. }
    destruct (float_of_digits false (int_repr lo) (k - n) =? x)%float eqn:Hok1;
    destruct (float_of_digits false (int_repr (lo + 1)) (k - n) =? x)%float eqn:Hok2;
      cbn [andb].
    + destruct c; [destruct (Z.even lo)| |]; apply ok_positive; done || lia.
    + apply ok_positive; done.
    + apply ok_positive; done || lia.
    + apply IH. lia.
Qed.
End shortest.

(** ** Reading a number back *)

Lemma delimited_not_digit rest : delimited rest -> not_digit_head rest.
Proof. destruct rest as [|c rest]; [done|]. by intros [->| ->]. Qed.

Lemma span_digits_nil_head c s : is_digit c = false -> span_digits (c :: s) = ([], c :: s).
Proof. intros H. cbn [span_digits]. by rewrite H. Qed.

Lemma drop_1_cons {A} (c : A) s : drop 1 (c :: s) = s.
Proof. simpl. apply drop_0. Qed.

Lemma match_exp_text txt expo rest :
  exp_part txt expo -> delimited rest -> match_exp (txt ++ rest) = (expo, rest).
Proof.
  intros [|ds Hds Hne|ds Hds Hne] Hrest.
  - destruct rest as [|c rest]; [done|]. by destruct Hrest as [-> | ->].
  - unfold match_exp. cbn [Datatypes.app starts_with N.eqb Pos.eqb orb drop].
    change (starts_with 45 (43%N :: ds ++ rest)) with false.
    change (starts_with 43 (43%N :: ds ++ rest)) with true. rewrite drop_0.
    rewrite span_digits_app by auto using delimited_not_digit.
    by destruct ds.
  - unfold match_exp. cbn [Datatypes.app starts_with N.eqb Pos.eqb orb drop].
    change (starts_with 45 (45%N :: ds ++ rest)) with true. rewrite drop_0.
    rewrite span_digits_app by auto using delimited_not_digit.
    by destruct ds.
Qed.

Lemma exp_part_head txt expo rest :
  exp_part txt expo -> delimited rest ->
  not_digit_head (txt ++ rest) /\ starts_with 46 (txt ++ rest) = false.
Proof.
  intros [|ds Hds Hne|ds Hds Hne] Hrest; [|done|done].
  destruct rest as [|c rest]; [done|]. by destruct Hrest as [-> | ->].
Qed.

Lemma match_frac_text frac_ds tail :
  digits frac_ds -> not_digit_head tail -> starts_with 46 tail = false ->
  match_frac (frac_text frac_ds ++ tail) = (frac_ds, tail).
Proof.
  intros Hds Htail H46. destruct frac_ds as [|c ds].
  - unfold match_frac. simpl. by rewrite H46.
  - unfold match_frac, frac_text.
    change (starts_with 46 ((46%N :: c :: ds) ++ tail)) with true.
    rewrite <- app_comm_cons, drop_1_cons.
    rewrite (span_digits_app (c :: ds)) by done. done.
Qed.

Lemma frac_text_head frac_ds tail :
  not_digit_head tail -> not_digit_head (frac_text frac_ds ++ tail).
Proof. by destruct frac_ds. Qed.

Lemma match_integer_text int_ds tail :
  int_part int_ds -> not_digit_head tail ->
  match_integer (int_ds ++ tail) = Some (int_ds, tail).
Proof.
  intros [->|(z & Hds & _ & c & ds & -> & Hc)] Htail; [done|].
  unfold match_integer. cbn [Datatypes.app]. apply N.eqb_neq in Hc. rewrite Hc.
  apply Forall_cons in Hds as [Hd Hds]. rewrite Hd.
  by rewrite span_digits_app.
Qed.

Lemma int_part_head int_ds tail :
  int_part int_ds -> starts_with 45 (int_ds ++ tail) = false.
Proof.
  intros [->|(z & Hds & _ & c & ds & -> & Hc)]; [done|].
  apply Forall_cons in Hds as [Hd Hds]. apply is_digit_iff in Hd.
  simpl. apply N.eqb_neq. lia.
Qed.

Lemma number_value_float neg int_ds frac_ds expo :
  frac_ds <> [] \/ expo <> None ->
  number_value neg int_ds frac_ds expo
    = JFloat (float_of_digits neg (int_ds ++ frac_ds)
                (default 0 expo - Z.of_nat (length frac_ds))).
Proof. destruct frac_ds, expo; try done. by intros [|]. Qed.

(** The text of a number reads as the number. *)
Lemma match_number_text (neg : bool) int_ds frac_ds txt expo rest :
  int_part int_ds -> digits frac_ds -> exp_part txt expo -> delimited rest ->
  match_number ((if neg then [45%N] else []) ++ int_ds ++ frac_text frac_ds ++ txt ++ rest)
    = Some (number_value neg int_ds frac_ds expo, rest).
Proof.
  intros Hint Hfrac Hexp Hrest.
  destruct (exp_part_head _ _ _ Hexp Hrest) as [Hh1 Hh2].
  unfold match_number.
  assert (Hneg : starts_with 45 ((if neg then [45%N] else []) ++ int_ds ++ frac_text frac_ds ++ txt ++ rest) = neg).
  { destruct neg; [done|]. rewrite app_nil_l. by apply int_part_head. }
  rewrite Hneg.
  assert (Hs1 : (if neg then drop 1 ((if neg then [45%N] else []) ++ int_ds ++ frac_text frac_ds ++ txt ++ rest)
                 else (if neg then [45%N] else []) ++ int_ds ++ frac_text frac_ds ++ txt ++ rest)
                = int_ds ++ frac_text frac_ds ++ txt ++ rest).
  { destruct neg; [|done]. apply (drop_1_cons 45%N). }
  rewrite Hs1.
  rewrite match_integer_text by auto using frac_text_head. cbn [mbind option_bind].
  rewrite match_frac_text by done.
  rewrite (match_exp_text _ _ _ Hexp Hrest).
  by destruct frac_ds, expo.
Qed.

Lemma is_prefix_head_ne n needle c t :
  n <> c -> is_prefix (n :: needle) (c :: t) = false.
Proof. intros H. cbn [is_prefix]. apply N.eqb_neq in H. by rewrite H. Qed.

(** Where the text of a value starts with a digit or a minus sign, the
    scanner reads a number. *)
Lemma scan_once_number fuel c t r :
  is_digit c = true \/ c = 45%N ->
  match_number (c :: t) = Some r ->
  scan_once (S fuel) (c :: t) = Some r.
Proof.
  intros Hc Hm.
  assert (Hr : (48 <= c <= 57)%N \/ c = 45%N).
  { destruct Hc as [Hc|Hc]; [left; by apply is_digit_iff|by right]. }
  cbn [scan_once].
  assert (H34 : (c =? 34)%N = false) by (apply N.eqb_neq; lia).
  assert (H123 : (c =? 123)%N = false) by (apply N.eqb_neq; lia).
  assert (H91 : (c =? 91)%N = false) by (apply N.eqb_neq; lia).
  rewrite H34, H123, H91.
  change (str "null") with (110%N :: str "ull").
  change (str "true") with (116%N :: str "rue").
  change (str "false") with (102%N :: str "alse").
  rewrite !is_prefix_head_ne by lia. by rewrite Hm.
Qed.

Lemma sign_text_head (neg : bool) c t :
  is_digit c = true ->
  exists c' t', (if neg then [45%N] else []) ++ c :: t = c' :: t' /\
                (is_digit c' = true \/ c' = 45%N).
Proof.
  intros Hc. destruct neg.
  - exists 45%N, (c :: t). auto.
  - exists c, t. auto.
Qed.

(** ** [int] *)

Lemma int_repr_reads_back fuel z rest :
  delimited rest -> scan_once (S fuel) (int_repr z ++ rest) = Some (JInt z, rest).
Proof.
  intros Hrest.
  assert (Hm : exists (neg : bool) int_ds,
    int_repr z = (if neg then [45%N] else []) ++ int_ds /\ int_part int_ds /\
    (if neg then - digits_value 0 int_ds else digits_value 0 int_ds) = z).
  { destruct z as [|p|p].
    - exists false, [48%N]. split_and!; [done|by left|done].
    - exists false, (int_repr (Zpos p)). split_and!; [done|right; eexists; apply int_repr_pos|].
      apply int_repr_pos.
    - exists true, (int_repr (Zpos p)). split_and!; [done|right; eexists; apply int_repr_pos|].
      destruct (int_repr_pos p) as (_ & -> & _). done. }
  destruct Hm as (neg & int_ds & Heq & Hint & Hval).
  pose proof (match_number_text neg int_ds [] [] None rest Hint
                ltac:(constructor) exp_none Hrest) as Hnum.
  cbn [frac_text number_value] in Hnum. rewrite !app_nil_l in Hnum.
  rewrite Hval, app_assoc, <- Heq in Hnum.
  assert (Hhead : exists c t, int_repr z ++ rest = c :: t /\ (is_digit c = true \/ c = 45%N)).
  { rewrite Heq. destruct Hint as [->|(z' & Hds & _ & c & ds & -> & Hc)].
    - rewrite <- app_assoc. by apply sign_text_head.
    - apply Forall_cons in Hds as [Hd _].
      rewrite <- app_assoc. by apply sign_text_head. }
  destruct Hhead as (c & t & Hct & Hc). rewrite Hct in *.
  by apply scan_once_number.
Qed.

(** ** [float] *)

Lemma frac_text_nonempty l : l <> [] -> frac_text l = 46%N :: l.
Proof. by destruct l. Qed.

Lemma float_of_digits_leading_zeros neg j S e :
  S <> [] -> last S <> Some 48%N ->
  float_of_digits neg (replicate j 48%N ++ S) e
    = float_of_decimal neg (digits_value 0 S) e.
Proof.
  intros Hne HS.
  pose proof (float_of_digits_app neg (replicate j 48%N ++ S) 0 e) as H.
  rewrite app_nil_r in H. rewrite H.
  - rewrite digits_value_app, digits_value_zeros. f_equal. simpl. lia.
  - rewrite last_app. destruct (last S) eqn:HlS; [done|].
    apply last_None in HlS. done.
Qed.

Lemma float_of_digits_plain neg S e :
  last S <> Some 48%N ->
  float_of_digits neg S e = float_of_decimal neg (digits_value 0 S) e.
Proof.
  intros HS. pose proof (float_of_digits_app neg S 0 e HS) as H.
  rewrite app_nil_r in H. rewrite H. f_equal. simpl. lia.
Qed.

Lemma digits_zeros k : digits (replicate k 48%N).
Proof. by apply Forall_replicate. Qed.

Lemma zeros_eq n : zeros n = replicate (Z.to_nat n) 48%N.
Proof. done. Qed.

(** The exponent [repr] prints. *)
Lemma exp_text e :
  e <> 0 ->
  exp_part (str "e" ++ (if e <? 0 then str "-" else str "+")
              ++ (if Z.abs e <? 10 then 48%N :: int_repr (Z.abs e) else int_repr (Z.abs e)))
           (Some e).
Proof.
  intros He.
  assert (Habs : exists p, Z.abs e = Zpos p) by (destruct e; [done|eauto|eauto]).
  destruct Habs as [p Hp]. rewrite Hp.
  destruct (int_repr_pos p) as (Hds & Hval & c & ds & Hcd & Hc).
  set (txt := if Zpos p <? 10 then 48%N :: int_repr (Zpos p) else int_repr (Zpos p)).
  assert (Htxt : digits txt /\ txt <> [] /\ digits_value 0 txt = Zpos p).
  { unfold txt. destruct (Zpos p <? 10).
    - split_and!; [by constructor|done|done].
    - split_and!; [done|by rewrite Hcd|done]. }
  destruct Htxt as (Hd & Hne & Hv).
  destruct (Z.ltb_spec e 0).
  - replace (Some e) with (Some (- digits_value 0 txt)) by (f_equal; lia).
    by apply exp_minus.
  - replace (Some e) with (Some (digits_value 0 txt)) by (f_equal; lia).
    by apply exp_plus.
Qed.

Lemma exp_format_reads_back (neg : bool) S e rest :
  significand S -> delimited rest -> e <> 0 ->
  match_number
    ((if neg then [45%N] else [])
     ++ (match S with
         | [d] => [d]
         | d :: ds' => d :: 46%N :: ds'
         | [] => []
         end
         ++ str "e" ++ (if e <? 0 then str "-" else str "+")
         ++ (if Z.abs e <? 10 then 48%N :: int_repr (Z.abs e) else int_repr (Z.abs e)))
     ++ rest)
    = Some (JFloat (float_of_decimal neg (digits_value 0 S)
                      (e + 1 - Z.of_nat (length S))), rest).
Proof.
  intros (Hds & (c & S' & -> & Hc) & Hlast) Hrest He.
  pose proof (exp_text e He) as Hexp.
  set (txt := str "e" ++ (if e <? 0 then str "-" else str "+")
              ++ (if Z.abs e <? 10 then 48%N :: int_repr (Z.abs e) else int_repr (Z.abs e)))
    in *.
  apply Forall_cons in Hds as [Hd Hds].
  assert (Hint : int_part [c]).
  { right. exists (digits_value 0 [c]). split_and!; [by constructor|done|by exists c, []]. }
  pose proof (match_number_text neg [c] S' txt (Some e) rest Hint Hds Hexp Hrest) as H.
  rewrite number_value_float in H by (by right).
  rewrite float_of_digits_plain in H by done.
  destruct S' as [|c2 S''].
  - cbn [frac_text] in H. rewrite app_nil_l in H.
    rewrite <- app_assoc. rewrite H.
    replace (e + 1 - Z.of_nat (length [c])) with (default 0 (Some e) - Z.of_nat (@length N []));
      [done|change (default 0 (Some e)) with e; cbn [length]; lia].
  - cbn [frac_text] in H.
    replace ((c :: 46%N :: c2 :: S'') ++ txt) with ([c] ++ (46%N :: c2 :: S'') ++ txt) by done.
    rewrite <- !app_assoc in *. rewrite H.
    replace (e + 1 - Z.of_nat (length (c :: c2 :: S'')))
      with (default 0 (Some e) - Z.of_nat (length (c2 :: S'')));
      [done|change (default 0 (Some e)) with e; cbn [length]; lia].
Qed.

Lemma format_repr_reads_back (neg : bool) S decpt rest :
  significand S -> delimited rest ->
  match_number ((if neg then [45%N] else []) ++ format_repr S decpt ++ rest)
    = Some (JFloat (float_of_decimal neg (digits_value 0 S)
                      (decpt - Z.of_nat (length S))), rest).
Proof.
  intros Hsig Hrest. pose proof Hsig as (Hds & (c & S' & HS & Hc) & Hlast).
  assert (Hne : S <> []) by (by rewrite HS).
  assert (Hc' : is_digit c = true) by (rewrite HS in Hds; by apply Forall_cons in Hds as [? _]).
  unfold format_repr.
  destruct (Z.ltb_spec (-4) decpt) as [H4|H4];
    [destruct (Z.leb_spec decpt 16) as [H16|H16]|]; cbn [andb].
  - destruct (Z.leb_spec decpt 0) as [H0|H0];
      [|destruct (Z.leb_spec (Z.of_nat (length S)) decpt) as [Hn|Hn]].
    + (* 0.000ddd *)
      pose proof (match_number_text neg [48%N] (zeros (- decpt) ++ S) [] None rest) as H.
      rewrite frac_text_nonempty in H by (intros [_ ?]%app_eq_nil; done).
      rewrite app_nil_l in H.
      replace ((str "0." ++ zeros (- decpt) ++ S) ++ rest)
        with ([48%N] ++ (46%N :: zeros (- decpt) ++ S) ++ rest)
        by (change (str "0.") with [48%N; 46%N]; simpl; by rewrite <- ?app_assoc).
      rewrite H; [|by left|by apply Forall_app_2; [apply digits_zeros|]|constructor|done].
      rewrite number_value_float by (left; intros [_ ?]%app_eq_nil; done).
      do 2 f_equal.
      change ([48%N] ++ zeros (- decpt) ++ S)
        with (replicate (Datatypes.S (Z.to_nat (- decpt))) 48%N ++ S).
      rewrite float_of_digits_leading_zeros by done. f_equal.
      rewrite length_app, zeros_eq, length_replicate. cbn [default]. f_equal. lia.
    + (* ddd000.0 *)
      pose proof (match_number_text neg (S ++ zeros (decpt - Z.of_nat (length S)))
                    [48%N] [] None rest) as H.
      cbn [frac_text] in H. rewrite app_nil_l in H.
      replace ((S ++ zeros (decpt - Z.of_nat (length S)) ++ str ".0") ++ rest)
        with ((S ++ zeros (decpt - Z.of_nat (length S))) ++ [46%N; 48%N] ++ rest)
        by (change (str ".0") with [46%N; 48%N]; by rewrite <- ?app_assoc).
      rewrite H; [| |by constructor|constructor|done].
      2:{ right. eexists. split_and!; [by apply Forall_app_2; [|apply digits_zeros]|done|].
          exists c, (S' ++ zeros (decpt - Z.of_nat (length S))). by rewrite HS. }
      rewrite number_value_float by (by left). do 2 f_equal.
      rewrite <- app_assoc.
      change (zeros (decpt - Z.of_nat (length S)) ++ [48%N])
        with (replicate (Z.to_nat (decpt - Z.of_nat (length S))) 48%N ++ replicate 1 48%N).
      rewrite <- replicate_add, float_of_digits_app by done. f_equal.
      cbn [default length]. f_equal. lia.
    + (* dd.ddd *)
      set (d := Z.to_nat decpt).
      assert (Hd : (0 < d < length S)%nat) by lia.
      pose proof (match_number_text neg (take d S) (drop d S) [] None rest) as H.
      rewrite frac_text_nonempty in H.
      2:{ intros Hnil. apply (f_equal length) in Hnil. rewrite length_drop in Hnil.
          simpl in Hnil. lia. }
      rewrite app_nil_l in H.
      replace ((take d S ++ str "." ++ drop d S) ++ rest)
        with (take d S ++ (46%N :: drop d S) ++ rest)
        by (change (str ".") with [46%N]; simpl; by rewrite <- ?app_assoc).
      rewrite H; [| |by apply Forall_drop|constructor|done].
      2:{ right. eexists. split_and!; [by apply Forall_take|done|].
          exists c, (take (pred d) S'). rewrite HS. destruct d; [lia|done]. }
      rewrite number_value_float.
      2:{ left. intros Hnil. apply (f_equal length) in Hnil. rewrite length_drop in Hnil.
          simpl in Hnil. lia. }
      rewrite take_drop, float_of_digits_plain by done. do 3 f_equal.
      rewrite length_drop. cbn [default]. f_equal. lia.
  - cbv zeta. rewrite exp_format_reads_back by (done || lia).
    by replace (decpt - 1 + 1) with decpt by lia.
  - cbv zeta. rewrite exp_format_reads_back by (done || lia).
    by replace (decpt - 1 + 1) with decpt by lia.
Qed.

Lemma format_repr_head S decpt :
  significand S -> exists c t, format_repr S decpt = c :: t /\ is_digit c = true.
Proof.
  intros (Hds & (c & S' & -> & Hc) & Hlast).
  apply Forall_cons in Hds as [Hd Hds]. unfold format_repr.
  destruct ((-4 <? decpt) && (decpt <=? 16)).
  - destruct (Z.leb_spec decpt 0) as [H0|H0]; [by eexists _, _|].
    destruct (Z.leb_spec (Z.of_nat (length (c :: S'))) decpt) as [Hn|Hn];
      [by eexists _, _|].
    destruct (Z.to_nat decpt) as [|d] eqn:Hdec; [lia|by eexists _, _].
  - cbv zeta. destruct S'; by eexists _, _.
Qed.

Lemma float_repr_finite x s m e :
  Prim2SF x = S754_finite s m e ->
  exists S decpt,
    float_repr x = (if s then [45%N] else []) ++ format_repr S decpt /\
    significand S /\
    float_of_decimal false (digits_value 0 S) (decpt - Z.of_nat (length S)) = abs x.
Proof.
  intros Hx.
  assert (Habs : Prim2SF (abs x) = S754_finite false m e) by (by rewrite abs_spec, Hx).
  unfold float_repr. rewrite Hx.
  assert (Hnd : (if 0 <=? e then (Zpos m * 2 ^ e, 1) else (Zpos m, 2 ^ (- e)))
                = (Zpos m * 2 ^ Z.max 0 e, 2 ^ Z.max 0 (- e))).
  { destruct (Z.leb_spec 0 e).
    - by rewrite (Z.max_r 0 e), (Z.max_l 0 (- e)) by lia.
    - by rewrite (Z.max_l 0 e), (Z.max_r 0 (- e)), Z.pow_0_r, Z.mul_1_r by lia. }
  rewrite Hnd. cbv zeta.
  set (k := decpt_of _ _).
  pose proof (shortest_decimal_reads_back (abs x) m e Habs
                (Z.to_nat (k + Z.max 0 (- e))) k 1 ltac:(lia)) as Hsd.
  destruct (shortest_decimal _ _ _ _ _ _) as [c p]. destruct Hsd as [Hc Hread].
  destruct c as [|c|c]; try lia.
  destruct (int_repr_pos c) as (Hds & _ & c0 & D' & HD & Hc0).
  destruct (strip_trailing_zeros_spec (int_repr (Zpos c))) as (j & S & HS & Hstrip & Hlast).
  rewrite Hstrip. exists S, (Z.of_nat (length (int_repr (Zpos c))) + p).
  split; [by destruct s|]. split.
  - rewrite HS in Hds. apply Forall_app in Hds as [HdS _]. split_and!; [done| |done].
    destruct S as [|c1 S1].
    + rewrite app_nil_l in HS. rewrite HS in HD.
      destruct j; [done|]. injection HD as <- _. done.
    + exists c1, S1. split; [done|]. rewrite HS in HD. injection HD as -> _. done.
  - rewrite <- Hread. rewrite HS at 2. rewrite float_of_digits_app by done.
    f_equal. rewrite HS at 1. rewrite length_app, length_replicate. lia.
Qed.

Lemma float_repr_reads_back fuel x s m e rest :
  Prim2SF x = S754_finite s m e -> delimited rest ->
  scan_once (Datatypes.S fuel) (float_repr x ++ rest) = Some (JFloat x, rest).
Proof.
  intros Hx Hrest.
  destruct (float_repr_finite x s m e Hx) as (S & decpt & -> & Hsig & Hval).
  pose proof (format_repr_reads_back s S decpt rest Hsig Hrest) as Hnum.
  assert (Hfx : float_of_decimal s (digits_value 0 S) (decpt - Z.of_nat (length S)) = x).
  { destruct s.
    - rewrite float_of_decimal_opp, Hval. by eapply opp_abs_negative.
    - rewrite Hval. by eapply abs_positive. }
  rewrite Hfx in Hnum.
  destruct (format_repr_head S decpt Hsig) as (c & t & Hct & Hc).
  rewrite <- app_assoc.
  destruct (sign_text_head s c (t ++ rest) Hc) as (c' & t' & Heq & Hc').
  rewrite Hct in *. rewrite <- app_comm_cons in *. rewrite Heq in *.
  by apply scan_once_number.
Qed.

Lemma SFcompare_refl_finite s m e :
  SFcompare (S754_finite s m e) (S754_finite s m e) = Some Eq.
Proof.
  unfold SFcompare. rewrite Z.compare_refl.
  change (PosDef.Pos.compare_cont Eq m m) with (Pos.compare m m).
  rewrite Pos.compare_refl. by destruct s.
Qed.

(** Which text the encoder writes for a [float]. *)
Lemma floatstr_cases x :
  match Prim2SF x with
  | S754_nan => floatstr x = str "NaN"
  | S754_infinity false => floatstr x = str "Infinity"
  | S754_infinity true => floatstr x = str "-Infinity"
  | _ => floatstr x = float_repr x
  end.
Proof.
  unfold floatstr, is_nan. rewrite !FloatAxioms.eqb_spec.
  change (Prim2SF infinity) with (S754_infinity false).
  change (Prim2SF neg_infinity) with (S754_infinity true).
  destruct (Prim2SF x) as [s|s| |s m e] eqn:Hx.
  - by destruct s.
  - by destruct s.
  - done.
  - unfold SFeqb at 1. rewrite SFcompare_refl_finite. by destruct s.
Qed.

Lemma floatstr_reads_back fuel x rest :
  delimited rest ->
  scan_once (S fuel) (floatstr x ++ rest) = Some (JFloat x, rest).
Proof.
  intros Hrest. pose proof (floatstr_cases x) as Hstr.
  pose proof (SF2Prim_Prim2SF x) as Hx.
  destruct (Prim2SF x) as [s|s| |s m e] eqn:Hsf.
  - rewrite Hstr. unfold float_repr. rewrite Hsf.
    pose proof (match_number_text s [48%N] [48%N] [] None rest
                  ltac:(by left) ltac:(by constructor) exp_none Hrest) as Hnum.
    rewrite number_value_float in Hnum by (by left).
    assert (Hz : float_of_digits s ([48%N] ++ [48%N]) (default 0 None - Z.of_nat (length [48%N])) = x).
    { rewrite <- Hx. by destruct s. }
    rewrite Hz in Hnum.
    destruct s; [apply (scan_once_number fuel 45%N)|apply (scan_once_number fuel 48%N)];
      auto; exact Hnum.
  - destruct s; rewrite Hstr, <- Hx; cbn; by rewrite drop_0.
  - rewrite Hstr, <- Hx. cbn. by rewrite drop_0.
  - rewrite Hstr. by eapply float_repr_reads_back.
Qed.

(** ** Escapes *)

Lemma hex_value_digit d : (d < 16)%N -> hex_value (hex_digit d) = Some d.
Proof.
  intros Hd. unfold hex_digit, hex_value.
  destruct (N.ltb_spec d 10).
  - replace ((48 <=? d + 48) && (d + 48 <=? 57))%N with true.
    + f_equal. lia.
    + symmetry. apply andb_true_iff. split; apply N.leb_le; lia.
  - replace ((48 <=? d + 87) && (d + 87 <=? 57))%N with false.
    2:{ symmetry. apply andb_false_iff. right. apply N.leb_gt. lia. }
    replace ((97 <=? d + 87) && (d + 87 <=? 102))%N with true.
    + f_equal. lia.
    + symmetry. apply andb_true_iff. split; apply N.leb_le; lia.
Qed.

Lemma decode_hex4 c t :
  (c < 65536)%N -> decode_uXXXX (hex4 c ++ t) = Some (c, t).
Proof.
  intros Hc. unfold hex4, decode_uXXXX. cbn [Datatypes.app].
  rewrite !hex_value_digit by (apply N.mod_upper_bound; lia).
  cbn [mbind option_bind]. do 2 f_equal.
  zify. Z.to_euclidean_division_equations. lia.
Qed.

Lemma lor_shiftl_small a y :
  (y < 1024)%N -> N.lor (N.shiftl a 10) y = (a * 1024 + y)%N.
Proof.
  intros Hy.
  assert (Hland : N.land (N.shiftl a 10) y = 0%N).
  { apply N.bits_inj. intros n. rewrite N.land_spec, N.bits_0.
    destruct (N.lt_ge_cases n 10) as [Hn|Hn].
    - by rewrite N.shiftl_spec_low.
    - rewrite <- (N.mod_small y (2 ^ 10)) by done.
      rewrite N.mod_pow2_bits_high by done. apply andb_false_r. }
  rewrite <- N.lxor_lor, <- N.add_nocarry_lxor by done.
  by rewrite N.shiftl_mul_pow2.
Qed.

Lemma land_low_ten x : N.land x 1023 = (x mod 1024)%N.
Proof. apply (N.land_ones x 10). Qed.

Lemma high_half_eq c :
  (0x10000 <= c < 0x110000)%N -> high_half c = (0xD800 + (c - 0x10000) / 1024)%N.
Proof.
  intros Hc. unfold high_half. rewrite land_low_ten, N.shiftr_div_pow2.
  change (2 ^ 10)%N with 1024%N.
  assert (Hq : ((c - 65536) / 1024 < 1024)%N).
  { apply N.Div0.div_lt_upper_bound; lia. }
  rewrite N.mod_small by done.
  change 55296%N with (N.shiftl 54 10). rewrite lor_shiftl_small by done.
  change (N.shiftl 54 10) with 55296%N. lia.
Qed.

Lemma low_half_eq c :
  (0x10000 <= c)%N -> low_half c = (0xDC00 + (c - 0x10000) mod 1024)%N.
Proof.
  intros Hc. unfold low_half. rewrite land_low_ten.
  assert (Hq : ((c - 65536) mod 1024 < 1024)%N) by (apply N.mod_upper_bound; lia).
  change 56320%N with (N.shiftl 55 10). rewrite lor_shiftl_small by done.
  change (N.shiftl 55 10) with 56320%N. lia.
Qed.

Lemma halves_join c :
  (0x10000 <= c < 0x110000)%N ->
  is_high_surrogate (high_half c) = true /\ is_low_surrogate (low_half c) = true /\
  (high_half c < 65536)%N /\ (low_half c < 65536)%N /\
  join_surrogates (high_half c) (low_half c) = c.
Proof.
  intros Hc. rewrite high_half_eq, low_half_eq by lia.
  assert (Hq : ((c - 65536) / 1024 < 1024)%N) by (apply N.Div0.div_lt_upper_bound; lia).
  assert (Hr : ((c - 65536) mod 1024 < 1024)%N) by (apply N.mod_upper_bound; lia).
  pose proof (N.div_mod (c - 65536) 1024 ltac:(lia)) as Hdm.
  unfold is_high_surrogate, is_low_surrogate, join_surrogates.
  set (q := ((c - 65536) / 1024)%N) in *. set (r := ((c - 65536) mod 1024)%N) in *.
  split_and!.
  - apply andb_true_iff. split; apply N.leb_le; lia.
  - apply andb_true_iff. split; apply N.leb_le; lia.
  - lia.
  - lia.
  - replace (55296 + q - 55296)%N with q by lia.
    replace (56320 + r - 56320)%N with r by lia.
    rewrite lor_shiftl_small by done. lia.
Qed.

(** ** Reading a string back *)

Lemma surrogate_pair_lone uni t :
  is_high_surrogate uni = false \/ next_ok t -> surrogate_pair uni t = Some (uni, t).
Proof.
  unfold surrogate_pair. intros [->|[->|(u & r & -> & Hu)]]; [done|by rewrite andb_false_r|].
  cbn [mbind option_bind]. rewrite Hu. by destruct (_ && _).
Qed.

Lemma scanstring_escape_u fuel c t :
  (c < 65536)%N ->
  scanstring (S fuel) (escape_u c ++ t)
    = '(ch, rest3) ← surrogate_pair c t;
      '(str, rest4) ← scanstring fuel rest3;
      Some (ch :: str, rest4).
Proof.
  intros Hc. unfold escape_u. cbn [Datatypes.app scanstring].
  change (92 =? 34)%N with false. change (92 =? 92)%N with true.
  change (117 =? 117)%N with true. cbv iota.
  by rewrite decode_hex4.
Qed.

Lemma scanstring_raw fuel c t :
  c <> 34%N -> c <> 92%N -> (32 <= c)%N ->
  scanstring (S fuel) (c :: t)
    = '(str, rest) ← scanstring fuel t; Some (c :: str, rest).
Proof.
  intros H34 H92 H32. cbn [scanstring].
  apply N.eqb_neq in H34, H92. rewrite H34, H92.
  apply N.ltb_ge in H32. by rewrite H32.
Qed.

Lemma is_high_surrogate_range c :
  is_high_surrogate c = true -> (0xD800 <= c <= 0xDBFF)%N.
Proof. unfold is_high_surrogate. rewrite andb_true_iff, !N.leb_le. done. Qed.

Lemma is_low_surrogate_range c :
  is_low_surrogate c = true -> (0xDC00 <= c <= 0xDFFF)%N.
Proof. unfold is_low_surrogate. rewrite andb_true_iff, !N.leb_le. done. Qed.

Lemma not_low_surrogate c : (c < 0xDC00 \/ 0xDFFF < c)%N -> is_low_surrogate c = false.
Proof.
  intros H. unfold is_low_surrogate. apply andb_false_iff.
  destruct H; [left; apply N.leb_gt|right; apply N.leb_gt]; lia.
Qed.

Lemma not_high_surrogate c : (c < 0xD800 \/ 0xDBFF < c)%N -> is_high_surrogate c = false.
Proof.
  intros H. unfold is_high_surrogate. apply andb_false_iff.
  destruct H; [left; apply N.leb_gt|right; apply N.leb_gt]; lia.
Qed.

(** One character of the string. *)
Lemma scanstring_char (b : bool) fuel c t :
  (b = true -> (c < 0x110000)%N /\ (is_high_surrogate c = true -> next_ok t)) ->
  scanstring (S fuel) (encode_char b c ++ t)
    = '(str, rest) ← scanstring fuel t; Some (c :: str, rest).
Proof.
  intros Hb. unfold encode_char, escape_short.
  destruct (N.eqb_spec c 34) as [->|H34]; [done|].
  destruct (N.eqb_spec c 92) as [->|H92]; [done|].
  destruct (N.eqb_spec c 10) as [->|H10]; [done|].
  destruct (N.eqb_spec c 13) as [->|H13]; [done|].
  destruct (N.eqb_spec c 9) as [->|H9]; [done|].
  destruct (N.eqb_spec c 8) as [->|H8]; [done|].
  destruct (N.eqb_spec c 12) as [->|H12]; [done|].
  destruct b.
  - destruct Hb as [Hc Hnext]; [done|].
    destruct (N.leb_spec 32 c) as [H32|H32];
      [destruct (N.leb_spec c 126) as [H126|H126]|]; cbn [andb].
    + by apply scanstring_raw.
    + destruct (N.ltb_spec c 65536) as [Hbmp|Hbmp].
      * rewrite scanstring_escape_u by done.
        rewrite surrogate_pair_lone; [done|].
        destruct (is_high_surrogate c); auto.
      * destruct (halves_join c) as (Hh & Hl & Hh' & Hl' & Hj); [lia|].
        rewrite <- app_assoc, scanstring_escape_u by done.
        unfold surrogate_pair. rewrite Hh.
        change (is_prefix [92%N; 117%N] (escape_u (low_half c) ++ t)) with true.
        cbn [andb]. unfold escape_u. cbn [Datatypes.app drop].
        rewrite ?drop_0, decode_hex4 by done.
        cbn [mbind option_bind]. by rewrite Hl, Hj.
    + replace (c <? 65536)%N with true by (symmetry; apply N.ltb_lt; lia).
      rewrite scanstring_escape_u by lia.
      rewrite surrogate_pair_lone; [done|]. left. apply not_high_surrogate. lia.
  - destruct (N.ltb_spec c 32) as [H32|H32].
    + rewrite scanstring_escape_u by lia.
      rewrite surrogate_pair_lone; [done|]. left. apply not_high_surrogate. lia.
    + by apply scanstring_raw.
Qed.

Lemma encode_next_ok s rest :
  good_string s = true -> heads_low s = false ->
  next_ok (concat (map (encode_char true) s) ++ 34%N :: rest).
Proof.
  destruct s as [|c s']; [by left|]. cbn [good_string heads_low map concat].
  rewrite !andb_true_iff, N.ltb_lt. intros [[Hc _] _] Hlow.
  rewrite <- app_assoc. unfold encode_char, escape_short.
  destruct (N.eqb_spec c 34) as [->|H34]; [by left|].
  destruct (N.eqb_spec c 92) as [->|H92]; [by left|].
  destruct (N.eqb_spec c 10) as [->|H10]; [by left|].
  destruct (N.eqb_spec c 13) as [->|H13]; [by left|].
  destruct (N.eqb_spec c 9) as [->|H9]; [by left|].
  destruct (N.eqb_spec c 8) as [->|H8]; [by left|].
  destruct (N.eqb_spec c 12) as [->|H12]; [by left|].
  destruct ((32 <=? c)%N && (c <=? 126)%N).
  - left. by apply is_prefix_head_ne.
  - destruct (N.ltb_spec c 65536) as [Hbmp|Hbmp].
    + right. exists c. eexists. unfold escape_u. cbn [Datatypes.app drop].
      rewrite ?drop_0, decode_hex4 by done. done.
    + destruct (halves_join c) as (Hh & Hl & Hh' & Hl' & Hj); [lia|].
      right. exists (high_half c). eexists. unfold escape_u. cbn [Datatypes.app drop].
      rewrite ?drop_0, <- app_assoc, decode_hex4 by done. split; [done|].
      apply is_high_surrogate_range in Hh. apply not_low_surrogate. lia.
Qed.

Lemma scanstring_encode (b : bool) s rest :
  (b = true -> good_string s = true) ->
  forall fuel, (length s < fuel)%nat ->
  scanstring fuel (concat (map (encode_char b) s) ++ 34%N :: rest) = Some (s, rest).
Proof.
  induction s as [|c s' IH]; intros Hgood fuel Hfuel.
  - destruct fuel; [simpl in Hfuel; lia|done].
  - destruct fuel as [|fuel]; [simpl in Hfuel; lia|].
    cbn [map concat]. rewrite <- app_assoc.
    assert (Hs' : b = true -> good_string s' = true).
    { intros Hb. specialize (Hgood Hb). cbn [good_string] in Hgood.
      by apply andb_true_iff in Hgood as [_ ?]. }
    rewrite scanstring_char.
    + rewrite IH by (done || (simpl in Hfuel; lia)). done.
    + intros Hb. specialize (Hgood Hb). cbn [good_string] in Hgood.
      rewrite !andb_true_iff, N.ltb_lt, negb_true_iff in Hgood.
      destruct Hgood as [[Hc Hpair] Hg]. split; [done|]. intros Hhigh.
      rewrite Hhigh in Hpair. subst b. by apply encode_next_ok.
Qed.

Lemma encode_char_nonempty b c : (1 <= length (encode_char b c))%nat.
Proof.
  unfold encode_char. destruct (escape_short c) as [e|] eqn:He.
  - unfold escape_short in He. repeat case_match; simplify_eq; simpl; lia.
  - repeat case_match; rewrite ?length_app; simpl; lia.
Qed.

Lemma encode_chars_length b s :
  (length s <= length (concat (map (encode_char b) s)))%nat.
Proof.
  induction s as [|c s IH]; [done|]. cbn [map concat length].
  rewrite length_app. pose proof (encode_char_nonempty b c). lia.
Qed.

Lemma encode_string_reads_back (b : bool) fuel s rest :
  (b = true -> good_string s = true) ->
  scan_once (S fuel) (encode_string b s ++ rest) = Some (JStr s, rest).
Proof.
  intros Hgood. unfold encode_string. cbn [scan_once Datatypes.app].
  change (34 =? 34)%N with true. cbv iota.
  rewrite <- app_assoc. cbn [Datatypes.app].
  rewrite scanstring_encode; [done|done|].
  rewrite length_app. pose proof (encode_chars_length b s). simpl. lia.
Qed.

(** ** Reading a document back *)

Lemma skip_ws_no_ws s : no_ws_head s -> skip_ws s = s.
Proof. destruct s as [|c s]; [done|]. simpl. by intros ->. Qed.

Lemma skip_ws_spaces k s : no_ws_head s -> skip_ws (replicate k 32%N ++ s) = s.
Proof. intros Hs. induction k as [|k IH]; [by apply skip_ws_no_ws|done]. Qed.

Lemma skip_ws_newline_indent level s :
  no_ws_head s -> skip_ws (newline_indent level ++ s) = s.
Proof. intros Hs. unfold newline_indent. cbn. by apply skip_ws_spaces. Qed.

Ltac in_list := repeat first [apply list_elem_of_here | apply list_elem_of_further].

Lemma value_head_props c :
  value_head c -> is_ws c = false /\ c <> 93%N /\ c <> 125%N /\ c <> 0xFEFF%N.
Proof.
  intros [Hc|Hc].
  - apply is_digit_iff in Hc. unfold is_ws.
    split_and!; [|lia..]. repeat (apply orb_false_iff; split); apply N.eqb_neq; lia.
  - repeat (apply elem_of_cons in Hc as [->|Hc]; [by split_and!|]).
    by apply elem_of_nil in Hc.
Qed.

Lemma int_repr_head z : exists c t, int_repr z = c :: t /\ value_head c.
Proof.
  destruct z as [|p|p].
  - exists 48%N, []. split; [done|by left].
  - destruct (int_repr_pos p) as (Hds & _ & c & ds & Heq & _).
    exists c, ds. split; [done|]. left. rewrite Heq in Hds.
    by apply Forall_cons in Hds as [? _].
  - eexists _, _. split; [done|]. right. in_list.
Qed.

Lemma floatstr_head x : exists c t, floatstr x = c :: t /\ value_head c.
Proof.
  pose proof (floatstr_cases x) as Hstr.
  destruct (Prim2SF x) as [s|s| |s m e] eqn:Hsf.
  - rewrite Hstr. unfold float_repr. rewrite Hsf.
    destruct s; eexists _, _; (split; [done|]); [right; in_list|by left].
  - destruct s; rewrite Hstr; eexists _, _; (split; [done|]); right; in_list.
  - rewrite Hstr; eexists _, _; (split; [done|]); right; in_list.
  - rewrite Hstr. destruct (float_repr_finite x s m e Hsf) as (S & decpt & -> & Hsig & _).
    destruct (format_repr_head S decpt Hsig) as (c & t & -> & Hc).
    destruct (sign_text_head s c t Hc) as (c' & t' & -> & [Hc'| ->]).
    + eexists _, _. split; [done|by left].
    + eexists _, _. split; [done|]. right. in_list.
Qed.

Lemma encode_head b level j : exists c t, encode b level j = c :: t /\ value_head c.
Proof.
  destruct j as [|[]|z|x|s|[|y xs]|[|[k v] kvs]];
    try (eexists _, _; (split; [done|]); right; in_list).
  - apply int_repr_head.
  - apply floatstr_head.
Qed.

Lemma encode_no_ws b level j s : no_ws_head (encode b level j ++ s).
Proof.
  destruct (encode_head b level j) as (c & t & -> & Hc).
  by apply value_head_props in Hc as [? _].
Qed.

(** ** Objects without a repeated key *)

Lemma dict_set_fresh {V} (kvs : list (pystr * V)) k v :
  k ∉ map fst kvs -> dict_set kvs k v = kvs ++ [(k, v)].
Proof.
  induction kvs as [|[k' v'] kvs IH]; [done|]. cbn [map fst dict_set].
  intros [Hne Hnotin]%not_elem_of_cons.
  rewrite str_eqb_neq by done. by rewrite IH.
Qed.

Lemma fold_dict_set_fresh {V} (pairs acc : list (pystr * V)) :
  NoDup (map fst (acc ++ pairs)) ->
  fold_left (fun d kv => dict_set d kv.1 kv.2) pairs acc = acc ++ pairs.
Proof.
  revert acc. induction pairs as [|[k v] pairs IH]; intros acc Hnd.
  - by rewrite app_nil_r.
  - cbn [fold_left fst snd]. rewrite dict_set_fresh.
    + rewrite IH; [by rewrite <- app_assoc|]. by rewrite <- app_assoc.
    + rewrite map_app in Hnd. apply NoDup_app in Hnd as (_ & Hdisj & _).
      intros Hin. apply (Hdisj k Hin). cbn. apply list_elem_of_here.
Qed.

Lemma dict_of_pairs_nodup {V} (pairs : list (pystr * V)) :
  NoDup (map fst pairs) -> dict_of_pairs pairs = pairs.
Proof. intros Hnd. unfold dict_of_pairs. by rewrite fold_dict_set_fresh. Qed.

(** ** Arrays and objects *)

Lemma delimited_newline level s : delimited (newline_indent level ++ s).
Proof. by left. Qed.

Lemma array_items_reads_back b level scan close rest xs : forall x g,
  (forall y r, y ∈ x :: xs -> delimited r ->
     scan (encode b (S level) y ++ r) = Some (y, r)) ->
  (length xs < g)%nat ->
  array_items scan g
    (encode b (S level) x ++ arr_items b level xs
       ++ newline_indent close ++ 93%N :: rest)
    = Some (x :: xs, rest).
Proof.
  induction xs as [|x' xs IH]; intros x g Hscan Hg.
  - destruct g as [|g]; [simpl in Hg; lia|]. cbn [array_items].
    unfold arr_items. cbn [map concat Datatypes.app].
    rewrite Hscan by (apply list_elem_of_here || apply delimited_newline).
    cbn [mbind option_bind]. rewrite skip_ws_newline_indent by done.
    change (starts_with 93 (93%N :: rest)) with true. cbv iota.
    by rewrite drop_1_cons.
  - destruct g as [|g]; [simpl in Hg; lia|]. cbn [array_items].
    unfold arr_items. cbn [map concat]. fold (arr_items b level xs).
    rewrite <- !app_assoc. rewrite <- app_comm_cons.
    rewrite Hscan by (apply list_elem_of_here || by right).
    cbn [mbind option_bind]. cbn [skip_ws is_ws N.eqb Pos.eqb orb].
    change (starts_with 93 (44%N :: ?[t])) with false.
    cbn [starts_with N.eqb Pos.eqb]. rewrite drop_1_cons.
    rewrite <- app_assoc, skip_ws_newline_indent by apply encode_no_ws.
    rewrite IH; [done| |simpl in Hg; lia].
    intros y r Hy. apply Hscan. by apply list_elem_of_further.
Qed.

Lemma key_reads_back (b : bool) k t :
  good_string k = true ->
  scanstring (length (encode_string b k ++ t)) (drop 1 (encode_string b k ++ t))
    = Some (k, t).
Proof.
  intros Hk. unfold encode_string. rewrite <- app_comm_cons, drop_1_cons.
  rewrite <- app_assoc. cbn [Datatypes.app].
  apply scanstring_encode; [done|].
  cbn [length]. rewrite !length_app. pose proof (encode_chars_length b k). lia.
Qed.

Lemma object_items_reads_back b level scan close rest kvs : forall k v g,
  (forall k' y r, (k', y) ∈ (k, v) :: kvs -> delimited r ->
     scan (encode b (S level) y ++ r) = Some (y, r)) ->
  (forall k' y, (k', y) ∈ (k, v) :: kvs -> good_string k' = true) ->
  (length kvs < g)%nat ->
  object_items scan g
    (encode_string b k ++ str ": " ++ encode b (S level) v ++ obj_items b level kvs
       ++ newline_indent close ++ 125%N :: rest)
    = Some ((k, v) :: kvs, rest).
Proof.
  induction kvs as [|[k' v'] kvs IH]; intros k v g Hscan Hkeys Hg.
  - destruct g as [|g]; [simpl in Hg; lia|]. cbn [object_items].
    assert (Hq : starts_with 34 (encode_string b k ++ str ": " ++ encode b (S level) v
                   ++ obj_items b level [] ++ newline_indent close ++ 125%N :: rest) = true)
      by done.
    rewrite Hq, key_reads_back by (eapply Hkeys, list_elem_of_here).
    cbn [mbind option_bind].
    change (str ": ") with [58%N; 32%N]. cbn [Datatypes.app skip_ws is_ws N.eqb Pos.eqb orb].
    cbn [starts_with N.eqb Pos.eqb]. rewrite drop_1_cons.
    cbn [skip_ws is_ws N.eqb Pos.eqb orb]. rewrite skip_ws_no_ws by apply encode_no_ws.
    unfold obj_items. cbn [map concat Datatypes.app].
    rewrite (Hscan k) by (apply list_elem_of_here || apply delimited_newline).
    cbn [mbind option_bind]. rewrite skip_ws_newline_indent by done.
    change (starts_with 125 (125%N :: rest)) with true. cbv iota.
    by rewrite drop_1_cons.
  - destruct g as [|g]; [simpl in Hg; lia|]. cbn [object_items].
    assert (Hq : starts_with 34 (encode_string b k ++ str ": " ++ encode b (S level) v
                   ++ obj_items b level ((k', v') :: kvs)
                   ++ newline_indent close ++ 125%N :: rest) = true)
      by done.
    rewrite Hq, key_reads_back by (eapply Hkeys, list_elem_of_here).
    cbn [mbind option_bind].
    change (str ": ") with [58%N; 32%N]. cbn [Datatypes.app skip_ws is_ws N.eqb Pos.eqb orb].
    cbn [starts_with N.eqb Pos.eqb]. rewrite drop_1_cons.
    cbn [skip_ws is_ws N.eqb Pos.eqb orb]. rewrite skip_ws_no_ws by apply encode_no_ws.
    unfold obj_items. cbn [map concat]. fold (obj_items b level kvs).
    rewrite <- !app_assoc. rewrite <- app_comm_cons.
    rewrite (Hscan k) by (apply list_elem_of_here || by right).
    cbn [mbind option_bind]. cbn [skip_ws is_ws N.eqb Pos.eqb orb].
    cbn [starts_with N.eqb Pos.eqb]. rewrite drop_1_cons.
    rewrite <- app_assoc, skip_ws_newline_indent.
    2:{ unfold encode_string. done. }
    rewrite <- !app_assoc.
    rewrite IH; [done| | |simpl in Hg; lia].
    + intros k0 y r Hy. apply (Hscan k0). by apply list_elem_of_further.
    + intros k0 y Hy. apply (Hkeys k0 y). by apply list_elem_of_further.
Qed.

Lemma arr_items_length b level xs :
  (length xs <= length (arr_items b level xs))%nat /\
  forall y, y ∈ xs -> (length (encode b (S level) y) < length (arr_items b level xs))%nat.
Proof.
  induction xs as [|x xs [IH1 IH2]]; [split; [done|by intros y ?%elem_of_nil]|].
  unfold arr_items in *. cbn [map concat]. rewrite !length_app. cbn [length].
  rewrite !length_app. split; [lia|]. intros y [->|Hy]%elem_of_cons; [lia|].
  specialize (IH2 y Hy). lia.
Qed.

Lemma obj_items_length b level kvs :
  (length kvs <= length (obj_items b level kvs))%nat /\
  forall k y, (k, y) ∈ kvs ->
    (length (encode b (S level) y) < length (obj_items b level kvs))%nat.
Proof.
  induction kvs as [|[k v] kvs [IH1 IH2]]; [split; [done|by intros k y ?%elem_of_nil]|].
  unfold obj_items in *. cbn [map concat]. rewrite !length_app. cbn [length].
  rewrite !length_app. split; [lia|]. intros k' y [[= -> ->]|Hy]%elem_of_cons; [lia|].
  specialize (IH2 k' y Hy). lia.
Qed.

Lemma starts_with_value_head c' b level j s :
  c' = 93%N \/ c' = 125%N -> starts_with c' (encode b level j ++ s) = false.
Proof.
  intros Hc'. destruct (encode_head b level j) as (c & t & -> & Hc).
  apply value_head_props in Hc as (_ & H93 & H125 & _).
  cbn. apply N.eqb_neq. by destruct Hc' as [-> | ->].
Qed.

(** The text of a tree reads as the tree, whatever follows it. *)
Lemma encode_reads_back b j :
  wf_json j ->
  forall level fuel rest,
    delimited rest -> (length (encode b level j) <= fuel)%nat ->
    scan_once fuel (encode b level j ++ rest) = Some (j, rest).
Proof.
  induction j as [|b0|z|x|s|xs IHxs|kvs IHkvs] using json_ind';
    intros Hwf level fuel rest Hrest Hfuel;
    (destruct fuel as [|fuel];
     [match type of Hfuel with
      | (length (encode _ _ ?j) <= _)%nat =>
          destruct (encode_head b level j) as (c & t & Heq & _)
      end; rewrite Heq in Hfuel; simpl in Hfuel; lia|]).
  - cbn. by rewrite drop_0.
  - destruct b0; cbn; by rewrite drop_0.
  - by apply int_repr_reads_back.
  - by apply floatstr_reads_back.
  - apply encode_string_reads_back. by inversion Hwf.
  - inversion Hwf as [| | | | |xs' Hall|]; subst xs'.
    destruct xs as [|x xs]; [done|].
    cbn [encode] in *. fold (arr_items b level xs) in *.
    rewrite <- app_comm_cons. cbn [scan_once].
    change (91 =? 34)%N with false. change (91 =? 123)%N with false.
    change (91 =? 91)%N with true. cbv iota.
    rewrite <- !app_assoc. cbn [Datatypes.app].
    rewrite skip_ws_newline_indent by apply encode_no_ws.
    rewrite starts_with_value_head by auto.
    cbn [length] in Hfuel. rewrite !length_app in Hfuel. cbn [length] in Hfuel.
    destruct (arr_items_length b level xs) as [Hlen1 Hlen2].
    rewrite array_items_reads_back; [done| |lia].
    intros y r Hy Hr.
    rewrite Forall_forall in IHxs, Hall.
    apply IHxs; [done|by apply Hall|done|].
    apply elem_of_cons in Hy as [->|Hy]; [lia|]. specialize (Hlen2 y Hy). lia.
  - inversion Hwf as [| | | | | |kvs' Hnd Hall]; subst kvs'.
    destruct kvs as [|[k v] kvs]; [done|].
    cbn [encode] in *. fold (obj_items b level kvs) in *.
    rewrite <- app_comm_cons. cbn [scan_once].
    change (123 =? 34)%N with false. change (123 =? 123)%N with true. cbv iota.
    rewrite <- !app_assoc. cbn [Datatypes.app].
    rewrite skip_ws_newline_indent by done.
    assert (Hq : forall t, starts_with 125 (encode_string b k ++ t) = false) by done.
    rewrite Hq.
    cbn [length] in Hfuel. rewrite !length_app in Hfuel. cbn [length] in Hfuel.
    destruct (obj_items_length b level kvs) as [Hlen1 Hlen2].
    rewrite Forall_forall in IHkvs, Hall.
    rewrite object_items_reads_back.
    + cbn [mbind option_bind]. by rewrite dict_of_pairs_nodup.
    + intros k' y r Hy Hr. apply (IHkvs (k', y) Hy); [by apply (Hall (k', y))|done|].
      cbn [snd].
      apply elem_of_cons in Hy as [[= -> ->]|Hy]; [lia|].
      specialize (Hlen2 k' y Hy). lia.
    + intros k' y Hy. by apply (Hall (k', y)).
    + lia.
Qed.

Lemma json_dumps_reads_back b j :
  wf_json j -> json_loads (json_dumps b j) = Some j.
Proof.
  intros Hwf. unfold json_loads, json_dumps.
  destruct (encode_head b 0 j) as (c & t & Heq & Hc).
  pose proof (value_head_props c Hc) as (Hws & _ & _ & Hbom).
  assert (Hb : starts_with 65279 (encode b 0 j) = false).
  { rewrite Heq. cbn. by apply N.eqb_neq. }
  rewrite Hb. rewrite skip_ws_no_ws by (by rewrite Heq).
  pose proof (encode_reads_back b j Hwf 0 (S (length (encode b 0 j))) []
                ltac:(done) ltac:(lia)) as Hscan.
  rewrite app_nil_r in Hscan. by rewrite Hscan.
Qed.

(** ** What the decoder builds *)

Lemma is_scalar_range c :
  is_scalar c = true -> (c < 0xD800 \/ 0xDFFF < c < 0x110000)%N.
Proof.
  unfold is_scalar. rewrite orb_true_iff, andb_true_iff, !N.ltb_lt. tauto.
Qed.

Lemma Forall_suffix {A} (P : A -> Prop) (l1 l2 : list A) :
  l1 `suffix_of` l2 -> Forall P l2 -> Forall P l1.
Proof. intros [k ->] H. by apply Forall_app in H as [_ ?]. Qed.

Lemma skip_ws_suffix s : skip_ws s `suffix_of` s.
Proof.
  induction s as [|c s IH]; [done|]. simpl. destruct (is_ws c); [|done].
  by apply suffix_cons_r.
Qed.

Lemma span_digits_suffix s ds rest : span_digits s = (ds, rest) -> rest `suffix_of` s.
Proof.
  revert ds rest. induction s as [|c s IH]; intros ds rest; cbn [span_digits].
  - by intros [= <- <-].
  - destruct (is_digit c); [|by intros [= <- <-]].
    destruct (span_digits s) as [ds' rest']. intros [= <- <-].
    apply suffix_cons_r. by eapply IH.
Qed.

Lemma match_integer_suffix s ds rest :
  match_integer s = Some (ds, rest) -> rest `suffix_of` s.
Proof.
  unfold match_integer. destruct s as [|c s]; [done|].
  destruct (c =? 48)%N; [intros [= <- <-]; by apply suffix_cons_r|].
  destruct (is_digit c); [|done].
  destruct (span_digits s) as [ds' rest'] eqn:Hsp. intros [= <- <-].
  apply suffix_cons_r. by eapply span_digits_suffix.
Qed.

Lemma match_frac_suffix s ds rest : match_frac s = (ds, rest) -> rest `suffix_of` s.
Proof.
  unfold match_frac. destruct (starts_with 46 s); [|by intros [= <- <-]].
  destruct (span_digits (drop 1 s)) as [[|d ds'] rest'] eqn:Hsp; intros [= <- <-]; [done|].
  etrans; [by eapply span_digits_suffix|apply suffix_drop].
Qed.

Lemma match_exp_suffix s e rest : match_exp s = (e, rest) -> rest `suffix_of` s.
Proof.
  unfold match_exp. destruct (starts_with 101 s || starts_with 69 s); [|by intros [= <- <-]].
  set (s' := drop 1 s).
  assert (Hs' : s' `suffix_of` s) by apply suffix_drop.
  destruct (if starts_with 45 s' then (true, drop 1 s')
            else if starts_with 43 s' then (false, drop 1 s') else (false, s'))
    as [neg s''] eqn:Hsign.
  assert (Hs'' : s'' `suffix_of` s).
  { destruct (starts_with 45 s'); [|destruct (starts_with 43 s')];
      injection Hsign as <- <-; try done; (etrans; [apply suffix_drop|done]). }
  destruct (span_digits s'') as [[|d ds'] rest'] eqn:Hsp; intros [= <- <-]; [done|].
  etrans; [by eapply span_digits_suffix|done].
Qed.

Lemma match_number_inv s j rest :
  match_number s = Some (j, rest) ->
  rest `suffix_of` s /\ ((exists z, j = JInt z) \/ (exists x, j = JFloat x)).
Proof.
  unfold match_number.
  set (s1 := if starts_with 45 s then drop 1 s else s).
  assert (Hs1 : s1 `suffix_of` s).
  { unfold s1. destruct (starts_with 45 s); [apply suffix_drop|done]. }
  destruct (match_integer s1) as [[int_ds s2]|] eqn:Hint; [|done].
  cbn [mbind option_bind].
  destruct (match_frac s2) as [frac_ds s3] eqn:Hfrac.
  destruct (match_exp s3) as [exp s4] eqn:Hexp.
  assert (Hs4 : s4 `suffix_of` s).
  { etrans; [by eapply match_exp_suffix|]. etrans; [by eapply match_frac_suffix|].
    etrans; [by eapply match_integer_suffix|done]. }
  destruct frac_ds, exp; intros [= <- <-]; eauto.
Qed.

(** *** Strings *)

Lemma hex_value_bound c d : hex_value c = Some d -> (d < 16)%N.
Proof.
  unfold hex_value.
  destruct (N.leb_spec 48 c), (N.leb_spec c 57); cbn [andb]; try (intros [= <-]; lia);
  destruct (N.leb_spec 97 c), (N.leb_spec c 102); cbn [andb]; try (intros [= <-]; lia);
  destruct (N.leb_spec 65 c), (N.leb_spec c 70); cbn [andb]; try (intros [= <-]; lia);
  done.
Qed.

Lemma decode_uXXXX_inv s u rest :
  decode_uXXXX s = Some (u, rest) -> (u < 65536)%N /\ rest `suffix_of` s.
Proof.
  unfold decode_uXXXX. destruct s as [|c1 [|c2 [|c3 [|c4 s]]]]; try done.
  destruct (hex_value c1) as [d1|] eqn:H1; [|done].
  destruct (hex_value c2) as [d2|] eqn:H2; [|done].
  destruct (hex_value c3) as [d3|] eqn:H3; [|done].
  destruct (hex_value c4) as [d4|] eqn:H4; [|done].
  cbn [mbind option_bind]. intros [= <- <-].
  apply hex_value_bound in H1, H2, H3, H4. split; [lia|].
  by do 4 apply suffix_cons_r.
Qed.

Lemma join_surrogates_range hi lo :
  is_high_surrogate hi = true -> is_low_surrogate lo = true ->
  (0x10000 <= join_surrogates hi lo < 0x110000)%N.
Proof.
  intros Hh%is_high_surrogate_range Hl%is_low_surrogate_range.
  unfold join_surrogates. rewrite lor_shiftl_small by lia. lia.
Qed.

Lemma surrogate_pair_inv uni rest ch rest3 :
  surrogate_pair uni rest = Some (ch, rest3) ->
  rest3 `suffix_of` rest /\
  ((ch = uni /\ rest3 = rest /\ ~ (is_high_surrogate uni = true /\ low_escape rest)) \/
   (0x10000 <= ch < 0x110000)%N).
Proof.
  unfold surrogate_pair.
  destruct (is_high_surrogate uni) eqn:Hhigh; cbn [andb];
    [|intros [= <- <-]; split; [done|left; split_and!; [done|done|by intros [? _]]]].
  destruct (is_prefix [92%N; 117%N] rest) eqn:Hpre;
    [|intros [= <- <-]; split; [done|left; split_and!; [done|done|]];
      intros [_ [Hp _]]; congruence].
  destruct (decode_uXXXX (drop 2 rest)) as [[uni2 rest']|] eqn:Hdec; [|done].
  cbn [mbind option_bind].
  destruct (is_low_surrogate uni2) eqn:Hlow; intros [= <- <-].
  - split.
    + apply decode_uXXXX_inv in Hdec as [_ Hsuf]. etrans; [done|apply suffix_drop].
    + right. by apply join_surrogates_range.
  - split; [done|]. left. split_and!; [done|done|].
    intros [_ (_ & u & r & Hdec' & Hu)]. congruence.
Qed.

Lemma unescape_inv e ch :
  unescape e = Some ch -> (ch < 128)%N.
Proof. unfold unescape. repeat case_match; intros [= <-]; lia. Qed.

Lemma good_string_cons c x :
  (c < 0x110000)%N -> (is_high_surrogate c = true -> heads_low x = false) ->
  good_string x = true -> good_string (c :: x) = true.
Proof.
  intros Hc Hpair Hx. cbn [good_string]. rewrite Hx, andb_true_r.
  apply andb_true_iff. split; [by apply N.ltb_lt|]. apply negb_true_iff.
  destruct (is_high_surrogate c); [|done]. by rewrite Hpair.
Qed.

Lemma scanstring_good fuel : forall s x rest,
  unicode_text s -> scanstring fuel s = Some (x, rest) ->
  good_string x = true /\ rest `suffix_of` s /\ (heads_low x = true -> low_escape s).
Proof.
  induction fuel as [|fuel IH]; intros s x rest Htext; [done|].
  cbn [scanstring]. destruct s as [|c s]; [done|].
  apply Forall_cons in Htext as [Hc Htext].
  destruct (N.eqb_spec c 34) as [->|H34].
  { intros [= <- <-]. split_and!; [done|by apply suffix_cons_r|done]. }
  destruct (N.eqb_spec c 92) as [->|H92].
  - destruct s as [|e rest1]; [done|].
    apply Forall_cons in Htext as [He Htext].
    destruct (N.eqb_spec e 117) as [->|H117].
    + destruct (decode_uXXXX rest1) as [[uni rest2]|] eqn:Hdec; [|done].
      cbn [mbind option_bind].
      destruct (surrogate_pair uni rest2) as [[ch rest3]|] eqn:Hpair; [|done].
      cbn [mbind option_bind].
      destruct (scanstring fuel rest3) as [[str rest4]|] eqn:Hrec; [|done].
      cbn [mbind option_bind]. intros [= <- <-].
      pose proof (decode_uXXXX_inv _ _ _ Hdec) as [Huni Hsuf2].
      pose proof (surrogate_pair_inv _ _ _ _ Hpair) as [Hsuf3 Hch].
      assert (Htext3 : unicode_text rest3).
      { eapply Forall_suffix; [|exact Htext]. by etrans. }
      destruct (IH _ _ _ Htext3 Hrec) as (Hgood & Hsuf4 & Hlow).
      split_and!.
      * destruct Hch as [(-> & -> & Hlone)|Hch].
        -- apply good_string_cons; [lia| |done]. intros Hhigh.
           destruct (heads_low str) eqn:Hhl; [|done].
           destruct Hlone. split; [done|]. by apply Hlow.
        -- apply good_string_cons; [lia| |done]. intros Hhigh.
           apply is_high_surrogate_range in Hhigh. lia.
      * do 2 apply suffix_cons_r. etrans; [done|]. by etrans.
      * cbn [heads_low]. intros Hl. split; [done|]. exists uni, rest2.
        split; [done|]. destruct Hch as [(-> & _ & _)|Hch]; [done|].
        apply is_low_surrogate_range in Hl. lia.
    + destruct (unescape e) as [ch|] eqn:Hun; [|done]. cbn [mbind option_bind].
      destruct (scanstring fuel rest1) as [[str rest2]|] eqn:Hrec; [|done].
      cbn [mbind option_bind]. intros [= <- <-].
      destruct (IH _ _ _ Htext Hrec) as (Hgood & Hsuf & Hlow).
      apply unescape_inv in Hun.
      split_and!.
      * apply good_string_cons; [lia| |done]. intros Hhigh.
        apply is_high_surrogate_range in Hhigh. lia.
      * by do 2 apply suffix_cons_r.
      * cbn [heads_low]. intros Hl. apply is_low_surrogate_range in Hl. lia.
  - destruct (c <? 32)%N; [done|].
    destruct (scanstring fuel s) as [[str rest1]|] eqn:Hrec; [|done].
    cbn [mbind option_bind]. intros [= <- <-].
    destruct (IH _ _ _ Htext Hrec) as (Hgood & Hsuf & Hlow).
    apply is_scalar_range in Hc.
    split_and!.
    + apply good_string_cons; [lia| |done]. intros Hhigh.
      apply is_high_surrogate_range in Hhigh. lia.
    + by apply suffix_cons_r.
    + cbn [heads_low]. intros Hl. apply is_low_surrogate_range in Hl. lia.
Qed.

(** *** Objects *)

Lemma dict_set_keys {V} (d : list (pystr * V)) k v k0 :
  k0 ∈ map fst (dict_set d k v) -> k0 = k \/ k0 ∈ map fst d.
Proof.
  induction d as [|[k' v'] d IH]; cbn [dict_set map fst].
  - intros ->%list_elem_of_singleton. by left.
  - destruct (str_eqb k' k); cbn [map fst]; [by right|].
    intros [->|Hin]%elem_of_cons; [right; apply list_elem_of_here|].
    destruct (IH Hin) as [->|?]; [by left|right; by apply list_elem_of_further].
Qed.

Lemma dict_set_NoDup {V} (d : list (pystr * V)) k v :
  NoDup (map fst d) -> NoDup (map fst (dict_set d k v)).
Proof.
  induction d as [|[k' v'] d IH]; cbn [dict_set map fst].
  - intros _. apply NoDup_singleton.
  - intros [Hnotin Hnd]%NoDup_cons. destruct (str_eqb k' k) eqn:Hk; cbn [map fst].
    + by apply NoDup_cons.
    + apply NoDup_cons. split; [|by apply IH].
      intros [->|?]%dict_set_keys; [|done]. by rewrite str_eqb_refl in Hk.
Qed.

Lemma dict_set_Forall {V} (Q : pystr * V -> Prop) (d : list (pystr * V)) k v :
  Forall Q d -> Q (k, v) -> Forall Q (dict_set d k v).
Proof.
  intros Hd Hkv. induction Hd as [|[k' v'] d Hq Hd IH]; cbn [dict_set].
  - by apply Forall_singleton.
  - destruct (str_eqb k' k) eqn:Hk.
    + apply str_eqb_eq in Hk as ->. by constructor.
    + by constructor.
Qed.

Lemma dict_of_pairs_wf {V} (Q : pystr * V -> Prop) (pairs : list (pystr * V)) :
  Forall Q pairs ->
  NoDup (map fst (dict_of_pairs pairs)) /\ Forall Q (dict_of_pairs pairs).
Proof.
  unfold dict_of_pairs.
  assert (H : forall acc, NoDup (map fst acc) -> Forall Q acc -> Forall Q pairs ->
    NoDup (map fst (fold_left (fun d kv => dict_set d kv.1 kv.2) pairs acc)) /\
    Forall Q (fold_left (fun d kv => dict_set d kv.1 kv.2) pairs acc)).
  { induction pairs as [|[k v] pairs IH]; intros acc Hnd Hacc Hpairs; [done|].
    apply Forall_cons in Hpairs as [Hkv Hpairs]. cbn [fold_left fst snd].
    apply IH; [by apply dict_set_NoDup|by apply dict_set_Forall|done]. }
  intros Hpairs. apply H; [apply NoDup_nil_2|done|done].
Qed.

(** *** Values *)

Lemma array_items_wf scan g :
  scans_wf scan ->
  forall s xs rest, unicode_text s -> array_items scan g s = Some (xs, rest) ->
                    Forall wf_json xs /\ rest `suffix_of` s.
Proof.
  intros Hscan. induction g as [|g IH]; intros s xs rest Htext; [done|].
  cbn [array_items].
  destruct (scan s) as [[v rest0]|] eqn:Hv; [|done]. cbn [mbind option_bind].
  destruct (Hscan _ _ _ Htext Hv) as [Hwf Hsuf0].
  assert (Hs1 : skip_ws rest0 `suffix_of` s) by (etrans; [apply skip_ws_suffix|done]).
  destruct (starts_with 93 (skip_ws rest0)).
  { intros [= <- <-]. split; [by apply Forall_singleton|].
    etrans; [apply suffix_drop|done]. }
  destruct (starts_with 44 (skip_ws rest0)); [|done].
  assert (Hs2 : skip_ws (drop 1 (skip_ws rest0)) `suffix_of` s).
  { etrans; [apply skip_ws_suffix|]. etrans; [apply suffix_drop|done]. }
  destruct (array_items scan g _) as [[vs rest']|] eqn:Hrec; [|done].
  cbn [mbind option_bind]. intros [= <- <-].
  destruct (IH _ _ _ (Forall_suffix _ _ _ Hs2 Htext) Hrec) as [Hvs Hsuf].
  split; [by constructor|by etrans].
Qed.

Lemma object_items_wf scan g :
  scans_wf scan ->
  forall s kvs rest, unicode_text s -> object_items scan g s = Some (kvs, rest) ->
    Forall (fun kv => good_string kv.1 = true /\ wf_json kv.2) kvs /\
    rest `suffix_of` s.
Proof.
  intros Hscan. induction g as [|g IH]; intros s kvs rest Htext; [done|].
  cbn [object_items]. destruct (starts_with 34 s); [|done].
  destruct (scanstring (length s) (drop 1 s)) as [[key s1]|] eqn:Hkey; [|done].
  cbn [mbind option_bind].
  destruct (scanstring_good _ _ _ _ (Forall_suffix _ _ _ (suffix_drop s 1) Htext) Hkey)
    as (Hgood & Hsuf1 & _).
  assert (Hs1 : s1 `suffix_of` s) by (etrans; [done|apply suffix_drop]).
  assert (Hs2 : skip_ws s1 `suffix_of` s) by (etrans; [apply skip_ws_suffix|done]).
  destruct (starts_with 58 (skip_ws s1)); [|done].
  assert (Hs3 : skip_ws (drop 1 (skip_ws s1)) `suffix_of` s).
  { etrans; [apply skip_ws_suffix|]. etrans; [apply suffix_drop|done]. }
  destruct (scan _) as [[v s3]|] eqn:Hv; [|done]. cbn [mbind option_bind].
  destruct (Hscan _ _ _ (Forall_suffix _ _ _ Hs3 Htext) Hv) as [Hwf Hsuf3].
  assert (Hs4 : skip_ws s3 `suffix_of` s).
  { etrans; [apply skip_ws_suffix|]. by etrans. }
  destruct (starts_with 125 (skip_ws s3)).
  { intros [= <- <-]. split; [by apply Forall_singleton|].
    etrans; [apply suffix_drop|done]. }
  destruct (starts_with 44 (skip_ws s3)); [|done].
  assert (Hs5 : skip_ws (drop 1 (skip_ws s3)) `suffix_of` s).
  { etrans; [apply skip_ws_suffix|]. etrans; [apply suffix_drop|done]. }
  destruct (object_items scan g _) as [[kvs' rest']|] eqn:Hrec; [|done].
  cbn [mbind option_bind]. intros [= <- <-].
  destruct (IH _ _ _ (Forall_suffix _ _ _ Hs5 Htext) Hrec) as [Hkvs Hsuf].
  split; [by constructor|by etrans].
Qed.

Lemma scan_once_wf fuel : scans_wf (scan_once fuel).
Proof.
  induction fuel as [|fuel IH]; intros s j rest Htext; [done|].
  cbn [scan_once]. destruct s as [|c s0] eqn:Hs; [done|]. rewrite <- Hs in *.
  assert (Hrest0 : s0 `suffix_of` s) by (rewrite Hs; by apply suffix_cons_r).
  destruct (c =? 34)%N.
  { destruct (scanstring (length s0) s0) as [[x rest']|] eqn:Hstr; [|done].
    cbn [mbind option_bind]. intros [= <- <-].
    destruct (scanstring_good _ _ _ _ (Forall_suffix _ _ _ Hrest0 Htext) Hstr)
      as (Hgood & Hsuf & _).
    split; [by constructor|by etrans]. }
  assert (Hs1 : skip_ws s0 `suffix_of` s) by (etrans; [apply skip_ws_suffix|done]).
  destruct (c =? 123)%N.
  { destruct (starts_with 125 (skip_ws s0)).
    - intros [= <- <-]. split; [constructor; [apply NoDup_nil_2|done]|].
      etrans; [apply suffix_drop|done].
    - destruct (object_items _ _ _) as [[pairs rest']|] eqn:Hobj; [|done].
      cbn [mbind option_bind]. intros [= <- <-].
      destruct (object_items_wf _ _ IH _ _ _ (Forall_suffix _ _ _ Hs1 Htext) Hobj)
        as [Hpairs Hsuf].
      destruct (dict_of_pairs_wf _ _ Hpairs) as [Hnd Hall].
      split; [by constructor|by etrans]. }
  destruct (c =? 91)%N.
  { destruct (starts_with 93 (skip_ws s0)).
    - intros [= <- <-]. split; [by constructor|].
      etrans; [apply suffix_drop|done].
    - destruct (array_items _ _ _) as [[xs rest']|] eqn:Harr; [|done].
      cbn [mbind option_bind]. intros [= <- <-].
      destruct (array_items_wf _ _ IH _ _ _ (Forall_suffix _ _ _ Hs1 Htext) Harr)
        as [Hxs Hsuf].
      split; [by constructor|by etrans]. }
  destruct (is_prefix (str "null") s);
    [intros [= <- <-]; split; [constructor|apply suffix_drop]|].
  destruct (is_prefix (str "true") s);
    [intros [= <- <-]; split; [constructor|apply suffix_drop]|].
  destruct (is_prefix (str "false") s);
    [intros [= <- <-]; split; [constructor|apply suffix_drop]|].
  destruct (match_number s) as [[j' rest']|] eqn:Hnum.
  { intros [= <- <-]. apply match_number_inv in Hnum as [Hsuf [[z ->]|[x ->]]];
      (split; [constructor|done]). }
  destruct (is_prefix (str "NaN") s);
    [intros [= <- <-]; split; [constructor|apply suffix_drop]|].
  destruct (is_prefix (str "Infinity") s);
    [intros [= <- <-]; split; [constructor|apply suffix_drop]|].
  destruct (is_prefix (str "-Infinity") s);
    [intros [= <- <-]; split; [constructor|apply suffix_drop]|].
  done.
Qed.

Lemma json_loads_wf text j :
  unicode_text text -> json_loads text = Some j -> wf_json j.
Proof.
  intros Htext. unfold json_loads. destruct (starts_with 65279 text); [done|].
  destruct (scan_once _ _) as [[v rest]|] eqn:Hscan; [|done].
  cbn [mbind option_bind]. destruct (skip_ws rest); [|done]. intros [= <-].
  by destruct (scan_once_wf _ _ _ _ (Forall_suffix _ _ _ (skip_ws_suffix text) Htext) Hscan).
Qed.

(** C4.  A text that [json.loads] accepts gives a tree; the text that
    [json.dumps] writes for the tree with [indent=2], with [ensure_ascii]
    as [update_raw_editor] has it or without as [save_file] has it, is
    accepted again and gives the same tree: the same values, the members
    of every array and the keys of every object in the same order. *)
Theorem json_round_trip (b : bool) text j :
  unicode_text text -> json_loads text = Some j ->
  json_loads (json_dumps b j) = Some j.
Proof. intros Htext Hj. apply json_dumps_reads_back. by eapply json_loads_wf. Qed.

(** A text is checked character by character. *)
Lemma unicode_text_check s : forallb is_scalar s = true -> unicode_text s.
Proof.
  induction s as [|c s IH]; [by constructor|]. cbn [forallb].
  intros [Hc Hs]%andb_true_iff. constructor; [done|by apply IH].
Qed.

Lemma json_round_trip_witness :
  unicode_text mixed_doc_text /\
  json_loads mixed_doc_text = Some mixed_doc /\
  json_loads (json_dumps true mixed_doc) = Some mixed_doc /\
  json_loads (json_dumps false mixed_doc) = Some mixed_doc.
Proof.
  assert (Htext : unicode_text mixed_doc_text)
    by (apply unicode_text_check; vm_compute; reflexivity).
  split; [exact Htext|]. split; [vm_compute; reflexivity|].
  split; apply (json_round_trip _ mixed_doc_text mixed_doc Htext);
    vm_compute; reflexivity.
Defined.

(** What the two encoders write for the string of [name]: with
    [ensure_ascii] every character outside ASCII as an escape, the one
    beyond the basic plane as two; without, only the line feed. *)
Example encode_string_name :
  encode_string true [233%N; 128512%N; 10%N]
    = quoted (str "\u00e9\ud83d\ude00\n") /\
  encode_string false [233%N; 128512%N; 10%N]
    = quoted ([233%N; 128512%N] ++ str "\n").
Proof. by vm_compute. Qed.

(** Why C4 is about texts of Unicode: a text with a surrogate code
    point in it can give a string of two surrogates, which [json.dumps]
    with [ensure_ascii] writes as two escapes, and these read back as one
    character. *)
Example split_pair_not_read_back :
  json_loads split_pair_text = Some (JStr [55357%N; 56832%N]) /\
  json_loads (json_dumps true (JStr [55357%N; 56832%N])) = Some (JStr [128512%N]) /\
  json_loads (json_dumps false (JStr [55357%N; 56832%N]))
    = Some (JStr [55357%N; 56832%N]).
Proof. by vm_compute. Qed.

(** * Further properties of the editor *)

(** ** Position writes on an element that has a position *)

Lemma ensure_position_positioned h l q qk :
  positioned h l q qk -> ensure_position h (VRef l) = Ok h.
Proof.
  intros (kvs & p & pk & Hl & Hp & Hpl & Hq & Hql & _ & _).
  unfold ensure_position, py_get, as_dict. rewrite Hl, bind_Ok, Hp. cbv beta iota.
  rewrite (py_contains_dict _ _ _ _ Hpl), Hq, bind_Ok.
  by rewrite bool_decide_eq_true_2 by done.
Qed.

Lemma itemChange_positioned h l q qk new_x new_y :
  positioned h l q qk ->
  itemChange h (VRef l) new_x new_y
  = Ok (<[q := ODict (dict_set (dict_set qk (str "x") (VFloat new_x))
                        (str "y") (VFloat new_y))]> h).
Proof.
  intros Hpos.
  destruct (set_position_axis_positioned _ _ _ _ (str "x") (VFloat new_x) Hpos)
    as [Hx Hpos2].
  destruct (set_position_axis_positioned _ _ _ _ (str "y") (VFloat new_y) Hpos2)
    as [Hy _].
  unfold itemChange.
  rewrite (ensure_position_positioned _ _ _ _ Hpos), bind_Ok, Hx, bind_Ok, Hy.
  by rewrite list_insert_insert_eq.
Qed.

(** X3.  A position write on an element that has a position object
    creates nothing and changes that one object only: afterwards its [x] and
    [y] are the new coordinates, as floats, and every other key of it,
    [width] and [height] included, reads as before. *)
Theorem itemChange_writes_only_coordinates h l q qk new_x new_y :
  positioned h l q qk ->
  exists h' qk',
    itemChange h (VRef l) new_x new_y = Ok h' /\
    length h' = length h /\
    (forall l', l' <> q -> h' !! l' = h !! l') /\
    h' !! q = Some (ODict qk') /\
    dict_get qk' (str "x") = Some (VFloat new_x) /\
    dict_get qk' (str "y") = Some (VFloat new_y) /\
    (forall k, k <> str "x" -> k <> str "y" -> dict_get qk' k = dict_get qk k).
Proof.
  intros Hpos.
  assert (Hlt : (q < length h)%nat).
  { destruct Hpos as (? & ? & ? & _ & _ & _ & _ & Hql & _). by eapply lookup_lt_Some. }
  eexists _, _. rewrite (itemChange_positioned _ _ _ _ _ _ Hpos).
  split_and!; [done| | | | | |].
  - by rewrite length_insert.
  - intros l' Hne. by rewrite list_lookup_insert_ne.
  - by apply list_lookup_insert_eq.
  - rewrite dict_get_set_ne by done. apply dict_get_set_eq.
  - apply dict_get_set_eq.
  - intros k Hkx Hky. by rewrite !dict_get_set_ne.
Qed.

Lemma placed_element_positioned :
  positioned placed_element 2%nat 4%nat
    [(str "x", VInt 10); (str "y", VInt 20); (str "width", VInt 80)].
Proof.
  exists [(str "id", VStr (str "a")); (str "props", VRef 3%nat)], 3%nat,
    [(str "position", VRef 4%nat)].
  split_and!; [reflexivity|reflexivity|reflexivity|reflexivity|reflexivity|lia|lia].
Qed.

Lemma itemChange_writes_only_coordinates_witness :
  exists h' qk',
    itemChange placed_element (VRef 2%nat) 30.5%float 40%float = Ok h' /\
    length h' = length placed_element /\
    (forall l', l' <> 4%nat -> h' !! l' = placed_element !! l') /\
    h' !! 4%nat = Some (ODict qk') /\
    dict_get qk' (str "x") = Some (VFloat 30.5%float) /\
    dict_get qk' (str "y") = Some (VFloat 40%float) /\
    (forall k, k <> str "x" -> k <> str "y" ->
               dict_get qk' k
               = dict_get [(str "x", VInt 10); (str "y", VInt 20); (str "width", VInt 80)] k).
Proof.
  apply (itemChange_writes_only_coordinates placed_element 2%nat 4%nat
           [(str "x", VInt 10); (str "y", VInt 20); (str "width", VInt 80)]).
  apply placed_element_positioned.
Defined.

(** ** Loading rewrites the coordinates of the document *)

Lemma get_dict_or_empty_dict h kvs k l kvs' :
  dict_get kvs k = Some (VRef l) -> h !! l = Some (ODict kvs') ->
  get_dict_or_empty h kvs k = Ok kvs'.
Proof. intros Hk Hl. unfold get_dict_or_empty, as_dict. by rewrite Hk, Hl. Qed.

(** X4.  Showing an element whose position object gives [x] and [y] as
    numbers writes the coordinates back into the document as the [float]s
    Qt was given, so that an [int] coordinate of the file becomes a [float]
    by loading alone; the shape gets the position and the size of the
    document, with the defaults 150 and 100 for a missing [width] and
    [height].  Only a position that Qt takes for the origin leaves the
    document as it is. *)
Theorem add_widget_rewrites_coordinates h items l q qk vx vy qx qy w ht :
  positioned h l q qk ->
  dict_get qk (str "x") = Some vx -> to_qreal vx = Ok qx ->
  dict_get qk (str "y") = Some vy -> to_qreal vy = Ok qy ->
  to_qreal (default (VInt 150) (dict_get qk (str "width"))) = Ok w ->
  to_qreal (default (VInt 100) (dict_get qk (str "height"))) = Ok ht ->
  add_widget h items (VRef l)
  = Ok (if qFuzzyIsNull qx && qFuzzyIsNull qy then
          (h, items ++ [{| widget_data := VRef l; rect_width := w; rect_height := ht;
                           pos_x := QInt 0; pos_y := QInt 0 |}])
        else
          (<[q := ODict (dict_set (dict_set qk (str "x") (VFloat (qreal_float qx)))
                           (str "y") (VFloat (qreal_float qy)))]> h,
           items ++ [{| widget_data := VRef l; rect_width := w; rect_height := ht;
                        pos_x := qx; pos_y := qy |}])).
Proof.
  intros Hpos Hx Hqx Hy Hqy Hw Hht.
  pose proof Hpos as (kvs & p & pk & Hl & Hp & Hpl & Hq & Hql & _ & _).
  unfold add_widget, as_dict. rewrite Hl.
  rewrite (get_dict_or_empty_dict _ _ _ _ _ Hp Hpl), bind_Ok.
  rewrite (get_dict_or_empty_dict _ _ _ _ _ Hq Hql), bind_Ok.
  rewrite Hx, Hy. cbn [default from_option id].
  unfold DraggableWidget_init. rewrite Hw, Hht, !bind_Ok.
  unfold update_label, py_get, as_dict. rewrite Hl, !bind_Ok.
  rewrite Hqx, Hqy, !bind_Ok.
  destruct (qFuzzyIsNull qx && qFuzzyIsNull qy); [done|].
  by rewrite (itemChange_positioned _ _ _ _ _ _ Hpos), bind_Ok.
Qed.

Lemma add_widget_rewrites_coordinates_witness :
  add_widget placed_element [] (VRef 2%nat)
  = Ok (<[4%nat := ODict [(str "x", VFloat 10%float); (str "y", VFloat 20%float);
                          (str "width", VInt 80)]]> placed_element,
        [{| widget_data := VRef 2%nat; rect_width := QInt 80; rect_height := QInt 100;
            pos_x := QInt 10; pos_y := QInt 20 |}]).
Proof.
  apply (add_widget_rewrites_coordinates placed_element [] 2%nat 4%nat
           [(str "x", VInt 10); (str "y", VInt 20); (str "width", VInt 80)]
           (VInt 10) (VInt 20) (QInt 10) (QInt 20) (QInt 80) (QInt 100)).
  - apply placed_element_positioned.
  - reflexivity.
  - reflexivity.
  - reflexivity.
  - reflexivity.
  - reflexivity.
  - reflexivity.
Defined.

(** ** Loading the canvas *)

Lemma add_widgets_app h items es1 es2 :
  add_widgets h items (es1 ++ es2)
  = match add_widgets h items es1 with
    | (h1, items1, None) => add_widgets h1 items1 es2
    | stopped => stopped
    end.
Proof.
  revert h items. induction es1 as [|e es1 IH]; intros h items; [done|].
  simpl. destruct (add_widget h items e) as [[h' items']|x]; [apply IH|done].
Qed.

(** X5.  The first element of [moduleElements] that [add_widget]
    cannot show ends the loading of the canvas with its exception: the
    shapes made before it stay, and neither the elements after it nor
    [enhancedData] get a shape. *)
Theorem load_canvas_stops_at_failure h root before elem after h1 items1 e :
  truthy h root = true ->
  get_elements h root (str "moduleElements") = Ok (before ++ elem :: after) ->
  add_widgets h [] before = (h1, items1, None) ->
  add_widget h1 items1 elem = Raise e ->
  load_canvas h root = (h1, items1, Some e).
Proof.
  intros Ht He Hb Hfail. unfold load_canvas. rewrite Ht, He. cbn [negb].
  rewrite add_widgets_app, Hb. simpl. by rewrite Hfail.
Qed.

Lemma load_canvas_stops_at_failure_witness :
  load_canvas broken_list (VRef 0%nat)
  = ((add_widgets broken_list [] [VRef 2%nat]).1.1,
     [default_item 0 (VRef 2%nat)], Some AttributeError).
Proof.
  apply (load_canvas_stops_at_failure broken_list (VRef 0%nat)
           [VRef 2%nat] (VInt 5) [VRef 3%nat]).
  - reflexivity.
  - reflexivity.
  - vm_compute. reflexivity.
  - reflexivity.
Defined.

(** Elements without a position, added one after the other: the default
    places, and no change outside the footprints of the elements. *)
Lemma add_widgets_default h items elems :
  Forall (lacks_position h) elems ->
  NoDup (elems ≫= footprint h) ->
  50 + 20 * Z.of_nat (length items + length elems) < DBL_INT_LIMIT ->
  exists h',
    add_widgets h items elems
      = (h', items ++ imap (fun i wd => default_item (length items + i) wd) elems, None) /\
    (length h <= length h')%nat /\
    (forall l, (l < length h)%nat -> l ∉ elems ≫= footprint h -> h' !! l = h !! l).
Proof.
  revert h items. induction elems as [|v elems IH]; intros h items Hall Hnd Hbound.
  - exists h. simpl. by rewrite app_nil_r.
  - apply Forall_cons in Hall as [Hv Hall]. rewrite bind_cons in Hnd.
    apply NoDup_app in Hnd as (_ & Hdisj & Hnd).
    destruct (add_widget_default h items v Hv) as (h' & Haw & Hlen & Hframe).
    { simpl in Hbound. lia. }
    assert (Hkeep : Forall (fun e => lacks_position h' e /\
                                     footprint h' e = footprint h e) elems).
    { apply Forall_forall. intros e He.
      pose proof (proj1 (Forall_forall _ _) Hall e He) as Hlack.
      apply lacks_position_frame; [done|]. intros l Hl.
      apply Hframe; [by eapply footprint_allocated|].
      intros Hin. apply (Hdisj l Hin). apply list_elem_of_bind. eauto. }
    assert (Hfp : elems ≫= footprint h' = elems ≫= footprint h).
    { clear -Hkeep. induction Hkeep as [|e es [_ Hfp] _ IHes]; [done|].
      by rewrite !bind_cons, Hfp, IHes. }
    destruct (IH h' (items ++ [default_item (length items) v]))
      as (h'' & Hrest & Hlen' & Hframe').
    + eapply Forall_impl; [exact Hkeep|]. by intros e [? _].
    + by rewrite Hfp.
    + rewrite length_app. simpl in *. lia.
    + exists h''. split_and!.
      * simpl. rewrite Haw, Hrest.
        rewrite <- app_assoc. simpl. rewrite Nat.add_0_r. do 4 f_equal.
        apply imap_ext. intros i e _. rewrite length_app. simpl.
        f_equal. lia.
      * lia.
      * intros l Hl Hnot. rewrite bind_cons in Hnot.
        apply not_elem_of_app in Hnot as [Hn1 Hn2].
        rewrite Hframe'; [by apply Hframe|lia|by rewrite Hfp].
Qed.

Lemma footprint_dict h v l :
  lacks_position h v -> l ∈ footprint h v -> exists kvs, h !! l = Some (ODict kvs).
Proof.
  intros (l0 & kvs & -> & Hl & Hcase). simpl. rewrite Hl.
  intros [->|Hin]%elem_of_cons; [by exists kvs|].
  destruct Hcase as [Hnone|(p & pkvs & Hp & Hpl & Hpos)].
  - rewrite Hnone in Hin. by apply elem_of_nil in Hin.
  - rewrite Hp in Hin. apply list_elem_of_singleton in Hin as ->. by exists pkvs.
Qed.

(** X6.  For a document whose [moduleElements] and [enhancedData] are
    lists of elements without a position, [load_canvas] shows the elements
    of [moduleElements] first and those of [enhancedData] after them, and
    the default place of a shape counts the shapes of both lists: the
    [n]-th shape overall is [default_item n].  The elements are distinct
    objects, none of them the document itself. *)
Theorem load_canvas_default_stacking h d kvs lm le ms es :
  h !! d = Some (ODict kvs) ->
  dict_get kvs (str "moduleElements") = Some (VRef lm) -> h !! lm = Some (OList ms) ->
  dict_get kvs (str "enhancedData") = Some (VRef le) -> h !! le = Some (OList es) ->
  Forall (lacks_position h) (ms ++ es) ->
  NoDup ((ms ++ es) ≫= footprint h) ->
  d ∉ (ms ++ es) ≫= footprint h ->
  50 + 20 * Z.of_nat (length (ms ++ es)) < DBL_INT_LIMIT ->
  exists h',
    load_canvas h (VRef d) = (h', imap default_item (ms ++ es), None).
Proof.
  intros Hd Hm Hlm He Hle Hall Hnd Hroot Hbound.
  destruct (add_widgets_default h [] (ms ++ es) Hall Hnd Hbound)
    as (h' & Hrun & _ & _).
  exists h'. rewrite add_widgets_app in Hrun.
  apply Forall_app in Hall as [Hms Hes].
  rewrite bind_app in Hnd, Hroot.
  apply NoDup_app in Hnd as (Hnd1 & _ & _).
  apply not_elem_of_app in Hroot as [Hroot _].
  rewrite length_app in Hbound.
  destruct (add_widgets_default h [] ms Hms Hnd1) as (h1 & Hrun1 & Hlen1 & Hframe1).
  { simpl. lia. }
  rewrite Hrun1 in Hrun.
  unfold load_canvas. simpl truthy. rewrite Hd.
  rewrite bool_decide_eq_false_2 by (intros ->; done). cbn [negb].
  unfold get_elements, py_get, as_dict. rewrite Hd, bind_Ok, Hm.
  cbn [py_iter]. rewrite Hlm, Hrun1.
  assert (Hd1 : h1 !! d = Some (ODict kvs)).
  { rewrite Hframe1; [done|by eapply lookup_lt_Some|done]. }
  assert (Hle1 : h1 !! le = Some (OList es)).
  { rewrite Hframe1; [done|by eapply lookup_lt_Some|].
    intros (v & Hin & Hv)%list_elem_of_bind.
    destruct (footprint_dict h v le) as [? ?]; [|done|congruence].
    by apply (proj1 (Forall_forall _ _) Hms). }
  rewrite Hd1, bind_Ok, He. cbn [py_iter]. rewrite Hle1.
  by rewrite Hrun.
Qed.

Lemma both_lists_lack_position :
  Forall (lacks_position both_lists) ([VRef 3%nat] ++ [VRef 4%nat]).
Proof.
  repeat constructor.
  - exists 3%nat, [(str "id", VStr (str "a"))]. split_and!; [reflexivity|reflexivity|].
    left. reflexivity.
  - exists 4%nat, [(str "id", VStr (str "b"))]. split_and!; [reflexivity|reflexivity|].
    left. reflexivity.
Qed.

Lemma load_canvas_default_stacking_witness :
  exists h',
    load_canvas both_lists (VRef 0%nat)
    = (h', imap default_item ([VRef 3%nat] ++ [VRef 4%nat]), None).
Proof.
  apply (load_canvas_default_stacking both_lists 0%nat
           [(str "moduleElements", VRef 1%nat); (str "enhancedData", VRef 2%nat)]
           1%nat 2%nat [VRef 3%nat] [VRef 4%nat]).
  - reflexivity.
  - reflexivity.
  - reflexivity.
  - reflexivity.
  - reflexivity.
  - apply both_lists_lack_position.
  - apply NoDup_ListNoDup. repeat constructor; simpl; intuition congruence.
  - simpl. intros Hin. repeat (apply elem_of_cons in Hin as [Hin|Hin]; [lia|]).
    by apply elem_of_nil in Hin.
  - reflexivity.
Defined.

(** ** The paths of the property form *)

Lemma plain_key_no_dot k : plain_key k = true -> no_dot k = true /\ k <> [].
Proof.
  unfold plain_key. intros [Hne Hd]%andb_true_iff. split; [done|].
  intros ->. done.
Qed.

Lemma split_dot_no_dot k : no_dot k = true -> split_dot k = [k].
Proof.
  induction k as [|c k IH]; [done|]. cbn [no_dot forallb].
  intros [Hc Hk]%andb_true_iff. simpl.
  destruct (c =? 46)%N; [done|]. by rewrite (IH Hk).
Qed.

Lemma split_dot_app_dot k s :
  no_dot k = true -> split_dot (k ++ 46%N :: s) = k :: split_dot s.
Proof.
  induction k as [|c k IH]; [done|]. cbn [no_dot forallb].
  intros [Hc Hk]%andb_true_iff. simpl.
  destruct (c =? 46)%N; [done|]. by rewrite (IH Hk).
Qed.

Lemma split_dot_dots ks :
  Forall (fun k => plain_key k = true) ks -> ks <> [] -> split_dot (dots ks) = ks.
Proof.
  induction 1 as [|k ks Hk Hks IH]; [done|]. intros _.
  apply plain_key_no_dot in Hk as [Hk _].
  destruct ks as [|k2 ks]; [by apply split_dot_no_dot|].
  cbn [dots]. rewrite split_dot_app_dot by done. f_equal. by apply IH.
Qed.

Lemma dots_snoc ks k : ks <> [] -> dots (ks ++ [k]) = dots ks ++ 46%N :: k.
Proof.
  induction ks as [|k0 ks IH]; [done|]. intros _.
  destruct ks as [|k1 ks]; [done|].
  change (dots ((k0 :: k1 :: ks) ++ [k])) with (k0 ++ 46%N :: dots ((k1 :: ks) ++ [k])).
  rewrite IH by done. cbn [dots]. by rewrite <- app_assoc.
Qed.

Lemma dots_nonempty ks :
  Forall (fun k => plain_key k = true) ks -> ks <> [] -> dots ks <> [].
Proof.
  intros Hall Hne. destruct Hall as [|k ks Hk _]; [done|].
  apply plain_key_no_dot in Hk as [_ Hk].
  destruct k as [|c k]; [done|]. by destruct ks.
Qed.

Lemma join_path_dots ks k :
  Forall (fun k => plain_key k = true) ks -> join_path (dots ks) k = dots (ks ++ [k]).
Proof.
  intros Hall. unfold join_path. destruct ks as [|k0 ks]; [done|].
  rewrite str_eqb_neq by (by apply dots_nonempty). by rewrite dots_snoc.
Qed.

Lemma dict_get_elem {V} (kvs : list (pystr * V)) k v :
  (k, v) ∈ kvs -> is_Some (dict_get kvs k).
Proof.
  induction kvs as [|[k' v'] kvs IH]; [by intros ?%elem_of_nil|].
  intros [[= <- <-]|Hin]%elem_of_cons; simpl.
  - by rewrite str_eqb_refl.
  - destruct (str_eqb k' k); [done|by apply IH].
Qed.

Lemma distinct_keys_get {V} (kvs : list (pystr * V)) k v :
  distinct_keys kvs = true -> (k, v) ∈ kvs -> dict_get kvs k = Some v.
Proof.
  induction kvs as [|[k' v'] kvs IH]; [by intros _ ?%elem_of_nil|].
  cbn [distinct_keys]. destruct (dict_get kvs k') eqn:Hk'; [done|]. intros Hd.
  intros [[= <- <-]|Hin]%elem_of_cons; simpl.
  - by rewrite str_eqb_refl.
  - destruct (str_eqb k' k) eqn:E; [|by apply IH].
    apply str_eqb_eq in E as ->. apply dict_get_elem in Hin as [? Hin]. congruence.
Qed.

Lemma plain_heap_lookup h l kvs :
  plain_heap h = true -> h !! l = Some (ODict kvs) ->
  Forall (fun kv => plain_key kv.1 = true) kvs /\ distinct_keys kvs = true.
Proof.
  intros Hp Hl. unfold plain_heap in Hp. rewrite forallb_forall in Hp.
  specialize (Hp (ODict kvs)). simpl in Hp.
  destruct (andb_prop _ _ (Hp ltac:(apply list_elem_of_In; by eapply list_elem_of_lookup_2)))
    as [Hk Hd].
  split; [|done]. apply Forall_forall. intros kv Hin.
  rewrite forallb_forall in Hk. apply Hk. by apply list_elem_of_In.
Qed.

Lemma add_editors_rows h :
  plain_heap h = true ->
  forall fuel data ks rows err,
    Forall (fun k => plain_key k = true) ks ->
    add_editors fuel h data (dots ks) = (rows, err) ->
    Forall (row_ok h data ks fuel) rows.
Proof.
  intros Hplain. induction fuel as [|fuel IH]; intros data ks rows err Hks.
  - intros [= <- _]. constructor.
  - cbn [add_editors]. destruct (as_dict h data) as [kvs|] eqn:Hdata;
      [|intros [= <- _]; constructor].
    pose proof Hdata as Hd. apply as_dict_Some in Hd as (d & -> & Hd).
    destruct (plain_heap_lookup _ _ _ Hplain Hd) as [Hkeys Hdist].
    match goal with |- ?F kvs = _ -> _ => set (loop := F) end.
    assert (Hloop : forall kvs2 rows err,
      (forall kv, kv ∈ kvs2 -> kv ∈ kvs) ->
      loop kvs2 = (rows, err) -> Forall (row_ok h (VRef d) ks (S fuel)) rows).
    { clear rows err. induction kvs2 as [|[key v] kvs2 IH2]; intros rows err Hsub.
      - intros [= <- _]. constructor.
      - cbn [loop].
        assert (Hin : (key, v) ∈ kvs) by (apply Hsub, list_elem_of_here).
        assert (Hkey : plain_key key = true).
        { by apply (proj1 (Forall_forall _ _) Hkeys (key, v)). }
        assert (Hget : py_getitem h (VRef d) key = Ok v).
        { eapply py_getitem_dict; [done|]. by apply distinct_keys_get. }
        assert (Hhere : forall here err0,
          match as_dict h v with
          | Some _ => add_editors fuel h v (join_path (dots ks) key)
          | None =>
              match field_editor h v with
              | Ok e => ([(join_path (dots ks) key, e)], None)
              | Raise e => ([], Some e)
              end
          end = (here, err0) -> Forall (row_ok h (VRef d) ks (S fuel)) here).
        { intros here err0. rewrite join_path_dots by done.
          destruct (as_dict h v) as [kvs'|] eqn:Hv.
          - intros Hrec. apply IH in Hrec; [|apply Forall_app; by split; [|constructor]].
            eapply Forall_impl; [exact Hrec|].
            intros row (ks' & x & Hne & Hlen & Hpl & Hrow & Hnav & Hed).
            exists (key :: ks'), x. split_and!; [done|simpl; lia|by constructor| | |done].
            + by rewrite Hrow, <- app_assoc.
            + cbn [navigate]. by rewrite Hget, bind_Ok.
          - destruct (field_editor h v) as [e|e] eqn:He; intros [= <- _]; constructor;
              [|constructor].
            exists [key], v. split_and!; [done|simpl; lia|by repeat constructor|done| |done].
            cbn [navigate]. by rewrite Hget, bind_Ok. }
        destruct (match as_dict h v with Some _ => _ | None => _ end)
          as [here [e0|]] eqn:Hh.
        + intros [= <- _]. by eapply Hhere.
        + destruct (loop kvs2) as [rest err'] eqn:Hrest. intros [= <- _].
          apply Forall_app. split; [by eapply Hhere|].
          eapply IH2; [|done]. intros kv Hkv. by apply Hsub, list_elem_of_further. }
    intros Hrun. by eapply Hloop.
Qed.

(** X7.  In a heap whose dictionaries have distinct keys, none of them
    empty or holding a dot, every row [load_data] puts on the form carries a
    field path that leads from the selected object to the very value the
    row's editor was made for, through at most four keys; so the path a
    row hands to [update_field] names the field the row shows. *)
Theorem form_rows_resolve h data rows err :
  plain_heap h = true ->
  load_data_rows h data = (rows, err) ->
  Forall (fun row => exists v,
            read_path h data row.1 = Ok v /\ field_editor h v = Ok row.2 /\
            (length (split_dot row.1) <= 4)%nat) rows.
Proof.
  intros Hplain. unfold load_data_rows.
  destruct (negb (truthy h data)); [intros [= <- _]; constructor|].
  intros Hrun. apply (add_editors_rows h Hplain 4 data []) in Hrun; [|constructor].
  eapply Forall_impl; [exact Hrun|].
  intros row (ks' & v & Hne & Hlen & Hpl & Hrow & Hnav & Hed). exists v.
  unfold read_path. rewrite Hrow. cbn [Datatypes.app]. rewrite split_dot_dots by done.
  by split_and!.
Qed.

Lemma form_rows_resolve_witness :
  Forall (fun row => exists v,
            read_path placed_element (VRef 2%nat) row.1 = Ok v /\
            field_editor placed_element v = Ok row.2 /\
            (length (split_dot row.1) <= 4)%nat)
    (load_data_rows placed_element (VRef 2%nat)).1.
Proof.
  apply (form_rows_resolve placed_element (VRef 2%nat)
           (load_data_rows placed_element (VRef 2%nat)).1
           (load_data_rows placed_element (VRef 2%nat)).2).
  - reflexivity.
  - apply surjective_pairing.
Defined.

(** ** Keys that hold a dot *)

Lemma split_dot_segments s : Forall (fun w => no_dot w = true) (split_dot s).
Proof.
  induction s as [|c s IH]; [by repeat constructor|]. simpl.
  destruct (c =? 46)%N eqn:Hc; [by constructor|].
  destruct (split_dot s) as [|w ws]; [by repeat constructor; cbn; rewrite Hc|].
  apply Forall_cons in IH as [Hw Hws]. constructor; [|done].
  cbn. by rewrite Hc.
Qed.

Lemma last_elem_of {A} (l : list A) d : l <> [] -> List.last l d ∈ l.
Proof.
  induction l as [|x l IH]; [done|]. intros _. destruct l as [|y l].
  - apply list_elem_of_here.
  - apply list_elem_of_further, IH. done.
Qed.

Lemma no_dot_elem k : no_dot k = true -> 46%N ∉ k.
Proof.
  induction k as [|c k IH]; [intros _; apply not_elem_of_nil|].
  cbn [no_dot forallb]. intros [Hc Hk]%andb_true_iff.
  apply not_elem_of_cons. split; [|by apply IH].
  intros <-. done.
Qed.

Lemma update_field_keeps_dotted h root field_path v h' emitted k :
  46%N ∈ k ->
  update_field h root field_path v = Ok (h', emitted) ->
  forall l kvs, h !! l = Some (ODict kvs) ->
    exists kvs', h' !! l = Some (ODict kvs') /\ dict_get kvs' k = dict_get kvs k.
Proof.
  intros Hk. unfold update_field.
  destruct (negb (truthy h root)); [intros [= <- _] l kvs Hl; by exists kvs|].
  destruct (navigate h root (removelast (split_dot field_path))) as [data|e]; [|done].
  rewrite bind_Ok.
  destruct (py_setitem h data (List.last (split_dot field_path) []) v) as [h1|e] eqn:Hset;
    [|done].
  rewrite bind_Ok. intros [= <- _] l kvs Hl.
  unfold py_setitem in Hset. destruct data as [| | | | |l0]; try done.
  destruct (h !! l0) as [[kvs0|]|] eqn:Hl0; try done. injection Hset as <-.
  destruct (decide (l = l0)) as [->|Hne].
  - assert (Heq : Some (ODict kvs0) = Some (ODict kvs)).
    { etrans; [symmetry; exact Hl0|exact Hl]. }
    injection Heq as ->.
    eexists. split; [apply list_lookup_insert_eq; by eapply lookup_lt_Some|].
    apply dict_get_set_ne. intros Heq. revert Hk. rewrite <- Heq.
    apply no_dot_elem.
    apply (proj1 (Forall_forall _ _) (split_dot_segments field_path)).
    apply last_elem_of, split_dot_nonempty.
  - exists kvs. split; [by rewrite list_lookup_insert_ne|done].
Qed.

(** X8.  No edit made through the property form changes what a key
    that holds a dot refers to, in any object: the key [update_field]
    assigns to is a segment of the split path, and a segment holds no dot.
    So the row the form shows for such a key does not edit it. *)
Theorem form_edit_keeps_dotted_keys h current_data field_path input h' emitted k :
  46%N ∈ k ->
  form_edit h current_data field_path input = Ok (h', emitted) ->
  forall l kvs, h !! l = Some (ODict kvs) ->
    exists kvs', h' !! l = Some (ODict kvs') /\ dict_get kvs' k = dict_get kvs k.
Proof.
  intros Hk. destruct input as [text|text|z|text]; cbn [form_edit];
    try by apply update_field_keeps_dotted.
  unfold update_list. destruct (json_loads text) as [j|];
    [|intros [= <- _] l kvs Hl; by exists kvs].
  destruct (alloc_json_extends j h) as [ext Hext].
  destruct (alloc_json j h) as [v h1]. simpl in Hext. subst h1.
  intros Hrun l kvs Hl.
  apply (update_field_keeps_dotted _ _ _ _ _ _ _ Hk Hrun).
  by apply lookup_app_l_Some.
Qed.

Lemma form_edit_keeps_dotted_keys_witness :
  exists kvs',
    <[1%nat := ODict [(str "b", VInt 9)]]> dotted_doc !! 0%nat = Some (ODict kvs') /\
    dict_get kvs' (str "a.b")
    = dict_get [(str "a.b", VInt 1); (str "a", VRef 1%nat)] (str "a.b").
Proof.
  apply (form_edit_keeps_dotted_keys dotted_doc (VRef 0%nat) (str "a.b") (SpinValue 9)
           (<[1%nat := ODict [(str "b", VInt 9)]]> dotted_doc) true (str "a.b")
           (list_elem_of_further _ _ _ (list_elem_of_here _ _)) eq_refl
           0%nat [(str "a.b", VInt 1); (str "a", VRef 1%nat)]).
  reflexivity.
Defined.

(** ** The list of widgets *)

Lemma widgets_loop h elems :
  Forall (listable h) elems ->
  forall s, py_heap s = h ->
    for_each elems (fun elem =>
      a ← get;
      id ← lift (py_get (py_heap a) elem (str "id"));
      match id with
      | None => modify (fun a => set_widgets_list (widgets_list a ++ [str "Unknown"]) a)
      | Some (VStr s) => modify (fun a => set_widgets_list (widgets_list a ++ [s]) a)
      | Some _ => raise TypeError
      end) s
    = (Ok (), set_widgets_list (widgets_list s ++ map (list_label h) elems) s).
Proof.
  induction 1 as [|elem elems (kvs & Hd & Hid) _ IH]; intros s Hs.
  - simpl. rewrite app_nil_r. by destruct s.
  - cbn [for_each map]. rewrite bindM_assoc, bindM_get, Hs.
    unfold list_label, py_get. rewrite Hd.
    rewrite bindM_assoc, bindM_lift_Ok.
    destruct (dict_get kvs (str "id")) as [[| | | |w|]|]; try done.
    + rewrite bindM_modify, IH by done. cbn [widgets_list set_widgets_list].
      rewrite <- app_assoc. by destruct s.
    + rewrite bindM_modify, IH by done. cbn [widgets_list set_widgets_list].
      rewrite <- app_assoc. by destruct s.
Qed.

(** X9.  When every member of [moduleElements] is an object whose
    [id], if present, is a string, [populate_widgets_list] succeeds and the
    list shows one entry per member of [moduleElements], in order: the [id],
    or [Unknown] for an element that has none.  Elements of [enhancedData]
    are not listed. *)
Theorem populate_widgets_list_labels a elems :
  truthy (py_heap a) (json_data a) = true ->
  get_elements (py_heap a) (json_data a) (str "moduleElements") = Ok elems ->
  Forall (listable (py_heap a)) elems ->
  populate_widgets_list a
  = (Ok (), set_widgets_list (map (list_label (py_heap a)) elems) a).
Proof.
  intros Ht He Hall. unfold populate_widgets_list.
  rewrite bindM_modify, bindM_get.
  cbn [py_heap json_data set_widgets_list]. rewrite Ht, He. cbn [negb].
  rewrite bindM_lift_Ok, (widgets_loop (py_heap a)) by done.
  by destruct a.
Qed.

Lemma three_widgets_listable : Forall (listable three_widgets) [VRef 2%nat; VRef 3%nat; VRef 4%nat].
Proof. repeat constructor; eexists; (split; [reflexivity|done]). Qed.

Lemma populate_widgets_list_labels_witness :
  populate_widgets_list three_widgets_app
  = (Ok (), set_widgets_list [str "a"; str "Unknown"; str "a"] three_widgets_app).
Proof.
  apply (populate_widgets_list_labels three_widgets_app [VRef 2%nat; VRef 3%nat; VRef 4%nat]).
  - reflexivity.
  - reflexivity.
  - apply three_widgets_listable.
Defined.

Lemma find_by_id_first h widget_id before elem after :
  Forall (other_id h widget_id) before ->
  py_get h elem (str "id") = Ok (Some (VStr widget_id)) ->
  find_by_id h widget_id (before ++ elem :: after) = Ok (Some elem).
Proof.
  intros Hb He. induction Hb as [|e es (o & Ho & Hne) _ IH]; simpl.
  - by rewrite He, bind_Ok, str_eqb_refl.
  - rewrite Ho, bind_Ok. destruct o as [[| | | |w|]|]; try done.
    rewrite str_eqb_neq; [done|]. congruence.
Qed.

Lemma find_by_id_none h widget_id elems :
  Forall (other_id h widget_id) elems -> find_by_id h widget_id elems = Ok None.
Proof.
  induction 1 as [|e es (o & Ho & Hne) _ IH]; simpl; [done|].
  rewrite Ho, bind_Ok. destruct o as [[| | | |w|]|]; try done.
  rewrite str_eqb_neq; [done|]. congruence.
Qed.

(** X10.  A click on an entry of the list of widgets loads into the
    form the first element of [moduleElements] whose [id] is the text of the
    entry, whatever the position of the entry in the list: of two elements
    with the same [id] the second cannot be selected from the list. *)
Theorem widget_list_click_first_match a i widget_id before elem after :
  truthy (py_heap a) (json_data a) = true ->
  widgets_list a !! i = Some widget_id ->
  get_elements (py_heap a) (json_data a) (str "moduleElements")
    = Ok (before ++ elem :: after) ->
  Forall (other_id (py_heap a) widget_id) before ->
  py_get (py_heap a) elem (str "id") = Ok (Some (VStr widget_id)) ->
  widget_list_item_clicked i a = load_data elem a.
Proof.
  intros Ht Hi He Hb Hid. unfold widget_list_item_clicked.
  rewrite bindM_get, Ht, Hi, He. cbn [negb].
  by rewrite bindM_lift_Ok, (find_by_id_first _ _ _ _ _ Hb Hid), bindM_lift_Ok.
Qed.

Lemma widget_list_click_first_match_witness :
  widget_list_item_clicked 2 three_widgets_listed = load_data (VRef 2%nat) three_widgets_listed.
Proof.
  apply (widget_list_click_first_match three_widgets_listed 2 (str "a")
           [] (VRef 2%nat) [VRef 3%nat; VRef 4%nat]).
  - reflexivity.
  - reflexivity.
  - reflexivity.
  - constructor.
  - reflexivity.
Defined.

(** X11.  A click on an entry whose text is the [id] of no element of
    [moduleElements] changes nothing; this is the case of the entry
    [Unknown] shown for an element without [id]. *)
Theorem widget_list_click_no_match a i widget_id elems :
  truthy (py_heap a) (json_data a) = true ->
  widgets_list a !! i = Some widget_id ->
  get_elements (py_heap a) (json_data a) (str "moduleElements") = Ok elems ->
  Forall (other_id (py_heap a) widget_id) elems ->
  widget_list_item_clicked i a = (Ok (), a).
Proof.
  intros Ht Hi He Hall. unfold widget_list_item_clicked.
  rewrite bindM_get, Ht, Hi, He. cbn [negb].
  by rewrite bindM_lift_Ok, (find_by_id_none _ _ _ Hall), bindM_lift_Ok.
Qed.

Lemma widget_list_click_no_match_witness :
  widget_list_item_clicked 1 three_widgets_listed = (Ok (), three_widgets_listed).
Proof.
  apply (widget_list_click_no_match three_widgets_listed 1 (str "Unknown")
           [VRef 2%nat; VRef 3%nat; VRef 4%nat]).
  - reflexivity.
  - reflexivity.
  - reflexivity.
  - repeat constructor; eexists; (split; [reflexivity|done]).
Defined.

(** ** Items of the tree that select nothing *)

Lemma new_item_without_data parent kind key data :
  (kind = RootItem \/ kind = ArrayItem -> data = VNone) ->
  preserves (fun s => Forall without_data (tree s)) (new_item parent kind key data).
Proof.
  intros Hk s Hall. simpl. apply Forall_app. split; [done|].
  by apply Forall_singleton.
Qed.

Lemma add_element_item_without_data parent ie :
  preserves (fun s => Forall without_data (tree s)) (add_element_item parent ie).
Proof.
  destruct ie as [i elem]. intros s Hall.
  destruct (add_element_item_state parent i elem s) as [data ->]. simpl.
  apply Forall_app. split; [done|]. apply Forall_singleton. by intros [?|?].
Qed.

Lemma add_tree_items_without_data fuel :
  forall parent data,
    preserves (fun s => Forall without_data (tree s)) (add_tree_items fuel parent data).
Proof.
  induction fuel as [|fuel IH]; intros parent data; simpl.
  - apply preserves_raise.
  - apply preserves_get. intros a.
    apply preserves_bind; [apply preserves_lift_option|]. intros kvs.
    apply preserves_for_each. intros [key v].
    apply preserves_get. intros a'.
    destruct (as_dict (py_heap a') v).
    + apply preserves_bind; [apply new_item_without_data; by intros [?|?]|].
      intros item. apply IH.
    + destruct (list_of_objects (py_heap a') v) as [elems|].
      * apply preserves_bind; [by apply new_item_without_data|]. intros item.
        apply preserves_for_each. intros ie. apply add_element_item_without_data.
      * apply preserves_bind; [by intros s Hs|]. intros wrapper.
        apply preserves_bind; [apply new_item_without_data; by intros [?|?]|].
        intros _. apply preserves_ret.
Qed.

(** X12.  In the tree [populate_tree] builds, the root item and the
    item of a list of objects carry no data, so a click on one of them
    selects nothing: the form and everything else stay as they are. *)
Theorem tree_root_and_lists_select_nothing a i it :
  tree (populate_tree a).2 !! i = Some it ->
  item_kind_of it = RootItem \/ item_kind_of it = ArrayItem ->
  tree_item_clicked i (populate_tree a).2 = (Ok (), (populate_tree a).2).
Proof.
  intros Hi Hkind.
  assert (Hall : Forall without_data (tree (populate_tree a).2)).
  { unfold populate_tree. rewrite bindM_modify.
    enough (Hp : preserves (fun s => Forall without_data (tree s))
      (a0 ← get;
       if negb (truthy (py_heap a0) (json_data a0)) then mret ()
       else
         root ← new_item None RootItem [] VNone;
         id ← lift (py_get (py_heap a0) (json_data a0) (str "id"));
         _ ← match id with
             | None | Some (VStr _) => mret ()
             | Some _ => raise TypeError
             end;
         add_tree_items (S (length (py_heap a0))) root (json_data a0))).
    { apply Hp. by apply Forall_nil. }
    apply preserves_get. intros a0.
    destruct (negb (truthy (py_heap a0) (json_data a0))); [apply preserves_ret|].
    apply preserves_bind; [by apply new_item_without_data|]. intros root.
    apply preserves_bind; [apply preserves_lift|]. intros id.
    apply preserves_bind; [|intros _; apply add_tree_items_without_data].
    destruct id as [[]|]; first [apply preserves_ret|apply preserves_raise]. }
  pose proof (proj1 (Forall_lookup _ _) Hall i it Hi Hkind) as Hdata.
  unfold tree_item_clicked. rewrite bindM_get, Hi, Hdata. done.
Qed.

Lemma tree_root_and_lists_select_nothing_witness :
  tree_item_clicked 1 (populate_tree three_widgets_app).2
  = (Ok (), (populate_tree three_widgets_app).2).
Proof.
  apply (tree_root_and_lists_select_nothing three_widgets_app 1
           {| item_parent := Some 0%nat; item_kind_of := ArrayItem;
              item_key := str "moduleElements"; item_data := VNone |}).
  - reflexivity.
  - right. reflexivity.
Defined.

(** ** The objects of a tree *)

Lemma reify_grow fuel (h ext : heap) :
  forall v j, reify fuel h v = Some j -> reify fuel (h ++ ext) v = Some j.
Proof.
  induction fuel as [|fuel IH]; intros v j; destruct v as [| | | | |l]; simpl; try done.
  destruct (h !! l) as [o|] eqn:Hl; [|done].
  rewrite (lookup_app_l_Some _ _ _ _ Hl). destruct o as [kvs|xs].
  - rewrite !fmap_Some. intros (ys & Hys & ->). exists ys. split; [|done].
    apply mapM_Some in Hys. apply mapM_Some.
    eapply Forall2_impl; [exact Hys|]. intros [k x] y. simpl.
    rewrite !fmap_Some. intros (z & Hz & ->). exists z. split; [by apply IH|done].
  - rewrite !fmap_Some. intros (ys & Hys & ->). exists ys. split; [|done].
    apply mapM_Some in Hys. apply mapM_Some.
    eapply Forall2_impl; [exact Hys|]. intros x y. apply IH.
Qed.

Lemma reify_more_fuel fuel (h : heap) :
  forall fuel' v j, (fuel <= fuel')%nat -> reify fuel h v = Some j ->
                    reify fuel' h v = Some j.
Proof.
  induction fuel as [|fuel IH]; intros fuel' v j Hle; destruct v as [| | | | |l];
    try (by destruct fuel'); try done.
  destruct fuel' as [|fuel']; [lia|]. simpl.
  destruct (h !! l) as [[kvs|xs]|] eqn:Hl; [| |done].
  - rewrite !fmap_Some. intros (ys & Hys & ->). exists ys. split; [|done].
    apply mapM_Some in Hys. apply mapM_Some.
    eapply Forall2_impl; [exact Hys|]. intros [k x] y. simpl.
    rewrite !fmap_Some. intros (z & Hz & ->). exists z.
    split; [apply IH; [lia|done]|done].
  - rewrite !fmap_Some. intros (ys & Hys & ->). exists ys. split; [|done].
    apply mapM_Some in Hys. apply mapM_Some.
    eapply Forall2_impl; [exact Hys|]. intros x y. apply IH. lia.
Qed.

(** The value [json.loads] builds stands for the tree it was built from. *)
Lemma reify_alloc_json j :
  forall h, exists ext,
    (alloc_json j h).2 = h ++ ext /\
    forall fuel, (length ext <= fuel)%nat ->
                 reify fuel (h ++ ext) (alloc_json j h).1 = Some j.
Proof.
  induction j as [|b|z|f|s|xs IHxs|kvs IHkvs] using json_ind'; intros h;
    try (exists []; rewrite app_nil_r; split; [done|]; intros fuel _; by destruct fuel).
  - simpl.
    match goal with |- context [?F xs h] => set (members := F) end.
    assert (Hm : forall h, exists ext,
      (members xs h).2 = h ++ ext /\
      forall n, (length ext <= n)%nat ->
        Forall2 (fun v x => reify n (h ++ ext) v = Some x) (members xs h).1 xs).
    { clear h. induction IHxs as [|x xs Hx _ IH]; intros h.
      - exists []. simpl. rewrite app_nil_r. split; [done|]. intros; constructor.
      - simpl. destruct (Hx h) as (e1 & He1 & Hr1).
        destruct (alloc_json x h) as [v h1]. simpl in He1, Hr1. subst h1.
        destruct (IH (h ++ e1)) as (e2 & He2 & Hr2).
        destruct (members xs (h ++ e1)) as [vs h2]. simpl in *. subst h2.
        exists (e1 ++ e2). rewrite app_assoc. split; [done|].
        intros n Hn. rewrite length_app in Hn. constructor.
        + apply reify_grow, Hr1. lia.
        + apply Hr2. lia. }
    destruct (Hm h) as (ext & Hext & HF). destruct (members xs h) as [vs h'].
    simpl in *. subst h'. exists (ext ++ [OList vs]). rewrite app_assoc.
    split; [done|]. intros fuel Hn. rewrite length_app in Hn. simpl in Hn.
    destruct fuel as [|fuel]; [lia|]. simpl.
    rewrite lookup_alloc_new. apply fmap_Some. exists xs. split; [|done].
    apply mapM_Some. eapply Forall2_impl; [apply (HF fuel); lia|].
    intros v x. apply reify_grow.
  - simpl.
    match goal with |- context [?F kvs h] => set (members := F) end.
    assert (Hm : forall h, exists ext,
      (members kvs h).2 = h ++ ext /\
      forall n, (length ext <= n)%nat ->
        Forall2 (fun kv kx => kv.1 = kx.1 /\ reify n (h ++ ext) kv.2 = Some kx.2)
          (members kvs h).1 kvs).
    { clear h. induction IHkvs as [|[k x] kvs Hx _ IH]; intros h.
      - exists []. simpl. rewrite app_nil_r. split; [done|]. intros; constructor.
      - simpl. simpl in Hx. destruct (Hx h) as (e1 & He1 & Hr1).
        destruct (alloc_json x h) as [v h1]. simpl in He1, Hr1. subst h1.
        destruct (IH (h ++ e1)) as (e2 & He2 & Hr2).
        destruct (members kvs (h ++ e1)) as [vs h2]. simpl in *. subst h2.
        exists (e1 ++ e2). rewrite app_assoc. split; [done|].
        intros n Hn. rewrite length_app in Hn. constructor.
        + split; [done|]. apply reify_grow, Hr1. lia.
        + apply Hr2. lia. }
    destruct (Hm h) as (ext & Hext & HF). destruct (members kvs h) as [vs h'].
    simpl in *. subst h'. exists (ext ++ [ODict vs]). rewrite app_assoc.
    split; [done|]. intros fuel Hn. rewrite length_app in Hn. simpl in Hn.
    destruct fuel as [|fuel]; [lia|]. simpl.
    rewrite lookup_alloc_new. apply fmap_Some. exists kvs. split; [|done].
    apply mapM_Some. eapply Forall2_impl; [apply (HF fuel); lia|].
    intros [k v] [k' x]. simpl. intros [-> Hr].
    apply fmap_Some. exists x. split; [by apply reify_grow|done].
Qed.

(** Right after parsing, the encoder gives the text of the tree parsed. *)
Lemma py_dumps_alloc_json b j h :
  py_dumps b (alloc_json j h).2 (alloc_json j h).1 = Ok (json_dumps b j).
Proof.
  destruct (reify_alloc_json j h) as (ext & Hext & Hr). unfold py_dumps.
  rewrite Hext, Hr; [done|]. rewrite length_app. lia.
Qed.

Lemma truthy_alloc_json j h :
  truthy (alloc_json j h).2 (alloc_json j h).1 = json_truthy j.
Proof.
  destruct j as [|b|z|f|s|xs|kvs]; try done.
  - simpl.
    match goal with |- context [?F xs h] => set (members := F) end.
    assert (Hm : forall h, (members xs h).1 = [] <-> xs = []).
    { clear h. intros h. destruct xs as [|x xs]; [done|]. simpl.
      destruct (alloc_json x h) as [v h1]. by destruct (members xs h1). }
    specialize (Hm h). destruct (members xs h) as [vs h']. simpl in *.
    rewrite lookup_alloc_new. f_equal. apply bool_decide_ext. done.
  - simpl.
    match goal with |- context [?F kvs h] => set (members := F) end.
    assert (Hm : forall h, (members kvs h).1 = [] <-> kvs = []).
    { clear h. intros h. destruct kvs as [|[k x] kvs]; [done|]. simpl.
      destruct (alloc_json x h) as [v h1]. by destruct (members kvs h1). }
    specialize (Hm h). destruct (members kvs h) as [vs h']. simpl in *.
    rewrite lookup_alloc_new. f_equal. apply bool_decide_ext. done.
Qed.

Lemma as_dict_alloc_json j h :
  is_object j = false -> as_dict (alloc_json j h).2 (alloc_json j h).1 = None.
Proof.
  destruct j as [|b|z|f|s|xs|kvs]; try done. intros _. simpl.
  match goal with |- context [?F xs h] => destruct (F xs h) as [vs h'] end.
  simpl. by rewrite lookup_alloc_new.
Qed.

(** A container is a new object. *)
Lemma alloc_json_fresh j h :
  match j with JArr _ | JObj _ => True | _ => False end ->
  exists l, (alloc_json j h).1 = VRef l /\ (length h <= l)%nat.
Proof.
  destruct j as [|b|z|f|s|xs|kvs]; try done; intros _; simpl.
  - match goal with |- context [?F xs h] => set (members := F) end.
    assert (Hm : forall h, exists ext, (members xs h).2 = h ++ ext).
    { clear h. induction xs as [|x xs IH]; intros h.
      - exists []. simpl. by rewrite app_nil_r.
      - simpl. destruct (alloc_json_extends x h) as [e1 He1].
        destruct (alloc_json x h) as [v h1]. simpl in He1. subst h1.
        destruct (IH (h ++ e1)) as [e2 He2].
        destruct (members xs (h ++ e1)) as [vs h2]. simpl in *. subst h2.
        exists (e1 ++ e2). by rewrite app_assoc. }
    destruct (Hm h) as [ext Hext]. destruct (members xs h) as [vs h'].
    simpl in *. subst h'. eexists. split; [done|]. rewrite length_app. lia.
  - match goal with |- context [?F kvs h] => set (members := F) end.
    assert (Hm : forall h, exists ext, (members kvs h).2 = h ++ ext).
    { clear h. induction kvs as [|[k x] kvs IH]; intros h.
      - exists []. simpl. by rewrite app_nil_r.
      - simpl. destruct (alloc_json_extends x h) as [e1 He1].
        destruct (alloc_json x h) as [v h1]. simpl in He1. subst h1.
        destruct (IH (h ++ e1)) as [e2 He2].
        destruct (members kvs (h ++ e1)) as [vs h2]. simpl in *. subst h2.
        exists (e1 ++ e2). by rewrite app_assoc. }
    destruct (Hm h) as [ext Hext]. destruct (members kvs h) as [vs h'].
    simpl in *. subst h'. eexists. split; [done|]. rewrite length_app. lia.
Qed.

(** ** What the commands leave alone *)

Lemma preserves_modify P (g : app -> app) :
  (forall s, P s -> P (g s)) -> preserves P (modify g).
Proof. intros Hg s Hs. by apply Hg. Qed.

Lemma preserves_try_except P (m : M unit) (handler : exn -> M unit) :
  preserves P m -> (forall e, preserves P (handler e)) ->
  preserves P (try_except m handler).
Proof.
  intros Hm Hh s Hs. unfold try_except. specialize (Hm s Hs).
  destruct (m s) as [[x|e] s']; simpl in *; [done|by apply Hh].
Qed.

Lemma preserves_if {A} P (b : bool) (m1 m2 : M A) :
  preserves P m1 -> preserves P m2 -> preserves P (if b then m1 else m2).
Proof. by destruct b. Qed.

Section frame.
Variable P : app -> Prop.
Hypothesis P_heap : forall h s, P s -> P (set_py_heap h s).

Lemma alloc_m_keeps o : preserves P (alloc_m o).
Proof. intros s Hs. unfold alloc_m, alloc. simpl. by apply P_heap. Qed.

Lemma alloc_json_m_keeps j : preserves P (alloc_json_m j).
Proof.
  intros s Hs. unfold alloc_json_m.
  destruct (alloc_json j (py_heap s)) as [v h'] eqn:E. simpl. by apply P_heap.
Qed.

Lemma loads_m_keeps text : preserves P (loads_m text).
Proof.
  unfold loads_m. apply preserves_bind; [apply preserves_lift_option|].
  apply alloc_json_m_keeps.
Qed.

Section tree.
Hypothesis P_tree : forall t s, P s -> P (set_tree t s).

Lemma new_item_keeps parent kind key data : preserves P (new_item parent kind key data).
Proof. intros s Hs. simpl. by apply P_tree. Qed.

Lemma set_item_data_keeps i data : preserves P (set_item_data i data).
Proof. apply preserves_modify. intros s Hs. by apply P_tree. Qed.

Lemma add_element_item_keeps parent ie : preserves P (add_element_item parent ie).
Proof.
  destruct ie as [i elem]. unfold add_element_item.
  apply preserves_bind; [apply new_item_keeps|]. intros sub_item.
  apply preserves_get. intros a.
  apply preserves_bind; [apply preserves_lift|]. intros _.
  apply set_item_data_keeps.
Qed.

Lemma add_tree_items_keeps fuel :
  forall parent data, preserves P (add_tree_items fuel parent data).
Proof.
  induction fuel as [|fuel IH]; intros parent data; simpl.
  - apply preserves_raise.
  - apply preserves_get. intros a.
    apply preserves_bind; [apply preserves_lift_option|]. intros kvs.
    apply preserves_for_each. intros [key v].
    apply preserves_get. intros a'.
    destruct (as_dict (py_heap a') v).
    + apply preserves_bind; [apply new_item_keeps|]. intros item. apply IH.
    + destruct (list_of_objects (py_heap a') v) as [elems|].
      * apply preserves_bind; [apply new_item_keeps|]. intros item.
        apply preserves_for_each. intros ie. apply add_element_item_keeps.
      * apply preserves_bind; [apply alloc_m_keeps|]. intros wrapper.
        apply preserves_bind; [apply new_item_keeps|]. intros _.
        apply preserves_ret.
Qed.

Lemma populate_tree_keeps : preserves P populate_tree.
Proof.
  unfold populate_tree.
  apply preserves_bind; [apply preserves_modify; intros s; apply P_tree|]. intros _.
  apply preserves_get. intros a.
  apply preserves_if; [apply preserves_ret|].
  apply preserves_bind; [apply new_item_keeps|]. intros root.
  apply preserves_bind; [apply preserves_lift|]. intros id.
  apply preserves_bind; [|intros _; apply add_tree_items_keeps].
  destruct id as [[]|]; first [apply preserves_ret|apply preserves_raise].
Qed.
End tree.

Section canvas.
Hypothesis P_canvas : forall c s, P s -> P (set_canvas_items c s).

Lemma load_canvas_m_keeps : preserves P load_canvas_m.
Proof.
  unfold load_canvas_m. apply preserves_get. intros a.
  destruct (load_canvas (py_heap a) (json_data a)) as [[h' items] err].
  apply preserves_bind.
  - apply preserves_modify. intros s Hs. by apply P_canvas, P_heap.
  - intros _. destruct err; [apply preserves_raise|apply preserves_ret].
Qed.
End canvas.

Lemma populate_widgets_list_keeps :
  (forall w s, P s -> P (set_widgets_list w s)) -> preserves P populate_widgets_list.
Proof.
  intros P_list. unfold populate_widgets_list.
  apply preserves_bind; [apply preserves_modify; intros s; apply P_list|]. intros _.
  apply preserves_get. intros a.
  apply preserves_if; [apply preserves_ret|].
  apply preserves_bind; [apply preserves_lift|]. intros elems.
  apply preserves_for_each. intros elem.
  apply preserves_get. intros a'.
  apply preserves_bind; [apply preserves_lift|]. intros id.
  destruct id as [[]|]; cbv beta iota;
    first [apply preserves_raise|apply preserves_modify; intros ?; apply P_list].
Qed.

Lemma update_raw_editor_keeps :
  (forall t s, P s -> P (set_raw_text t s)) -> preserves P update_raw_editor.
Proof.
  intros P_raw. unfold update_raw_editor. apply preserves_get. intros a.
  apply preserves_if; [|apply preserves_ret].
  apply preserves_bind; [apply preserves_lift|]. intros text.
  apply preserves_modify. intros s. apply P_raw.
Qed.

Lemma show_message_keeps m :
  (forall ms s, P s -> P (set_messages ms s)) -> preserves P (show_message m).
Proof. intros P_msg. apply preserves_modify. intros s. apply P_msg. Qed.

End frame.

(** ** Loading documents that are no object *)

Lemma alloc_json_m_run j a :
  alloc_json_m j a
  = (Ok (alloc_json j (py_heap a)).1, set_py_heap (alloc_json j (py_heap a)).2 a).
Proof. unfold alloc_json_m. by destruct (alloc_json j (py_heap a)). Qed.

Lemma loads_m_run text j a :
  json_loads text = Some j ->
  loads_m text a
  = (Ok (alloc_json j (py_heap a)).1, set_py_heap (alloc_json j (py_heap a)).2 a).
Proof.
  intros Hj. unfold loads_m. rewrite Hj. cbn [lift_option]. rewrite bindM_ret.
  apply alloc_json_m_run.
Qed.

Lemma bindM_run {A B} (m : M A) (f : A -> M B) a x a' :
  m a = (Ok x, a') -> (m ≫= f) a = f x a'.
Proof. intros Hm. unfold mbind, M_bind. by rewrite Hm. Qed.

(** X13.  Loading a file whose text parses to a falsy value (an empty
    object or list, [null], [false], zero, an empty string) succeeds without
    a message: the value becomes the document, the file the current file,
    tree, list of widgets and canvas are emptied, but the raw editor keeps
    the text it had, and the property form is not touched. *)
Theorem load_file_empty_document a file_path text j :
  dict_get (disk a) file_path = Some text ->
  json_loads text = Some j ->
  json_truthy j = false ->
  load_file file_path a
  = (Ok (),
     {| py_heap := (alloc_json j (py_heap a)).2; disk := disk a;
        read_only := read_only a; current_file := Some file_path;
        json_data := (alloc_json j (py_heap a)).1; modified := false;
        raw_text := raw_text a; raw_tab_active := raw_tab_active a;
        current_data := current_data a; form := form a; tree := [];
        widgets_list := []; canvas_items := []; messages := messages a |}).
Proof.
  intros Hread Hj Hfalsy. unfold load_file, try_except.
  rewrite bindM_get, Hread. cbn [lift_option]. rewrite bindM_ret.
  rewrite (bindM_run _ _ _ _ _ (loads_m_run _ _ a Hj)).
  rewrite !bindM_modify.
  pose proof (truthy_alloc_json j (py_heap a)) as Ht. rewrite Hfalsy in Ht.
  unfold populate_tree. rewrite bindM_assoc, bindM_modify, bindM_assoc, bindM_get.
  cbn [py_heap json_data set_tree set_modified set_current_file set_json_data set_py_heap].
  rewrite Ht. cbn [negb]. rewrite bindM_ret.
  unfold populate_widgets_list.
  rewrite bindM_assoc, bindM_modify, bindM_assoc, bindM_get.
  cbn [py_heap json_data set_widgets_list set_tree set_modified set_current_file
       set_json_data set_py_heap].
  rewrite Ht. cbn [negb]. rewrite bindM_ret.
  unfold load_canvas_m. rewrite bindM_assoc, bindM_get.
  cbn [py_heap json_data set_widgets_list set_tree set_modified set_current_file
       set_json_data set_py_heap].
  unfold load_canvas. rewrite Ht. cbn [negb].
  rewrite bindM_assoc, bindM_modify, bindM_ret.
  unfold update_raw_editor. rewrite bindM_get.
  cbn [py_heap json_data set_canvas_items set_widgets_list set_tree set_modified
       set_current_file set_json_data set_py_heap].
  by rewrite Ht.
Qed.

Lemma load_file_empty_document_witness :
  load_file (str "empty.json") three_files_loaded
  = (Ok (),
     {| py_heap := py_heap three_files_loaded ++ [ODict []];
        disk := disk three_files_loaded;
        read_only := []; current_file := Some (str "empty.json");
        json_data := VRef (length (py_heap three_files_loaded)); modified := false;
        raw_text := float_doc_pretty; raw_tab_active := false;
        current_data := VNone; form := []; tree := [];
        widgets_list := []; canvas_items := []; messages := [] |}).
Proof.
  apply (load_file_empty_document three_files_loaded (str "empty.json") (str "{}") (JObj [])).
  - reflexivity.
  - reflexivity.
  - reflexivity.
Defined.

(** X14.  Loading a file whose text parses to a truthy value that is
    no object (a non-empty list or string, a number, [true]) is reported as
    a failed load with [AttributeError], yet the value has become the
    document and the file the current file, with the modified flag cleared;
    the tree holds the root item alone, and list of widgets, canvas and raw
    editor still show the previous document. *)
Theorem load_file_not_an_object a file_path text j :
  dict_get (disk a) file_path = Some text ->
  json_loads text = Some j ->
  json_truthy j = true -> is_object j = false ->
  load_file file_path a
  = (Ok (),
     {| py_heap := (alloc_json j (py_heap a)).2; disk := disk a;
        read_only := read_only a; current_file := Some file_path;
        json_data := (alloc_json j (py_heap a)).1; modified := false;
        raw_text := raw_text a; raw_tab_active := raw_tab_active a;
        current_data := current_data a; form := form a; tree := [root_item];
        widgets_list := widgets_list a; canvas_items := canvas_items a;
        messages := messages a ++ [FailedToLoad AttributeError] |}).
Proof.
  intros Hread Hj Htruthy Hobj. unfold load_file, try_except.
  rewrite bindM_get, Hread. cbn [lift_option]. rewrite bindM_ret.
  rewrite (bindM_run _ _ _ _ _ (loads_m_run _ _ a Hj)).
  rewrite !bindM_modify.
  pose proof (truthy_alloc_json j (py_heap a)) as Ht. rewrite Htruthy in Ht.
  pose proof (as_dict_alloc_json j (py_heap a) Hobj) as Hd.
  unfold populate_tree. rewrite bindM_assoc, bindM_modify, bindM_assoc, bindM_get.
  cbn [py_heap json_data set_tree set_modified set_current_file set_json_data set_py_heap].
  rewrite Ht. cbn [negb].
  unfold py_get. rewrite Hd.
  rewrite !bindM_assoc. unfold mbind at 1, M_bind at 1. cbn [new_item].
  by rewrite bindM_assoc, bindM_lift_Raise.
Qed.

Lemma load_file_not_an_object_witness :
  load_file (str "list.json") three_files_loaded
  = (Ok (),
     {| py_heap := py_heap three_files_loaded ++ [OList [VInt 1]];
        disk := disk three_files_loaded;
        read_only := []; current_file := Some (str "list.json");
        json_data := VRef (length (py_heap three_files_loaded)); modified := false;
        raw_text := float_doc_pretty; raw_tab_active := false;
        current_data := VNone; form := []; tree := [root_item];
        widgets_list := []; canvas_items := [];
        messages := [FailedToLoad AttributeError] |}).
Proof.
  apply (load_file_not_an_object three_files_loaded (str "list.json") (str "[1]")
           (JArr [JInt 1])).
  - reflexivity.
  - reflexivity.
  - reflexivity.
  - reflexivity.
Defined.

(** ** What loading and saving leave alone *)

Section files.
Variable P : app -> Prop.
Hypothesis P_heap : forall h s, P s -> P (set_py_heap h s).
Hypothesis P_tree : forall t s, P s -> P (set_tree t s).
Hypothesis P_canvas : forall c s, P s -> P (set_canvas_items c s).
Hypothesis P_json : forall v s, P s -> P (set_json_data v s).
Hypothesis P_modified : forall b s, P s -> P (set_modified b s).
Hypothesis P_messages : forall ms s, P s -> P (set_messages ms s).

Lemma save_to_keeps path :
  (forall d s, P s -> P (set_disk d s)) -> preserves P (save_to path).
Proof.
  intros P_disk. unfold save_to.
  apply preserves_try_except; [|intros e; by apply show_message_keeps].
  apply preserves_get. intros a.
  apply preserves_bind.
  { apply preserves_if; [|apply preserves_ret].
    apply preserves_bind; [by apply loads_m_keeps|]. intros v.
    apply preserves_modify. intros s. apply P_json. }
  intros _. apply preserves_get. intros a'.
  apply preserves_bind;
    [apply preserves_if; [apply preserves_raise|apply preserves_ret]|]. intros _.
  apply preserves_bind; [apply preserves_modify; intros s; apply P_disk|]. intros _.
  apply preserves_bind; [apply preserves_lift|]. intros text.
  apply preserves_bind;
    [apply preserves_if; [apply preserves_ret|apply preserves_raise]|]. intros _.
  apply preserves_bind; [apply preserves_modify; intros s; apply P_disk|]. intros _.
  apply preserves_bind; [apply preserves_modify; intros s; apply P_modified|]. intros _.
  apply preserves_bind; [by apply populate_tree_keeps|]. intros _.
  by apply load_canvas_m_keeps.
Qed.

Lemma load_file_keeps file_path :
  (forall f s, P s -> P (set_current_file f s)) ->
  (forall w s, P s -> P (set_widgets_list w s)) ->
  (forall t s, P s -> P (set_raw_text t s)) ->
  preserves P (load_file file_path).
Proof.
  intros P_file P_list P_raw. unfold load_file.
  apply preserves_try_except; [|intros e; by apply show_message_keeps].
  apply preserves_get. intros a.
  apply preserves_bind; [apply preserves_lift_option|]. intros text.
  apply preserves_bind; [by apply loads_m_keeps|]. intros v.
  apply preserves_bind; [apply preserves_modify; intros s; apply P_json|]. intros _.
  apply preserves_bind; [apply preserves_modify; intros s; apply P_file|]. intros _.
  apply preserves_bind; [apply preserves_modify; intros s; apply P_modified|]. intros _.
  apply preserves_bind; [by apply populate_tree_keeps|]. intros _.
  apply preserves_bind; [by apply populate_widgets_list_keeps|]. intros _.
  apply preserves_bind; [by apply load_canvas_m_keeps|]. intros _.
  by apply update_raw_editor_keeps.
Qed.

Lemma save_file_keeps choice :
  (forall d s, P s -> P (set_disk d s)) ->
  (forall f s, P s -> P (set_current_file f s)) ->
  preserves P (save_file choice).
Proof.
  intros P_disk P_file.
  assert (Has : preserves P (save_file_as choice)).
  { unfold save_file_as. apply preserves_if; [apply preserves_ret|].
    apply preserves_bind; [apply preserves_modify; intros s; apply P_file|].
    intros _. by apply save_to_keeps. }
  unfold save_file. apply preserves_get. intros a.
  destruct (current_file a) as [path|]; [|done].
  apply preserves_if; [done|by apply save_to_keeps].
Qed.
End files.

(** X15.  Neither loading nor saving a file touches the property form:
    after [load_file] and after [save_file], whether they succeed or fail,
    the form shows the rows it showed and edits the object it was bound to;
    [save_file] leaves the list of widgets as it is, too. *)
Theorem files_leave_form a file_path choice :
  (current_data (load_file file_path a).2 = current_data a /\
   form (load_file file_path a).2 = form a) /\
  (current_data (save_file choice a).2 = current_data a /\
   form (save_file choice a).2 = form a /\
   widgets_list (save_file choice a).2 = widgets_list a).
Proof.
  split.
  - by apply (load_file_keeps
                (fun s => current_data s = current_data a /\ form s = form a)).
  - by apply (save_file_keeps
                (fun s => current_data s = current_data a /\ form s = form a /\
                          widgets_list s = widgets_list a)).
Qed.

(** X16.  [save_file_as] with a path chosen makes that path the
    current file before it saves, and it stays the current file whether the
    save succeeds or fails. *)
Theorem save_file_as_switches_file a choice :
  choice <> [] -> current_file (save_file_as choice a).2 = Some choice.
Proof.
  intros Hc. unfold save_file_as. rewrite str_eqb_neq by done.
  rewrite bindM_modify.
  by apply (save_to_keeps (fun s => current_file s = Some choice)).
Qed.

Lemma save_file_as_switches_file_witness :
  current_file (save_file_as (str "copy.json") float_doc_raw_broken_active).2
  = Some (str "copy.json").
Proof.
  apply (save_file_as_switches_file float_doc_raw_broken_active (str "copy.json")).
  done.
Defined.

(** ** Saving from the raw editor *)

Lemma try_except_keeps_from (P : app -> Prop) (m : M unit) handler a :
  P (m a).2 -> (forall e, preserves P (handler e)) -> P (try_except m handler a).2.
Proof.
  intros Hm Hh. unfold try_except. destruct (m a) as [[x|e] a']; [done|].
  by apply Hh.
Qed.

(** The state in which [save_to] refreshes the views, after a save from the
    raw editor that wrote the file. *)
Lemma save_to_raw_written a path j :
  raw_tab_active a = true ->
  json_loads (raw_text a) = Some j ->
  path ∉ read_only a ->
  utf8_encodable (json_dumps false j) = true ->
  forall P : app -> Prop,
    (forall h s, P s -> P (set_py_heap h s)) ->
    (forall t s, P s -> P (set_tree t s)) ->
    (forall c s, P s -> P (set_canvas_items c s)) ->
    (forall ms s, P s -> P (set_messages ms s)) ->
    P (set_modified false
         (set_disk (dict_set (dict_set (disk a) path []) path (json_dumps false j))
            (set_json_data (alloc_json j (py_heap a)).1
               (set_py_heap (alloc_json j (py_heap a)).2 a)))) ->
    P (save_to path a).2.
Proof.
  intros Hraw Hj Hro Henc P P_heap P_tree P_canvas P_msg HP.
  unfold save_to. apply try_except_keeps_from; [|intros e; by apply show_message_keeps].
  rewrite bindM_get, Hraw.
  rewrite bindM_assoc, (bindM_run _ _ _ _ _ (loads_m_run _ _ a Hj)).
  rewrite bindM_modify, bindM_get.
  cbn [read_only set_json_data set_py_heap].
  rewrite bool_decide_eq_false_2 by done. rewrite bindM_ret, bindM_modify.
  cbn [py_heap json_data set_disk set_json_data set_py_heap].
  rewrite py_dumps_alloc_json, bindM_lift_Ok, Henc, bindM_ret, !bindM_modify.
  cbn [disk set_disk set_json_data set_py_heap].
  assert (Hviews : preserves P (populate_tree ≫= fun _ => load_canvas_m)).
  { apply preserves_bind; [by apply populate_tree_keeps|]. intros _.
    by apply load_canvas_m_keeps. }
  apply Hviews. exact HP.
Qed.

Lemma save_to_raw_loaded a path j :
  raw_tab_active a = true ->
  json_loads (raw_text a) = Some j ->
  forall P : app -> Prop,
    (forall h s, P s -> P (set_py_heap h s)) ->
    (forall t s, P s -> P (set_tree t s)) ->
    (forall c s, P s -> P (set_canvas_items c s)) ->
    (forall ms s, P s -> P (set_messages ms s)) ->
    (forall d s, P s -> P (set_disk d s)) ->
    (forall b s, P s -> P (set_modified b s)) ->
    P (set_json_data (alloc_json j (py_heap a)).1
         (set_py_heap (alloc_json j (py_heap a)).2 a)) ->
    P (save_to path a).2.
Proof.
  intros Hraw Hj P P_heap P_tree P_canvas P_msg P_disk P_mod HP.
  unfold save_to. apply try_except_keeps_from; [|intros e; by apply show_message_keeps].
  rewrite bindM_get, Hraw.
  rewrite bindM_assoc, (bindM_run _ _ _ _ _ (loads_m_run _ _ a Hj)).
  rewrite bindM_modify.
  revert HP. generalize (set_json_data (alloc_json j (py_heap a)).1
                           (set_py_heap (alloc_json j (py_heap a)).2 a)).
  apply preserves_get. intros a'.
  apply preserves_bind;
    [apply preserves_if; [apply preserves_raise|apply preserves_ret]|]. intros _.
  apply preserves_bind; [apply preserves_modify; intros s; apply P_disk|]. intros _.
  apply preserves_bind; [apply preserves_lift|]. intros text.
  apply preserves_bind;
    [apply preserves_if; [apply preserves_ret|apply preserves_raise]|]. intros _.
  apply preserves_bind; [apply preserves_modify; intros s; apply P_disk|]. intros _.
  apply preserves_bind; [apply preserves_modify; intros s; apply P_mod|]. intros _.
  apply preserves_bind; [by apply populate_tree_keeps|]. intros _.
  by apply load_canvas_m_keeps.
Qed.

Lemma save_file_current a path choice :
  current_file a = Some path -> path <> [] -> save_file choice a = save_to path a.
Proof.
  intros Hf Hp. unfold save_file. rewrite bindM_get, Hf. by rewrite str_eqb_neq.
Qed.

(** X17.  A save with the raw editor in front, holding a text of
    Unicode that parses to the tree [j], to a current file that can be
    written: the file then holds a text that parses to [j] again, and the
    modified flag is cleared, whatever the refresh of tree and canvas does
    afterwards.  The text of [j] must be encodable as UTF-8. *)
Theorem save_from_raw_tab_round_trip a path choice j :
  current_file a = Some path -> path <> [] ->
  raw_tab_active a = true ->
  unicode_text (raw_text a) -> json_loads (raw_text a) = Some j ->
  path ∉ read_only a ->
  utf8_encodable (json_dumps false j) = true ->
  exists text,
    dict_get (disk (save_file choice a).2) path = Some text /\
    json_loads text = Some j /\
    modified (save_file choice a).2 = false.
Proof.
  intros Hf Hp Hraw Htext Hj Hro Henc. exists (json_dumps false j).
  rewrite (save_file_current _ _ _ Hf Hp).
  assert (Hr : json_loads (json_dumps false j) = Some j).
  { apply json_dumps_reads_back. by eapply json_loads_wf. }
  enough (dict_get (disk (save_to path a).2) path = Some (json_dumps false j) /\
          modified (save_to path a).2 = false) as [? ?] by done.
  apply (save_to_raw_written a path j Hraw Hj Hro Henc
           (fun s => dict_get (disk s) path = Some (json_dumps false j) /\
                     modified s = false)); try done.
  split; [|done]. cbn [disk set_modified set_disk]. apply dict_get_set_eq.
Qed.

Lemma float_doc_pretty_unicode : unicode_text (raw_text float_doc_raw_active).
Proof. apply unicode_text_check. vm_compute. reflexivity. Qed.

Lemma save_from_raw_tab_round_trip_witness :
  exists text,
    dict_get (disk (save_file [] float_doc_raw_active).2) (str "doc.json") = Some text /\
    json_loads text = Some float_doc_tree /\
    modified (save_file [] float_doc_raw_active).2 = false.
Proof.
  apply (save_from_raw_tab_round_trip float_doc_raw_active (str "doc.json") []
           float_doc_tree).
  - reflexivity.
  - done.
  - reflexivity.
  - apply float_doc_pretty_unicode.
  - vm_compute. reflexivity.
  - apply not_elem_of_nil.
  - vm_compute. reflexivity.
Defined.

(** X18.  A save with the raw editor in front whose text parses to
    an object or a list replaces the document by an object made during the
    save: no reference held before the save leads to it.  This holds even
    when the save then fails to write. *)
Theorem save_from_raw_tab_replaces_document a path choice j :
  current_file a = Some path -> path <> [] ->
  raw_tab_active a = true -> json_loads (raw_text a) = Some j ->
  match j with JArr _ | JObj _ => True | _ => False end ->
  exists l, json_data (save_file choice a).2 = VRef l /\ (length (py_heap a) <= l)%nat.
Proof.
  intros Hf Hp Hraw Hj Hc. rewrite (save_file_current _ _ _ Hf Hp).
  destruct (alloc_json_fresh j (py_heap a) Hc) as (l & Hl & Hlen). exists l.
  split; [|done].
  by apply (save_to_raw_loaded a path j Hraw Hj (fun s => json_data s = VRef l)).
Qed.

Lemma save_from_raw_tab_replaces_document_witness :
  exists l, json_data (save_file [] float_doc_raw_active).2 = VRef l /\
            (length (py_heap float_doc_raw_active) <= l)%nat.
Proof.
  apply (save_from_raw_tab_replaces_document float_doc_raw_active (str "doc.json") []
           float_doc_tree).
  - reflexivity.
  - done.
  - reflexivity.
  - vm_compute. reflexivity.
  - exact I.
Defined.

(** ** Closing the window *)

Lemma try_except_returns (m : M unit) (f : exn -> message) a :
  (try_except m (fun e => show_message (f e)) a).1 = Ok ().
Proof. unfold try_except. by destruct (m a) as [[[]|e] a']. Qed.

Lemma save_file_returns choice a : (save_file choice a).1 = Ok ().
Proof.
  assert (Has : forall b, (save_file_as choice b).1 = Ok ()).
  { intros b. unfold save_file_as. destruct (str_eqb choice []); [done|].
    rewrite bindM_modify. apply try_except_returns. }
  unfold save_file. rewrite bindM_get.
  destruct (current_file a) as [path|]; [|done].
  destruct (str_eqb path []); [done|apply try_except_returns].
Qed.

(** X19.  [closeEvent] never raises, and it refuses to close the window
    in one case only: there are unsaved changes and the answer is [Cancel]. *)
Theorem closeEvent_accepts reply choice a :
  (closeEvent reply choice a).1
  = Ok (match reply with Cancel => negb (modified a) | _ => true end).
Proof.
  unfold closeEvent. rewrite bindM_get.
  destruct (modified a); [|by destruct reply]. destruct reply; try done.
  unfold mbind, M_bind. pose proof (save_file_returns choice a) as Hs.
  by destruct (save_file choice a) as [[[]|e] a'].
Qed.

(** X20.  Answering [Save] when closing with unsaved changes closes
    the window even if the save fails: with a raw text that is not JSON in
    front, the failure is shown, nothing is written, the document stays
    modified, and the close is accepted. *)
Theorem closeEvent_save_failure_closes a path choice :
  modified a = true ->
  current_file a = Some path -> path <> [] ->
  raw_tab_active a = true -> json_loads (raw_text a) = None ->
  closeEvent Save choice a
  = (Ok true, set_messages (messages a ++ [FailedToSave JSONDecodeError]) a).
Proof.
  intros Hm Hf Hp Hraw Hbad. unfold closeEvent. rewrite bindM_get, Hm.
  unfold mbind, M_bind.
  by rewrite (save_file_current _ _ _ Hf Hp), save_to_invalid_raw_text.
Qed.

Lemma closeEvent_save_failure_closes_witness :
  closeEvent Save [] float_doc_raw_broken_active
  = (Ok true,
     set_messages (messages float_doc_raw_broken_active ++ [FailedToSave JSONDecodeError])
       float_doc_raw_broken_active).
Proof.
  apply (closeEvent_save_failure_closes float_doc_raw_broken_active (str "doc.json") []).
  - reflexivity.
  - reflexivity.
  - done.
  - reflexivity.
  - reflexivity.
Defined.

(** ** Saving the document in memory *)

(** The state in which [save_to] refreshes the views, after a save of the
    document in memory that wrote the file. *)
Lemma save_to_writes a path j :
  raw_tab_active a = false ->
  path ∉ read_only a ->
  reify (S (length (py_heap a))) (py_heap a) (json_data a) = Some j ->
  utf8_encodable (json_dumps false j) = true ->
  forall P : app -> Prop,
    (forall h s, P s -> P (set_py_heap h s)) ->
    (forall t s, P s -> P (set_tree t s)) ->
    (forall c s, P s -> P (set_canvas_items c s)) ->
    (forall ms s, P s -> P (set_messages ms s)) ->
    P (set_modified false
         (set_disk (dict_set (dict_set (disk a) path []) path (json_dumps false j)) a)) ->
    P (save_to path a).2.
Proof.
  intros Hraw Hro Hj Henc P P_heap P_tree P_canvas P_msg HP.
  unfold save_to. apply try_except_keeps_from;
    [|intros e; by apply show_message_keeps].
  rewrite bindM_get, Hraw, bindM_ret, bindM_get.
  rewrite bool_decide_eq_false_2 by done. rewrite bindM_ret, bindM_modify.
  cbn [py_heap json_data set_disk]. unfold py_dumps. rewrite Hj.
  rewrite bindM_lift_Ok, Henc, bindM_ret, !bindM_modify.
  assert (Hviews : preserves P (populate_tree ≫= fun _ => load_canvas_m)).
  { apply preserves_bind; [by apply populate_tree_keeps|]. intros _.
    by apply load_canvas_m_keeps. }
  apply Hviews. exact HP.
Qed.

(** X21.  A save with another tab than the raw editor in front, to a
    current file that can be written: the file then holds the text
    [json.dump] writes for the document as it is in memory, the modified
    flag is cleared and the document is the same object as before.  The
    document must not reach itself, and its text must be encodable as
    UTF-8. *)
Theorem save_writes_document a path choice j :
  current_file a = Some path -> path <> [] ->
  raw_tab_active a = false ->
  path ∉ read_only a ->
  reify (S (length (py_heap a))) (py_heap a) (json_data a) = Some j ->
  utf8_encodable (json_dumps false j) = true ->
  dict_get (disk (save_file choice a).2) path = Some (json_dumps false j) /\
  modified (save_file choice a).2 = false /\
  json_data (save_file choice a).2 = json_data a.
Proof.
  intros Hf Hp Hraw Hro Hj Henc. rewrite (save_file_current _ _ _ Hf Hp).
  apply (save_to_writes a path j Hraw Hro Hj Henc
           (fun s => dict_get (disk s) path = Some (json_dumps false j) /\
                     modified s = false /\ json_data s = json_data a)); try done.
  split_and!; [|done|done].
  cbn [disk set_modified set_disk]. apply dict_get_set_eq.
Qed.

Lemma save_writes_document_witness :
  dict_get (disk (save_file [] float_doc_loaded).2) (str "doc.json")
    = Some (json_dumps false float_doc_tree) /\
  modified (save_file [] float_doc_loaded).2 = false /\
  json_data (save_file [] float_doc_loaded).2 = json_data float_doc_loaded.
Proof.
  apply (save_writes_document float_doc_loaded (str "doc.json") [] float_doc_tree).
  - reflexivity.
  - done.
  - reflexivity.
  - apply not_elem_of_nil.
  - vm_compute. reflexivity.
  - vm_compute. reflexivity.
Defined.

(** ** A file that parses replaces the document *)

(** X22.  As soon as the text of the file parses, [load_file] has
    replaced the document, made the file the current file and cleared the
    modified flag, whatever follows: an exception while tree, list or
    canvas are filled is reported as a failed load but undoes none of it. *)
Theorem load_file_replaces_document a file_path text j :
  dict_get (disk a) file_path = Some text ->
  json_loads text = Some j ->
  json_data (load_file file_path a).2 = (alloc_json j (py_heap a)).1 /\
  current_file (load_file file_path a).2 = Some file_path /\
  modified (load_file file_path a).2 = false.
Proof.
  intros Hread Hj.
  set (P := fun s => json_data s = (alloc_json j (py_heap a)).1 /\
                     current_file s = Some file_path /\ modified s = false).
  change (P (load_file file_path a).2).
  unfold load_file. apply try_except_keeps_from;
    [|intros e; by apply show_message_keeps].
  rewrite bindM_get, Hread. cbn [lift_option]. rewrite bindM_ret.
  rewrite (bindM_run _ _ _ _ _ (loads_m_run _ _ a Hj)).
  rewrite !bindM_modify.
  assert (Hviews : preserves P
    (populate_tree ≫= fun _ => populate_widgets_list ≫= fun _ =>
     load_canvas_m ≫= fun _ => update_raw_editor)).
  { apply preserves_bind; [by apply populate_tree_keeps|]. intros _.
    apply preserves_bind; [by apply populate_widgets_list_keeps|]. intros _.
    apply preserves_bind; [by apply load_canvas_m_keeps|]. intros _.
    by apply update_raw_editor_keeps. }
  by apply Hviews.
Qed.

Lemma load_file_replaces_document_witness :
  json_data (load_file (str "list.json") three_files_loaded).2
    = VRef (length (py_heap three_files_loaded)) /\
  current_file (load_file (str "list.json") three_files_loaded).2 = Some (str "list.json") /\
  modified (load_file (str "list.json") three_files_loaded).2 = false.
Proof.
  apply (load_file_replaces_document three_files_loaded (str "list.json") (str "[1]")
           (JArr [JInt 1])).
  - reflexivity.
  - reflexivity.
Defined.

(** ** Documents the tree view accepts *)

Lemma returns_bind (P : app -> Prop) {A} (m : M A) (f : A -> M unit) :
  (forall s, P s -> exists x, (m s).1 = Ok x /\ P (m s).2 /\ returns P (f x)) ->
  returns P (m ≫= f).
Proof.
  intros Hm s Hs. destruct (Hm s Hs) as (x & Hx & HP & Hf).
  unfold mbind, M_bind. destruct (m s) as [r s']. simpl in *. subst r.
  by apply Hf.
Qed.

Lemma returns_for_each {A} P (xs : list A) (body : A -> M unit) :
  Forall (fun x => returns P (body x)) xs -> returns P (for_each xs body).
Proof.
  induction 1 as [|x xs Hx _ IH]; simpl; [by intros s Hs|].
  apply returns_bind. intros s Hs. destruct (Hx s Hs) as [Hr HP].
  exists (). destruct (body x s) as [[[]|e] s'] eqn:E; simpl in *; [|done].
  by split_and!.
Qed.

Lemma reify_object fuel h v j :
  reify fuel h v = Some j ->
  is_object j = true <-> is_Some (as_dict h v).
Proof.
  destruct fuel as [|fuel]; destruct v as [| | | | |l]; simpl;
    try (intros [= <-]; split; [done|by intros [? ?]]); [done|].
  destruct (h !! l) as [[kvs|xs]|]; [| |done].
  - intros (ys & _ & ->)%fmap_Some. done.
  - intros (ys & _ & ->)%fmap_Some. split; [done|by intros [? ?]].
Qed.

Lemma as_dict_grow (h ext : heap) v kvs :
  as_dict h v = Some kvs -> as_dict (h ++ ext) v = Some kvs.
Proof.
  intros (l & -> & Hl)%as_dict_Some. simpl. by rewrite (lookup_app_l_Some _ _ _ _ Hl).
Qed.

Lemma as_dict_grow_None (h ext : heap) fuel v j :
  reify fuel h v = Some j -> as_dict h v = None -> as_dict (h ++ ext) v = None.
Proof.
  destruct fuel as [|fuel]; destruct v as [| | | | |l]; simpl; try done.
  destruct (h !! l) as [[kvs|xs]|] eqn:Hl; [done| |done].
  intros _ _. by rewrite (lookup_app_l_Some _ _ _ _ Hl).
Qed.

Lemma returns_get P (f : app -> M unit) :
  (forall a, P a -> (f a a).1 = Ok () /\ P (f a a).2) -> returns P (get ≫= f).
Proof. intros Hf s Hs. rewrite bindM_get. by apply Hf. Qed.

Lemma new_item_grown h0 parent kind key data (f : nat -> M unit) :
  (forall i, returns (grown_from h0) (f i)) ->
  returns (grown_from h0) (new_item parent kind key data ≫= f).
Proof.
  intros Hf. apply returns_bind. intros s Hs. eexists. split; [done|]. by split.
Qed.

Lemma add_element_item_returns h0 parent i elem kvs :
  as_dict h0 elem = Some kvs ->
  returns (grown_from h0) (add_element_item parent (i, elem)).
Proof.
  intros Hd. unfold add_element_item. apply new_item_grown. intros sub_item.
  apply returns_get. intros a [ext Hext]. unfold py_get.
  rewrite Hext, (as_dict_grow _ _ _ _ Hd), bindM_lift_Ok.
  split; [done|]. by exists ext.
Qed.

Lemma shows_in_tree_members kvs :
  shows_in_tree (JObj kvs) = true -> Forall (fun kv => shows_in_tree kv.2 = true) kvs.
Proof.
  induction kvs as [|[k x] kvs IH]; [constructor|].
  intros [Hx Hkvs]%andb_true_iff. constructor; [done|by apply IH].
Qed.

Lemma add_tree_items_returns h0 fuel :
  forall v kvs parent,
    reify fuel h0 v = Some (JObj kvs) ->
    shows_in_tree (JObj kvs) = true ->
    returns (grown_from h0) (add_tree_items fuel parent v).
Proof.
  induction fuel as [|fuel IH]; intros v kvs parent Hr Hok.
  { by destruct v. }
  destruct v as [| | | | |l]; try done. simpl in Hr.
  destruct (h0 !! l) as [[hkvs|xs]|] eqn:Hl; [| |done];
    apply fmap_Some in Hr as (ys & Hys & Heq); [|done]. injection Heq as <-.
  apply mapM_Some in Hys. apply shows_in_tree_members in Hok.
  cbn [add_tree_items]. apply returns_get. intros a Ha.
  pose proof Ha as [ext Hext]. cbn [as_dict]. rewrite Hext.
  rewrite (lookup_app_l_Some _ _ _ _ Hl). cbn [lift_option]. rewrite bindM_ret.
  revert a Ha ext Hext. clear Hl.
  enough (Hloop : returns (grown_from h0)
    (for_each hkvs (fun kv =>
       let '(key, v) := kv in
       a ← get;
       match as_dict (py_heap a) v with
       | Some _ =>
           item ← new_item (Some parent) ObjectItem key v;
           add_tree_items fuel item v
       | None =>
           match list_of_objects (py_heap a) v with
           | Some elems =>
               item ← new_item (Some parent) ArrayItem key VNone;
               for_each (imap pair elems) (add_element_item item)
           | None =>
               wrapper ← alloc_m (ODict [(key, v)]);
               _ ← new_item (Some parent) LeafItem key wrapper;
               mret ()
           end
       end))).
  { intros a Ha _ _. by apply Hloop. }
  apply returns_for_each.
  induction Hys as [|[key v] [k x] hkvs ys Hkv _ IHys]; [constructor|].
  apply Forall_cons in Hok as [Hx Hok]. constructor; [|by apply IHys].
  simpl in Hkv, Hx. apply fmap_Some in Hkv as (x' & Hv & [= -> ->]). rename x' into x.
  apply returns_get. intros a [ext Hext]. rewrite Hext.
  destruct (as_dict h0 v) as [kvs'|] eqn:Hd.
  - rewrite (as_dict_grow _ _ _ _ Hd).
    assert (Hobj : is_object x = true).
    { apply (reify_object _ _ _ _ Hv). by rewrite Hd. }
    destruct x as [| | | | | |kvs'']; try done.
    refine (new_item_grown h0 _ _ _ _ _ _ a (ex_intro _ ext Hext)).
    intros item. by eapply IH.
  - rewrite (as_dict_grow_None _ _ _ _ _ Hv Hd).
    destruct (list_of_objects (h0 ++ ext) v) as [elems|] eqn:Hlist.
    + refine (new_item_grown h0 _ _ _ _ _ _ a (ex_intro _ ext Hext)).
      intros item. apply returns_for_each.
      unfold list_of_objects in Hlist. destruct v as [| | | | |l']; try done.
      destruct fuel as [|fuel']; [done|]. simpl in Hv.
      destruct (h0 !! l') as [o|] eqn:Hl'; [|done].
      rewrite (lookup_app_l_Some _ _ _ _ Hl') in Hlist.
      destruct o as [|[|first rest]]; try done.
      destruct (as_dict (h0 ++ ext) first) as [fk|] eqn:Hfirst; [|done].
      injection Hlist as <-.
      apply fmap_Some in Hv as (ys' & Hys' & ->). apply mapM_Some in Hys'.
      apply Forall2_cons_inv_l in Hys' as (y & ys'' & Hy & Hrest & ->).
      assert (Hfd : is_Some (as_dict h0 first)).
      { destruct (as_dict h0 first) eqn:E; [done|].
        by rewrite (as_dict_grow_None _ _ _ _ _ Hy E) in Hfirst. }
      apply (reify_object _ _ _ _ Hy) in Hfd as Hyo.
      destruct y as [| | | | | |ykvs]; try done. cbn [shows_in_tree] in Hx.
      assert (Hall : Forall (fun e => is_Some (as_dict h0 e)) (first :: rest)).
      { constructor; [done|]. rewrite forallb_forall in Hx.
        clear -Hrest Hx. induction Hrest as [|e y' rest ys Hey _ IHr]; [constructor|].
        constructor.
        - apply (reify_object _ _ _ _ Hey). apply Hx. by left.
        - apply IHr. intros z Hz. apply Hx. by right. }
      apply Forall_forall. intros [i e] Hie.
      apply elem_of_lookup_imap in Hie as (i' & e' & [= -> ->] & He).
      apply list_elem_of_lookup_2 in He.
      destruct (proj1 (Forall_forall _ _) Hall _ He) as [ek Hek].
      by eapply add_element_item_returns.
    + unfold mbind, M_bind, alloc_m, alloc, new_item. cbn. split; [done|].
      exists (ext ++ [ODict [(key, v)]]). by rewrite Hext, app_assoc.
Qed.

(** The keys of a dictionary and of the tree it stands for. *)
Lemma reify_dict_get fuel h hkvs kvs k :
  Forall2 (fun kv kx => pair kv.1 <$> reify fuel h kv.2 = Some kx) hkvs kvs ->
  match dict_get kvs k with
  | None => dict_get hkvs k = None
  | Some x => exists v, dict_get hkvs k = Some v /\ reify fuel h v = Some x
  end.
Proof.
  induction 1 as [|[k1 v] [k2 x] hkvs kvs Hkv _ IH]; [done|].
  simpl in Hkv. apply fmap_Some in Hkv as (x' & Hv & [= -> ->]). simpl.
  destruct (str_eqb k1 k); [by exists v|done].
Qed.

Lemma reify_str fuel h v s : reify fuel h v = Some (JStr s) -> v = VStr s.
Proof.
  destruct fuel as [|fuel]; destruct v as [| | | | |l]; simpl; try done;
    try (by intros [= ->]).
  by destruct (h !! l) as [[|]|]; [intros (? & _ & ?)%fmap_Some..|].
Qed.

(** On an object whose [id] is a string or missing, [populate_tree] is
    [add_tree_items] below the root item. *)
Lemma populate_tree_object a kvs :
  reify (S (length (py_heap a))) (py_heap a) (json_data a) = Some (JObj kvs) ->
  match dict_get kvs (str "id") with
  | None | Some (JStr _) => True
  | Some _ => False
  end ->
  populate_tree a
  = if truthy (py_heap a) (json_data a) then
      add_tree_items (S (length (py_heap a))) 0 (json_data a) (set_tree [root_item] a)
    else (Ok (), set_tree [] a).
Proof.
  intros Hr Hid. unfold populate_tree. rewrite bindM_modify, bindM_get.
  cbn [py_heap json_data set_tree].
  destruct (truthy (py_heap a) (json_data a)); [|done]. cbn [negb].
  unfold mbind at 1, M_bind at 1. cbn [new_item].
  assert (Hget : exists o, py_get (py_heap a) (json_data a) (str "id") = Ok o /\
                           match o with None | Some (VStr _) => True | _ => False end).
  { destruct (json_data a) as [| | | | |l]; try done. simpl in Hr.
    unfold py_get, as_dict.
    destruct (py_heap a !! l) as [[hkvs|xs]|]; [| |done];
      apply fmap_Some in Hr as (ys & Hys & Heq); [|done]. injection Heq as <-.
    apply mapM_Some in Hys. eexists. split; [done|].
    pose proof (reify_dict_get _ _ _ _ (str "id") Hys) as Hk.
    destruct (dict_get kvs (str "id")) as [x|]; [|by rewrite Hk].
    destruct Hk as (v & -> & Hv). destruct x; try done.
    by rewrite (reify_str _ _ _ _ Hv). }
  destruct Hget as (o & Ho & Hstr). cbn [py_heap set_tree]. rewrite Ho.
  rewrite bindM_lift_Ok.
  assert (Hskip : (match o with
                   | None | Some (VStr _) => mret ()
                   | Some _ => raise TypeError
                   end : M unit) = mret ()).
  { by destruct o as [[]|]. }
  by rewrite Hskip, bindM_ret.
Qed.



(** ** Loading a document and saving it at once *)

Section growing.
Variable P : app -> Prop.
Hypothesis P_alloc : forall o s, P s -> P (set_py_heap (py_heap s ++ [o]) s).
Hypothesis P_tree : forall t s, P s -> P (set_tree t s).

Lemma add_tree_items_grows fuel :
  forall parent data, preserves P (add_tree_items fuel parent data).
Proof.
  induction fuel as [|fuel IH]; intros parent data; simpl.
  - apply preserves_raise.
  - apply preserves_get. intros a.
    apply preserves_bind; [apply preserves_lift_option|]. intros kvs.
    apply preserves_for_each. intros [key v].
    apply preserves_get. intros a'.
    destruct (as_dict (py_heap a') v).
    + apply preserves_bind; [by apply new_item_keeps|]. intros item. apply IH.
    + destruct (list_of_objects (py_heap a') v) as [elems|].
      * apply preserves_bind; [by apply new_item_keeps|]. intros item.
        apply preserves_for_each. intros ie. by apply add_element_item_keeps.
      * apply preserves_bind; [|intros wrapper].
        { intros s Hs. unfold alloc_m, alloc. simpl. by apply P_alloc. }
        apply preserves_bind; [by apply new_item_keeps|]. intros _.
        apply preserves_ret.
Qed.

Lemma populate_tree_grows : preserves P populate_tree.
Proof.
  unfold populate_tree.
  apply preserves_bind; [apply preserves_modify; intros s; apply P_tree|]. intros _.
  apply preserves_get. intros a.
  apply preserves_if; [apply preserves_ret|].
  apply preserves_bind; [by apply new_item_keeps|]. intros root.
  apply preserves_bind; [apply preserves_lift|]. intros id.
  apply preserves_bind; [|intros _; apply add_tree_items_grows].
  destruct id as [[]|]; first [apply preserves_ret|apply preserves_raise].
Qed.
End growing.

(** Without elements the canvas leaves the heap alone. *)
Lemma load_canvas_no_elements h v :
  match as_dict h v with
  | Some kvs => dict_get kvs (str "moduleElements") = None /\
                dict_get kvs (str "enhancedData") = None
  | None => True
  end ->
  (load_canvas h v).1.1 = h.
Proof.
  intros Hv. unfold load_canvas. destruct (negb (truthy h v)); [done|].
  unfold get_elements at 1, py_get. destruct (as_dict h v) as [kvs|] eqn:Hd; [|done].
  destruct Hv as [Hm He]. rewrite bind_Ok, Hm. cbn [add_widgets].
  unfold get_elements, py_get. by rewrite Hd, bind_Ok, He.
Qed.

Lemma as_dict_no_elements j h ext :
  no_elements j ->
  match as_dict ((alloc_json j h).2 ++ ext) (alloc_json j h).1 with
  | Some kvs => dict_get kvs (str "moduleElements") = None /\
                dict_get kvs (str "enhancedData") = None
  | None => True
  end.
Proof.
  intros Hno. destruct (reify_alloc_json j h) as (e & He & Hr).
  specialize (Hr (S (length e)) ltac:(lia)). rewrite <- He in Hr.
  destruct (as_dict _ _) as [kvs|] eqn:Hd; [|done].
  destruct (as_dict (alloc_json j h).2 (alloc_json j h).1) as [kvs0|] eqn:Hd0.
  - rewrite (as_dict_grow _ ext _ _ Hd0) in Hd. injection Hd as <-.
    apply as_dict_Some in Hd0 as (l & Hv & Hl). rewrite Hv in Hr. simpl in Hr.
    rewrite Hl in Hr. apply fmap_Some in Hr as (ys & Hys & ->).
    apply mapM_Some in Hys. destruct Hno as [Hm He'].
    pose proof (reify_dict_get _ _ _ _ (str "moduleElements") Hys) as H1.
    pose proof (reify_dict_get _ _ _ _ (str "enhancedData") Hys) as H2.
    by rewrite Hm in H1; rewrite He' in H2.
  - by rewrite (as_dict_grow_None _ _ _ _ _ Hr Hd0) in Hd.
Qed.

(** What [load_file] leaves behind when the text parses to a document
    without elements. *)
Lemma load_file_no_elements a file_path text j :
  dict_get (disk a) file_path = Some text ->
  json_loads text = Some j ->
  no_elements j ->
  let a' := (load_file file_path a).2 in
  grown_from (alloc_json j (py_heap a)).2 a' /\
  json_data a' = (alloc_json j (py_heap a)).1 /\
  current_file a' = Some file_path /\
  disk a' = disk a /\ read_only a' = read_only a /\
  raw_tab_active a' = raw_tab_active a.
Proof.
  intros Hread Hj Hno.
  set (P := fun s => grown_from (alloc_json j (py_heap a)).2 s /\
                     json_data s = (alloc_json j (py_heap a)).1 /\
                     current_file s = Some file_path /\
                     disk s = disk a /\ read_only s = read_only a /\
                     raw_tab_active s = raw_tab_active a).
  change (P (load_file file_path a).2).
  assert (P_alloc : forall o s, P s -> P (set_py_heap (py_heap s ++ [o]) s)).
  { intros o s ([ext Hext] & ?). split; [|done]. exists (ext ++ [o]). cbn.
    by rewrite Hext, app_assoc. }
  unfold load_file. apply try_except_keeps_from.
  2:{ intros e. apply preserves_modify. by intros s. }
  rewrite bindM_get, Hread. cbn [lift_option]. rewrite bindM_ret.
  rewrite (bindM_run _ _ _ _ _ (loads_m_run _ _ a Hj)).
  rewrite !bindM_modify.
  assert (Hviews : preserves P
    (populate_tree ≫= fun _ => populate_widgets_list ≫= fun _ =>
     load_canvas_m ≫= fun _ => update_raw_editor)).
  { apply preserves_bind; [by apply populate_tree_grows|]. intros _.
    apply preserves_bind.
    { unfold populate_widgets_list.
      apply preserves_bind; [by apply preserves_modify|]. intros _.
      apply preserves_get. intros a0.
      apply preserves_if; [apply preserves_ret|].
      apply preserves_bind; [apply preserves_lift|]. intros elems.
      apply preserves_for_each. intros elem.
      apply preserves_get. intros a1.
      apply preserves_bind; [apply preserves_lift|]. intros id.
      destruct id as [[]|]; cbv beta iota;
        first [apply preserves_raise|by apply preserves_modify]. }
    intros _. apply preserves_bind.
    { unfold load_canvas_m. apply preserves_get_state. intros s Hs.
      pose proof Hs as ([ext Hext] & Hdata & _).
      pose proof (load_canvas_no_elements (py_heap s) (json_data s)) as Hsame.
      rewrite Hext, Hdata in Hsame. specialize (Hsame (as_dict_no_elements _ _ _ Hno)).
      rewrite <- Hext, <- Hdata in Hsame.
      destruct (load_canvas (py_heap s) (json_data s)) as [[h1 items] err].
      simpl in Hsame. subst h1. rewrite bindM_modify.
      assert (HP : P (set_canvas_items items (set_py_heap (py_heap s) s))) by done.
      by destruct err. }
    intros _. unfold update_raw_editor. apply preserves_get. intros a0.
    apply preserves_if; [|apply preserves_ret].
    apply preserves_bind; [apply preserves_lift|]. intros t.
    by apply preserves_modify. }
  apply Hviews. split; [|done]. exists []. cbn. by rewrite app_nil_r.
Qed.

(** X25.  Loading a file and saving it at once, with another tab
    than the raw editor in front, leaves a file that parses to the same
    tree, for every text of Unicode that parses to a document without
    [moduleElements] and [enhancedData], whether or not the load is
    reported as failed.  (Showing elements on the canvas rewrites their
    coordinates.)  The file must be writable and the text of the tree
    encodable as UTF-8. *)
Theorem load_then_save_round_trip a file_path choice text j :
  file_path <> [] ->
  dict_get (disk a) file_path = Some text ->
  unicode_text text -> json_loads text = Some j ->
  no_elements j ->
  raw_tab_active a = false ->
  file_path ∉ read_only a ->
  utf8_encodable (json_dumps false j) = true ->
  exists text',
    dict_get (disk (save_file choice (load_file file_path a).2).2) file_path
      = Some text' /\
    json_loads text' = Some j.
Proof.
  intros Hp Hread Htext Hj Hno Hraw Hro Henc.
  destruct (load_file_no_elements a file_path text j Hread Hj Hno)
    as ([ext Hext] & Hdata & Hfile & Hdisk & Hread_only & Htab).
  exists (json_dumps false j). split.
  - rewrite (save_file_current _ _ _ Hfile Hp).
    apply (save_to_writes (load_file file_path a).2 file_path j); try done.
    + by rewrite Htab.
    + by rewrite Hread_only.
    + rewrite Hext, Hdata.
      destruct (reify_alloc_json j (py_heap a)) as (e & He & Hr).
      apply reify_grow. rewrite He. apply Hr. rewrite !length_app. lia.
    + cbn [disk set_modified set_disk]. apply dict_get_set_eq.
  - apply json_dumps_reads_back. by eapply json_loads_wf.
Qed.

Lemma float_doc_text_unicode : unicode_text float_doc_text.
Proof. apply unicode_text_check. vm_compute. reflexivity. Qed.

Lemma load_then_save_round_trip_witness :
  exists text',
    dict_get (disk (save_file [] (load_file (str "doc.json") float_doc_app).2).2)
      (str "doc.json") = Some text' /\
    json_loads text' = Some float_doc_tree.
Proof.
  apply (load_then_save_round_trip float_doc_app (str "doc.json") [] float_doc_text
           float_doc_tree).
  - done.
  - reflexivity.
  - apply float_doc_text_unicode.
  - vm_compute. reflexivity.
  - split; reflexivity.
  - reflexivity.
  - apply not_elem_of_nil.
  - vm_compute. reflexivity.
Defined.

(** ** A document that loads *)

Lemma truthy_grow (h ext : heap) fuel v j :
  reify fuel h v = Some j -> truthy (h ++ ext) v = truthy h v.
Proof.
  destruct fuel as [|fuel]; destruct v as [| | | | |l]; simpl; try done.
  destruct (h !! l) as [o|] eqn:Hl; [|done].
  intros _. by rewrite (lookup_app_l_Some _ _ _ _ Hl).
Qed.

Lemma populate_tree_run a kvs :
  reify (S (length (py_heap a))) (py_heap a) (json_data a) = Some (JObj kvs) ->
  shows_in_tree (JObj kvs) = true ->
  match dict_get kvs (str "id") with
  | None | Some (JStr _) => True
  | Some _ => False
  end ->
  exists a',
    populate_tree a = (Ok (), a') /\ grown_from (py_heap a) a' /\
    json_data a' = json_data a /\ messages a' = messages a /\
    raw_text a' = raw_text a /\ modified a' = modified a /\
    widgets_list a' = widgets_list a /\ canvas_items a' = canvas_items a.
Proof.
  intros Hr Hok Hid. exists (populate_tree a).2.
  assert (Hret : (populate_tree a).1 = Ok ()).
  { rewrite (populate_tree_object a kvs Hr Hid).
    destruct (truthy (py_heap a) (json_data a)); [|done].
    eapply add_tree_items_returns; [exact Hr|exact Hok|].
    exists []. cbn. by rewrite app_nil_r. }
  split; [by destruct (populate_tree a) as [r s]; simpl in *; subst r|].
  apply (populate_tree_grows
           (fun s => grown_from (py_heap a) s /\
                     json_data s = json_data a /\ messages s = messages a /\
                     raw_text s = raw_text a /\ modified s = modified a /\
                     widgets_list s = widgets_list a /\
                     canvas_items s = canvas_items a)).
  - intros o s ([ext Hext] & ?). split; [|done]. exists (ext ++ [o]). cbn.
    by rewrite Hext, app_assoc.
  - by intros t s.
  - split; [|done]. exists []. by rewrite app_nil_r.
Qed.

Lemma load_canvas_without_elements h v kvs :
  as_dict h v = Some kvs ->
  dict_get kvs (str "moduleElements") = None ->
  dict_get kvs (str "enhancedData") = None ->
  load_canvas h v = (h, [], None).
Proof.
  intros Hd Hm He. unfold load_canvas. destruct (negb (truthy h v)); [done|].
  unfold get_elements at 1, py_get. rewrite Hd, bind_Ok, Hm. cbn [add_widgets].
  unfold get_elements, py_get. by rewrite Hd, bind_Ok, He.
Qed.



(** ** The text of the raw editor *)

Lemma ascii_text_check s : forallb (fun c => (c <? 128)%N) s = true -> ascii_text s.
Proof.
  induction s as [|c s IH]; [constructor|]. cbn [forallb].
  intros [Hc Hs]%andb_true_iff. constructor; [by apply N.ltb_lt|by apply IH].
Qed.

Lemma ascii_text_app s t : ascii_text s -> ascii_text t -> ascii_text (s ++ t).
Proof. apply Forall_app_2. Qed.

Lemma ascii_text_digits ds : Forall (fun c => is_digit c = true) ds -> ascii_text ds.
Proof.
  intros H. eapply Forall_impl; [exact H|]. intros c Hc%is_digit_iff. simpl in *. lia.
Qed.

Lemma ascii_text_int_repr z : ascii_text (int_repr z).
Proof.
  destruct z as [|p|p].
  - by apply ascii_text_check.
  - destruct (int_repr_pos p) as [H _]. by apply ascii_text_digits.
  - rewrite int_repr_neg. constructor; [done|].
    destruct (int_repr_pos p) as [H _]. by apply ascii_text_digits.
Qed.

Lemma ascii_text_strip ds : ascii_text ds -> ascii_text (strip_trailing_zeros ds).
Proof.
  intros H. unfold strip_trailing_zeros. apply Forall_rev.
  apply Forall_rev in H. revert H. generalize (rev ds). intros l.
  induction 1 as [|c l Hc Hl IH]; [constructor|]. simpl.
  destruct (c =? 48)%N; [done|by constructor].
Qed.

Lemma ascii_text_zeros n : ascii_text (zeros n).
Proof. apply Forall_replicate. done. Qed.

Lemma ascii_text_format_repr ds decpt : ascii_text ds -> ascii_text (format_repr ds decpt).
Proof.
  intros H. unfold format_repr.
  destruct ((-4 <? decpt) && (decpt <=? 16)).
  - destruct (decpt <=? 0).
    + repeat apply ascii_text_app; [by apply ascii_text_check|apply ascii_text_zeros|done].
    + destruct (_ <=? _).
      * repeat apply ascii_text_app;
          [done|apply ascii_text_zeros|by apply ascii_text_check].
      * repeat apply ascii_text_app;
          [by apply Forall_take|by apply ascii_text_check|by apply Forall_drop].
  - repeat apply ascii_text_app.
    + destruct H as [|d ds Hd Hds]; [constructor|].
      destruct ds; [by constructor|]. constructor; [done|]. by constructor.
    + by apply ascii_text_check.
    + by destruct (_ <? _); apply ascii_text_check.
    + destruct (_ <? _); [constructor; [done|]|]; apply ascii_text_int_repr.
Qed.

Lemma ascii_text_float_repr x : ascii_text (float_repr x).
Proof.
  unfold float_repr. destruct (Prim2SF x) as [s|s| |s m e].
  - by destruct s; apply ascii_text_check.
  - by destruct s; apply ascii_text_check.
  - by apply ascii_text_check.
  - destruct (if 0 <=? e then _ else _) as [num den].
    destruct (shortest_decimal _ _ _ _ _ _) as [c p].
    apply ascii_text_app; [destruct s; [by apply ascii_text_check|constructor]|].
    apply ascii_text_format_repr, ascii_text_strip, ascii_text_int_repr.
Qed.

Lemma ascii_text_floatstr x : ascii_text (floatstr x).
Proof.
  unfold floatstr. destruct (is_nan x); [by apply ascii_text_check|].
  destruct (x =? infinity)%float; [by apply ascii_text_check|].
  destruct (x =? neg_infinity)%float; [by apply ascii_text_check|].
  apply ascii_text_float_repr.
Qed.

Lemma hex_digit_ascii d : (d < 16)%N -> (hex_digit d < 128)%N.
Proof. intros Hd. unfold hex_digit. destruct (d <? 10)%N; lia. Qed.

Lemma ascii_text_escape_u c : ascii_text (escape_u c).
Proof.
  unfold escape_u, hex4. repeat constructor;
    apply hex_digit_ascii, N.mod_lt; done.
Qed.

Lemma ascii_text_encode_char c : ascii_text (encode_char true c).
Proof.
  unfold encode_char, escape_short.
  repeat (destruct (c =? _)%N; [by apply ascii_text_check|]).
  destruct ((32 <=? c)%N && (c <=? 126)%N) eqn:Hc.
  - apply andb_true_iff in Hc as [_ Hc%N.leb_le]. constructor; [lia|constructor].
  - destruct (c <? 65536)%N; [apply ascii_text_escape_u|].
    apply ascii_text_app; apply ascii_text_escape_u.
Qed.

Lemma ascii_text_encode_string s : ascii_text (encode_string true s).
Proof.
  unfold encode_string. constructor; [done|].
  apply ascii_text_app; [|by apply ascii_text_check].
  induction s as [|c s IH]; [constructor|]. simpl.
  apply ascii_text_app; [apply ascii_text_encode_char|done].
Qed.

Lemma ascii_text_newline_indent level : ascii_text (newline_indent level).
Proof. constructor; [done|]. by apply Forall_replicate. Qed.

Lemma ascii_text_encode j : forall level, ascii_text (encode true level j).
Proof.
  induction j as [|b|z|f|s|xs IHxs|kvs IHkvs] using json_ind'; intros level.
  - by apply ascii_text_check.
  - by destruct b; apply ascii_text_check.
  - apply ascii_text_int_repr.
  - apply ascii_text_floatstr.
  - apply ascii_text_encode_string.
  - destruct IHxs as [|x xs Hx Hxs]; [by apply ascii_text_check|].
    cbn [encode]. constructor; [done|].
    repeat apply ascii_text_app;
      [apply ascii_text_newline_indent|apply Hx| |apply ascii_text_newline_indent|by constructor].
    induction Hxs as [|y ys Hy _ IH]; [constructor|]. cbn [map concat].
    apply ascii_text_app; [|done]. constructor; [done|].
    apply ascii_text_app; [apply ascii_text_newline_indent|apply Hy].
  - destruct IHkvs as [|[k x] kvs Hx Hkvs]; [by apply ascii_text_check|].
    cbn [encode]. constructor; [done|].
    repeat apply ascii_text_app;
      [apply ascii_text_newline_indent|apply ascii_text_encode_string
      |by apply ascii_text_check|apply Hx| |apply ascii_text_newline_indent|by constructor].
    induction Hkvs as [|[k' y] ys Hy _ IH]; [constructor|]. cbn [map concat].
    apply ascii_text_app; [|done]. constructor; [done|].
    repeat apply ascii_text_app;
      [apply ascii_text_newline_indent|apply ascii_text_encode_string
      |by apply ascii_text_check|apply Hy].
Qed.

(** X23.  The text [update_raw_editor] puts into the raw editor holds
    ASCII characters only: every other character of the document is written
    as a [\u] escape. *)
Theorem raw_editor_text_ascii a :
  truthy (py_heap a) (json_data a) = true ->
  (update_raw_editor a).1 = Ok () ->
  ascii_text (raw_text (update_raw_editor a).2).
Proof.
  intros Ht. unfold update_raw_editor. rewrite bindM_get, Ht. unfold py_dumps.
  destruct (reify _ _ _) as [j|]; [|by rewrite bindM_lift_Raise].
  rewrite bindM_lift_Ok. intros _. apply ascii_text_encode.
Qed.

Lemma raw_editor_text_ascii_witness :
  ascii_text (raw_text (update_raw_editor float_doc_loaded).2).
Proof.
  apply (raw_editor_text_ascii float_doc_loaded).
  - reflexivity.
  - vm_compute. reflexivity.
Defined.

(** ** Surrogates in strings *)

Lemma surrogate_range hi lo :
  is_high_surrogate hi = true -> is_low_surrogate lo = true ->
  (0xD800 <= hi <= 0xDBFF /\ 0xDC00 <= lo <= 0xDFFF)%N.
Proof.
  unfold is_high_surrogate, is_low_surrogate.
  rewrite !andb_true_iff, !N.leb_le. tauto.
Qed.

Lemma join_surrogates_value hi lo :
  is_high_surrogate hi = true -> is_low_surrogate lo = true ->
  join_surrogates hi lo = (0x10000 + (hi - 0xD800) * 1024 + (lo - 0xDC00))%N.
Proof.
  intros Hhi Hlo. destruct (surrogate_range _ _ Hhi Hlo) as [? ?].
  unfold join_surrogates. rewrite lor_shiftl_small by lia. lia.
Qed.

Lemma halves_of_join hi lo :
  is_high_surrogate hi = true -> is_low_surrogate lo = true ->
  high_half (join_surrogates hi lo) = hi /\ low_half (join_surrogates hi lo) = lo.
Proof.
  intros Hhi Hlo. destruct (surrogate_range _ _ Hhi Hlo) as [? ?].
  rewrite join_surrogates_value by done. unfold high_half, low_half.
  replace (65536 + (hi - 55296) * 1024 + (lo - 56320) - 65536)%N
    with ((hi - 55296) * 1024 + (lo - 56320))%N by lia.
  change 1023%N with (N.ones 10). rewrite !N.land_ones, N.shiftr_div_pow2.
  change (2 ^ 10)%N with 1024%N.
  replace (((hi - 55296) * 1024 + (lo - 56320)) / 1024)%N with (hi - 55296)%N
    by (zify; Z.to_euclidean_division_equations; lia).
  replace (((hi - 55296) * 1024 + (lo - 56320)) mod 1024)%N with (lo - 56320)%N
    by (zify; Z.to_euclidean_division_equations; lia).
  rewrite N.mod_small by lia.
  change 55296%N with (N.shiftl 54 10). change 56320%N with (N.shiftl 55 10).
  rewrite !lor_shiftl_small by (change (N.shiftl 54 10) with 55296%N;
                                change (N.shiftl 55 10) with 56320%N; lia).
  change (N.shiftl 54 10) with 55296%N. change (N.shiftl 55 10) with 56320%N.
  lia.
Qed.

Lemma encode_char_surrogate c :
  (0xD800 <= c <= 0xDFFF)%N -> encode_char true c = escape_u c.
Proof.
  intros Hc. unfold encode_char, escape_short.
  repeat match goal with
         | |- context [(c =? ?k)%N] => destruct (N.eqb_spec c k) as [->|_]; [lia|]
         end.
  destruct (N.leb_spec c 126); [lia|]. rewrite andb_false_r.
  destruct (N.ltb_spec c 65536); [done|lia].
Qed.

(** X2.  A string that holds a high surrogate followed by a low
    surrogate does not survive the raw editor: [json.dumps] as
    [update_raw_editor] calls it writes the two as two escapes, and
    [json.loads] reads these back as the one character the pair stands
    for. *)
Theorem surrogate_halves_merge hi lo :
  is_high_surrogate hi = true -> is_low_surrogate lo = true ->
  json_loads (json_dumps true (JStr [hi; lo])) = Some (JStr [join_surrogates hi lo]).
Proof.
  intros Hhi Hlo. destruct (surrogate_range _ _ Hhi Hlo) as [? ?].
  destruct (halves_of_join _ _ Hhi Hlo) as [Hh Hl].
  assert (Hsame : json_dumps true (JStr [hi; lo])
                  = json_dumps true (JStr [join_surrogates hi lo])).
  { unfold json_dumps. cbn [encode]. unfold encode_string. cbn [map concat].
    rewrite !encode_char_surrogate by lia. f_equal. f_equal.
    pose proof (join_surrogates_value _ _ Hhi Hlo) as Hc.
    revert Hh Hl Hc. generalize (join_surrogates hi lo). intros c Hh Hl Hc.
    unfold encode_char, escape_short.
    repeat match goal with
           | |- context [(c =? ?k)%N] => destruct (N.eqb_spec c k) as [?|_]; [lia|]
           end.
    destruct (N.leb_spec c 126); [lia|]. rewrite andb_false_r.
    destruct (N.ltb_spec c 65536); [lia|].
    by rewrite Hh, Hl, app_nil_r. }
  rewrite Hsame. apply json_dumps_reads_back. constructor.
  cbn [good_string heads_low]. rewrite andb_false_r, !andb_true_r. cbn [negb].
  rewrite join_surrogates_value by done. apply N.ltb_lt. lia.
Qed.

Lemma surrogate_halves_merge_witness :
  json_loads (json_dumps true (JStr [55357%N; 56832%N])) = Some (JStr [128512%N]).
Proof.
  apply (surrogate_halves_merge 55357%N 56832%N).
  - reflexivity.
  - reflexivity.
Defined.
